(** * A shallow embedding of [bootstrap/shell/shell.go]

    The virtual shell of the build agent: working directory, command
    construction and execution, the PID-file lock and the translation
    of execution errors into exit codes.

    Pointers of the Go code ([*Shell], [*env.Environment], [*exec.Cmd],
    slices, [bytes.Buffer]) live in an explicit store; every method is a
    computation in a small state monad over that store, which can
    return, panic or run out of the fuel given to a loop.  What the
    operating system and the child processes do is read from an oracle
    record [OS], so every theorem holds for all behaviours of the
    platform.  What the package does to the outside (logging, starting
    and waiting for children, lock attempts, sleeps) is recorded in a
    trace.  Time is a virtual clock that only [time.Sleep] advances.

    Every child the oracle describes comes to an end: [cmd.Wait] and
    the copy from its terminal have a result.  A child that never
    exits, or a terminal that never closes, is outside the model; what
    is proved of a call that waits for a child is what holds when the
    wait is over, not that the wait ends.

    The model is the Unix build of the package; [RunScript] is
    modelled for the builds other than the Windows one.  The relay of
    signals to the child, which runs beside [executeCommand], is not
    part of it. *)

From Stdlib Require Import ZArith String Ascii List Lia Bool.
From stdpp Require Import base option gmap strings.

Import ListNotations.
Local Open Scope string_scope.
Local Open Scope Z_scope.

(** ** Errors *)

(** What [Sys()] of an [os.ProcessState] returns: a [syscall.WaitStatus] on
    Unix and Windows, something else elsewhere (a [*syscall.Waitmsg] on
    Plan 9). *)
Inductive SysStatus :=
| SysWaitStatus (w : Z)
| SysOther.

(** The Go error values the package creates or inspects.  Formatted
    messages keep their format string and arguments unrendered. *)
Inductive error :=
| ErrorString (format : string) (args : list fmtarg)
    (* errors.New, fmt.Errorf *)
| Errno (n : Z)
    (* syscall.Errno *)
| PathError (op path : string) (err : error)
    (* os.PathError *)
| ExitError (sys : SysStatus)
    (* exec.ExitError; [sys] is what its Sys() returns *)
| Canceled
    (* context.Canceled *)
| DeadlineExceeded
    (* context.DeadlineExceeded *)
| withMessage (cause : error) (format : string) (args : list fmtarg)
    (* pkg/errors: withMessage *)
| withStack (err : error)
    (* pkg/errors: withStack *)
with fmtarg :=
| AStr (s : string)
| AErr (e : error)
| ADuration (d : Z)
| ACommand (path : string) (args : list string).
    (* process.FormatCommand(path, args), kept symbolic *)

(** [syscall.EIO] *)
Definition EIO : Z := 5.

(** [fmt.Errorf(format, args...)] *)
Definition fmt_Errorf (format : string) (args : list fmtarg) : error :=
  ErrorString format args.

(** [errors.Wrapf(err, format, args...)] of github.com/pkg/errors:
    nil stays nil, otherwise a [withStack] around a [withMessage]. *)
Definition errors_Wrapf (err : option error) (format : string)
    (args : list fmtarg) : option error :=
  match err with
  | None => None
  | Some e => Some (withStack (withMessage e format args))
  end.

(** [errors.Cause(err)]: follow [Cause()] as long as the error has one;
    only the two wrappers of pkg/errors implement it. *)
Fixpoint errors_Cause (err : error) : error :=
  match err with
  | withMessage cause _ _ => errors_Cause cause
  | withStack e => errors_Cause e
  | _ => err
  end.

(** ** [syscall.WaitStatus] (Linux) *)

Module WaitStatus.
Definition mask : Z := 0x7F.
Definition exited : Z := 0x00.
Definition shift : Z := 8.

(** [func (w WaitStatus) Exited() bool] *)
Definition Exited (w : Z) : bool := Z.land w mask =? exited.

(** [func (w WaitStatus) ExitStatus() int] *)
Definition ExitStatus (w : Z) : Z :=
  if negb (Exited w) then -1 else Z.land (Z.shiftr w shift) 0xFF.

(** The status word the kernel reports for a process that called
    [exit(code)]. *)
Definition of_exit (code : Z) : Z := Z.shiftl (Z.land code 0xFF) shift.

(** The status word of a process killed by signal [sig]. *)
Definition of_signal (sig : Z) : Z := Z.land sig mask.
End WaitStatus.

(** ** [GetExitCode] *)

(** [func GetExitCode(err error) int] *)
Definition GetExitCode (err : option error) : Z :=
  match err with
  | None => 0
  | Some err =>
      match errors_Cause err with
      | ExitError (SysWaitStatus status) => WaitStatus.ExitStatus status
      | _ => 1
      end
  end.

(** ** Paths (packages [path] and [path/filepath], Unix) *)

(** [path.IsAbs]: the path begins with a slash. *)
Definition path_IsAbs (p : string) : bool :=
  match p with
  | String "/" _ => true
  | _ => false
  end.

(** [filepath.IsAbs] on Unix: [strings.HasPrefix(path, "/")]. *)
Definition filepath_IsAbs (p : string) : bool :=
  match p with
  | String "/" _ => true
  | _ => false
  end.

(** [strings.Split(s, "/")] *)
Fixpoint split_slash (s : string) : list string :=
  match s with
  | EmptyString => [EmptyString]
  | String "/" rest => EmptyString :: split_slash rest
  | String c rest =>
      match split_slash rest with
      | e :: es => String c e :: es
      | [] => [String c EmptyString]
      end
  end.

(** The element pass of [Clean]: empty and [.] elements are dropped, a
    [..] removes the element before it when there is one that is not
    itself a kept [..]; at the start of a rooted path it is dropped and
    at the start of a relative path it is kept.  [stack] holds the
    elements written so far, last one first. *)
Fixpoint clean_elems (rooted : bool) (stack : list string)
    (elems : list string) : list string :=
  match elems with
  | [] => rev stack
  | e :: rest =>
      if (e =? "")%string || (e =? ".")%string then
        clean_elems rooted stack rest
      else if (e =? "..")%string then
        match stack with
        | top :: below =>
            if (top =? "..")%string
            then clean_elems rooted (e :: stack) rest
            else clean_elems rooted below rest
        | [] =>
            if rooted
            then clean_elems rooted [] rest
            else clean_elems rooted [e] rest
        end
      else clean_elems rooted (e :: stack) rest
  end.

(** [filepath.Clean] on Unix (the same function as [path.Clean]): the
    shortest path equivalent to [p] by lexical processing. *)
Definition filepath_Clean (p : string) : string :=
  if (p =? "")%string then "."
  else
    let rooted := filepath_IsAbs p in
    let es := clean_elems rooted [] (split_slash p) in
    if rooted then String "/" (String.concat "/" es)
    else match es with
         | [] => "."
         | _ => String.concat "/" es
         end.

(** [filepath.Join(elem...)] on Unix: leading empty elements are
    ignored, the rest is joined with slashes and cleaned. *)
Fixpoint filepath_Join (elem : list string) : string :=
  match elem with
  | [] => ""
  | e :: rest =>
      if (e =? "")%string then filepath_Join rest
      else filepath_Clean (String.concat "/" elem)
  end.

(** ** The environment container *)

(** Modelled from the spec: package [env] of the agent
    ([env.Environment] with [Get], [ToSlice], [FromSlice]) is not among
    the sources.  The spec gives it as an ordered mapping of variable
    name to value with [get(key) -> (value, found)],
    [toFlatList() -> ordered list of KEY=VALUE] and
    [fromFlatList(list) -> container].  The container is a mapping and
    [ToSlice] flattens it into a list of its own.  [Set_] and [Remove]
    are the updates a caller can make to the mapping in place. *)
Module env.
Definition Environment := list (string * string).

Fixpoint Get (e : Environment) (key : string) : string * bool :=
  match e with
  | [] => ("", false)
  | (k, v) :: rest => if (k =? key)%string then (v, true) else Get rest key
  end.

Fixpoint Remove (e : Environment) (key : string) : Environment :=
  match e with
  | [] => []
  | (k, v) :: rest =>
      if (k =? key)%string then Remove rest key else (k, v) :: Remove rest key
  end.

Fixpoint Set_ (e : Environment) (key value : string) : Environment :=
  match e with
  | [] => [(key, value)]
  | (k, v) :: rest =>
      if (k =? key)%string then (k, value) :: rest
      else (k, v) :: Set_ rest key value
  end.

(** Splits [KEY=VALUE] at the first [=]. *)
Fixpoint split_entry (s : string) : string * string :=
  match s with
  | EmptyString => ("", "")
  | String "=" rest => ("", rest)
  | String c rest => let (k, v) := split_entry rest in (String c k, v)
  end.

Definition FromSlice (s : list string) : Environment :=
  fold_left (fun e kv => let (k, v) := split_entry kv in Set_ e k v) s [].

Definition ToSlice (e : Environment) : list string :=
  map (fun kv => (fst kv ++ "=" ++ snd kv)%string) e.
End env.

(** ** Contexts and virtual time *)

(** Time is a count of nanoseconds ([time.Duration], [time.Time]). *)
Definition Time := Z.

(** A [context.Context] together with its fate: the instant at which
    its cancel function is called, when it ever is. *)
Inductive Context :=
| Background
| WithCancel (parent : Context) (cancelled_at : option Time)
| WithDeadline (parent : Context) (deadline : Time) (cancelled_at : option Time).

(** The earlier of two optional cancellations; the first one wins a tie. *)
Definition first_of (a b : option (Time * error)) : option (Time * error) :=
  match a, b with
  | Some (ta, ea), Some (tb, eb) => if ta <=? tb then a else b
  | Some _, None => a
  | None, _ => b
  end.

(** The instant at which the context's [Done()] channel is closed and
    the error [Err()] reports from then on. *)
Fixpoint done_at (c : Context) : option (Time * error) :=
  match c with
  | Background => None
  | WithCancel parent cancelled_at =>
      first_of (done_at parent)
               (option_map (fun t => (t, Canceled)) cancelled_at)
  | WithDeadline parent deadline cancelled_at =>
      first_of (done_at parent)
        (first_of (Some (deadline, DeadlineExceeded))
                  (option_map (fun t => (t, Canceled)) cancelled_at))
  end.

(** [ctx.Err()] at instant [t]: nil until the context is done. *)
Definition ctx_Err (c : Context) (t : Time) : option error :=
  match done_at c with
  | Some (t0, e) => if t0 <=? t then Some e else None
  | None => None
  end.

(** [context.WithTimeout(parent, timeout)] called at instant [t]; the
    cancel function it returns is deferred to the caller's return. *)
Definition context_WithTimeout (parent : Context) (timeout : Z) (t : Time)
    : Context :=
  WithDeadline parent (t + timeout) None.

(** ** The store *)

Definition loc := nat.

(** The [io.Writer] values of the package. *)
Inductive Writer :=
| WBuffer (l : loc)               (* a byte sink: os.Stdout, a bytes.Buffer *)
| WLoggerStreamer (id : loc)      (* NewLoggerStreamer(s.Logger) *)
| MultiWriter (a b : Writer).     (* io.MultiWriter(a, b) *)

Module Shell.
Record t := mk {
  Env : loc;          (* *env.Environment *)
  PTY : bool;
  Writer : Writer;
  Debug : bool;
  wd : string;
  ctx : Context;
}.

Definition set_wd (s : t) (d : string) : t :=
  mk (Env s) (PTY s) (Writer s) (Debug s) d (ctx s).
Definition set_Env (s : t) (e : loc) : t :=
  mk e (PTY s) (Writer s) (Debug s) (wd s) (ctx s).
Definition set_ctx (s : t) (c : Context) : t :=
  mk (Env s) (PTY s) (Writer s) (Debug s) (wd s) c.
End Shell.

Module Cmd.
(** The fields of [exec.Cmd] the package touches.  [Env] is the slice
    the descriptor points to, nil when unset. *)
Record t := mk {
  Path : string;
  Args : list string;
  Env : option loc;
  Dir : string;
  Stdin : option unit;     (* always nil here *)
  Stdout : option Writer;
  Stderr : option Writer;
}.

Definition set_Env (c : t) (e : option loc) : t :=
  mk (Path c) (Args c) e (Dir c) (Stdin c) (Stdout c) (Stderr c).
Definition set_Dir (c : t) (d : string) : t :=
  mk (Path c) (Args c) (Env c) d (Stdin c) (Stdout c) (Stderr c).
Definition set_Stdin (c : t) (r : option unit) : t :=
  mk (Path c) (Args c) (Env c) (Dir c) r (Stdout c) (Stderr c).
Definition set_Stdout (c : t) (w : option Writer) : t :=
  mk (Path c) (Args c) (Env c) (Dir c) (Stdin c) w (Stderr c).
Definition set_Stderr (c : t) (w : option Writer) : t :=
  mk (Path c) (Args c) (Env c) (Dir c) (Stdin c) (Stdout c) w.
End Cmd.

Module executeFlags.
Record t := mk {
  Stdout : bool;
  Stderr : bool;
  PTY : bool;
}.
End executeFlags.

Inductive LogLevel := LComment | LPrompt | LError | LPrintf.

(** What the package does to the outside world, in order. *)
Inductive Event :=
| EvLog (level : LogLevel) (format : string) (args : list fmtarg)
| EvStartPTY (cmd : Cmd.t)          (* process.StartPTY(cmd) *)
| EvStart (cmd : Cmd.t)             (* cmd.Start() *)
| EvWait (cmd : Cmd.t)              (* cmd.Wait() *)
| EvStream (id : loc) (bytes : string)   (* bytes written to a LoggerStreamer *)
| EvStreamerClose (id : loc)
| EvTryLock (path : string) (t : Time)   (* lock.TryLock() *)
| EvSleep (d : Z).                  (* time.Sleep(d) *)

Record World := mkWorld {
  shells : gmap loc Shell.t;
  envs : gmap loc env.Environment;
  slices : gmap loc (list string);
  cmds : gmap loc Cmd.t;
  buffers : gmap loc string;
  next : loc;            (* the next free address *)
  now : Time;
  trace : list Event;    (* oldest event first *)
}.

Definition with_shells (f : gmap loc Shell.t -> gmap loc Shell.t) (w : World) :=
  mkWorld (f (shells w)) (envs w) (slices w) (cmds w) (buffers w) (next w)
          (now w) (trace w).
Definition with_envs (f : gmap loc env.Environment -> gmap loc env.Environment)
    (w : World) :=
  mkWorld (shells w) (f (envs w)) (slices w) (cmds w) (buffers w) (next w)
          (now w) (trace w).
Definition with_slices (f : gmap loc (list string) -> gmap loc (list string))
    (w : World) :=
  mkWorld (shells w) (envs w) (f (slices w)) (cmds w) (buffers w) (next w)
          (now w) (trace w).
Definition with_cmds (f : gmap loc Cmd.t -> gmap loc Cmd.t) (w : World) :=
  mkWorld (shells w) (envs w) (slices w) (f (cmds w)) (buffers w) (next w)
          (now w) (trace w).
Definition with_buffers (f : gmap loc string -> gmap loc string) (w : World) :=
  mkWorld (shells w) (envs w) (slices w) (cmds w) (f (buffers w)) (next w)
          (now w) (trace w).
Definition with_next (n : loc) (w : World) :=
  mkWorld (shells w) (envs w) (slices w) (cmds w) (buffers w) n
          (now w) (trace w).
Definition with_now (t : Time) (w : World) :=
  mkWorld (shells w) (envs w) (slices w) (cmds w) (buffers w) (next w)
          t (trace w).
Definition with_trace (f : list Event -> list Event) (w : World) :=
  mkWorld (shells w) (envs w) (slices w) (cmds w) (buffers w) (next w)
          (now w) (f (trace w)).

(** ** The monad of the model *)

(** A call returns a value and a new store, panics (a nil dereference,
    a slice bound), or runs out of the fuel given to its loop. *)
Inductive Outcome (A : Type) :=
| Done (a : A) (w : World)
| Panic
| OutOfFuel.
Arguments Done {A} a w.
Arguments Panic {A}.
Arguments OutOfFuel {A}.

Definition M (A : Type) := World -> Outcome A.

Definition ret {A} (a : A) : M A := fun w => Done a w.

Definition bind {A B} (m : M A) (k : A -> M B) : M B :=
  fun w => match m w with
           | Done a w' => k a w'
           | Panic => Panic
           | OutOfFuel => OutOfFuel
           end.

#[global] Instance M_ret : MRet M := @ret.
#[global] Instance M_bind : MBind M := fun A B k m => bind m k.

Definition panic {A} : M A := fun _ => Panic.
Definition get : M World := fun w => Done w w.
Definition modify (f : World -> World) : M unit := fun w => Done tt (f w).

(** Dereferences: a pointer that is not in the store is a nil (or
    dangling) pointer, and reading through it panics. *)
Definition deref {A} (field : World -> gmap loc A) (l : loc) : M A :=
  fun w => match field w !! l with
           | Some a => Done a w
           | None => Panic
           end.

(** [new(T)] / [&T{...}]: the next free address, same for every kind
    of object. *)
Definition fresh : M loc :=
  fun w => Done (next w) (with_next (S (next w)) w).

Definition emit (e : Event) : M unit :=
  modify (with_trace (fun tr => (tr ++ [e])%list)).

(** ** The platform *)

(** [os.FileInfo], as far as the kind of the file goes. *)
Record FileInfo := { IsDir : bool }.

(** What one spawned child does: whether it starts, what it writes,
    how the copy from its terminal ends and what waiting for it
    reports.  The child is one that exits: the copy and the wait have
    a result. *)
Record Proc := mkProc {
  StartPTY_err : option error;   (* process.StartPTY(cmd) *)
  pty_output : string;           (* the bytes read from the terminal *)
  Copy_err : option error;       (* what io.Copy(w, pty) returns *)
  Start_err : option error;      (* cmd.Start() *)
  stdout_bytes : string;
  stderr_bytes : string;
  Wait_err : option error;       (* cmd.Wait() *)
}.

(** Everything the package asks of the operating system and of the
    parts of the agent that are not in this file. *)
Record OS := mkOS {
  os_Getwd : string * option error;                  (* os.Getwd() *)
  os_Environ : list string;                          (* os.Environ() *)
  os_Stat : string -> option FileInfo * option error;  (* os.Stat(path) *)
  (* the agent's own lookPath(file, path, fileExtensions) *)
  lookPath : string -> string -> string -> string * option error;
  (* the child a descriptor stands for, given its environment *)
  spawn : Cmd.t -> list string -> Proc;
  (* lock.TryLock() on the lock file at an instant *)
  TryLock : string -> Time -> option error;
}.

(** The double quote, for format strings. *)
Definition dq : string := String "034"%char EmptyString.

(** [os.Stdout] is the byte sink at address 0. *)
Definition os_Stdout : Writer := WBuffer 0%nat.

(** The store a process starts with. *)
Definition World0 : World :=
  mkWorld ∅ ∅ ∅ ∅ ∅ 1%nat 0 [].

(** ** [strings.TrimSpace] *)

Definition bytes (l : list nat) : string :=
  string_of_list_ascii (map ascii_of_nat l).

(** The UTF-8 encodings of the code points [unicode.IsSpace] accepts:
    tab, LF, VT, FF, CR, space, U+0085, U+00A0, U+1680, U+2000 to
    U+200A, U+2028, U+2029, U+202F, U+205F and U+3000. *)
Definition space_encodings : list string :=
  map bytes
    [ [9]; [10]; [11]; [12]; [13]; [32]; [194; 133]; [194; 160];
      [225; 154; 128];
      [226; 128; 128]; [226; 128; 129]; [226; 128; 130]; [226; 128; 131];
      [226; 128; 132]; [226; 128; 133]; [226; 128; 134]; [226; 128; 135];
      [226; 128; 136]; [226; 128; 137]; [226; 128; 138];
      [226; 128; 168]; [226; 128; 169]; [226; 128; 175];
      [226; 129; 159]; [227; 128; 128] ]%nat.

Fixpoint strip_prefix (p s : string) : option string :=
  match p, s with
  | EmptyString, _ => Some s
  | String a p', String b s' =>
      if Ascii.eqb a b then strip_prefix p' s' else None
  | String _ _, EmptyString => None
  end.

Fixpoint strip_any (ps : list string) (s : string) : option string :=
  match ps with
  | [] => None
  | p :: ps' =>
      match strip_prefix p s with
      | Some rest => Some rest
      | None => strip_any ps' s
      end
  end.

(** Drops white-space runes from the front, at most [fuel] of them. *)
Fixpoint trim_front (ps : list string) (fuel : nat) (s : string) : string :=
  match fuel with
  | O => s
  | S fuel' =>
      match strip_any ps s with
      | Some rest => trim_front ps fuel' rest
      | None => s
      end
  end.

Fixpoint rev_string (s : string) : string :=
  match s with
  | EmptyString => EmptyString
  | String c s' => (rev_string s' ++ String c EmptyString)%string
  end.

Definition TrimLeftSpace (s : string) : string :=
  trim_front space_encodings (String.length s) s.

Definition TrimRightSpace (s : string) : string :=
  rev_string
    (trim_front (map rev_string space_encodings) (String.length s)
                (rev_string s)).

(** [strings.TrimSpace(s)]: [s] without its leading and trailing white
    space, as Unicode defines it. *)
Definition strings_TrimSpace (s : string) : string :=
  TrimRightSpace (TrimLeftSpace s).

(** ** The shell *)

(** [lockRetryDuration = time.Second] *)
Definition lockRetryDuration : Z := 1000000000.

(** The lock handle of github.com/nightlyone/lockfile: the path of the
    PID file. *)
Definition Lockfile := string.

Section shell.
Variable os : OS.

(** *** The logger and the primitives of the platform *)

(** The [Logger] is embedded in the [Shell]: logging through a shell
    reads the shell first. *)
Definition logf (level : LogLevel) (s : loc) (format : string)
    (args : list fmtarg) : M unit :=
  _ ← deref shells s;
  emit (EvLog level format args).

Definition Commentf := logf LComment.
Definition Promptf := logf LPrompt.
Definition Errorf := logf LError.
Definition Printf := logf LPrintf.

(** [w.Write(p)] *)
Fixpoint write (w : Writer) (p : string) : M unit :=
  match w with
  | WBuffer l =>
      modify (with_buffers
                (fun b => <[l := (default "" (b !! l) ++ p)%string]> b))
  | WLoggerStreamer id => emit (EvStream id p)
  | MultiWriter a b => write a p;; write b p
  end.

(** What the child writes to a descriptor goes to the writer wired
    to it, or nowhere when that is nil. *)
Definition deliver (w : option Writer) (p : string) : M unit :=
  match w with
  | Some w => write w p
  | None => mret tt
  end.

(** The environment a descriptor hands to its child: its [Env]
    slice, or the environment of the agent when that is nil. *)
Definition cmd_environment (c : Cmd.t) : M (list string) :=
  match Cmd.Env c with
  | Some l => deref slices l
  | None => mret (os_Environ os)
  end.

Definition child (cmd : loc) : M (Cmd.t * Proc) :=
  c ← deref cmds cmd;
  e ← cmd_environment c;
  mret (c, spawn os c e).

(** [process.StartPTY(cmd)] *)
Definition process_StartPTY (cmd : loc) : M (option error) :=
  '(c, p) ← child cmd;
  emit (EvStartPTY c);;
  mret (StartPTY_err p).

(** [io.Copy(w, pty)], for a terminal that reaches its end: the call
    blocks until then. *)
Definition io_Copy_pty (w : Writer) (cmd : loc) : M (option error) :=
  '(c, p) ← child cmd;
  write w (pty_output p);;
  mret (Copy_err p).

(** [cmd.Start()] *)
Definition cmd_Start (cmd : loc) : M (option error) :=
  '(c, p) ← child cmd;
  emit (EvStart c);;
  mret (Start_err p).

(** [cmd.Wait()], for a child that exits: the call blocks until then,
    and by the time it returns the child's output has reached the
    writers of the descriptor. *)
Definition cmd_Wait (cmd : loc) : M (option error) :=
  '(c, p) ← child cmd;
  emit (EvWait c);;
  deliver (Cmd.Stdout c) (stdout_bytes p);;
  deliver (Cmd.Stderr c) (stderr_bytes p);;
  mret (Wait_err p).

(** [exec.Command(name, arg...)]; the search it does for a bare name
    is left out, the name it gets here is a path. *)
Definition exec_Command (name : string) (arg : list string) : M loc :=
  cmd ← fresh;
  modify (with_cmds
            <[cmd := Cmd.mk name (name :: arg) None "" None None None]>);;
  mret cmd.

(** [filepath.Abs(path)] on Unix *)
Definition filepath_Abs (path : string) : string * option error :=
  if filepath_IsAbs path then (filepath_Clean path, None)
  else
    let '(wd, err) := os_Getwd os in
    match err with
    | Some err => ("", Some err)
    | None => (filepath_Join [wd; path], None)
    end.

(** [lockfile.New(path)] *)
Definition lockfile_New (path : string) : Lockfile * option error :=
  if negb (filepath_IsAbs path)
  then ("", Some (ErrorString
                    "Lockfiles must be given as absolute path names" []))
  else (path, None).

(** [time.Sleep(d)] *)
Definition time_Sleep (d : Z) : M unit :=
  emit (EvSleep d);;
  modify (fun w => with_now (now w + Z.max 0 d) w).

(** [lock.TryLock()] *)
Definition lock_TryLock (lock : Lockfile) : M (option error) :=
  w ← get;
  emit (EvTryLock lock (now w));;
  mret (TryLock os lock (now w)).

(** *** Construction *)

(** [func New() ( *Shell, error)] *)
Definition New : M (option loc * option error) :=
  let '(wd, err) := os_Getwd os in
  match err with
  | Some err =>
      mret (None, errors_Wrapf (Some err)
                    "Failed to find current working directory" [])
  | None =>
      e ← fresh;
      modify (with_envs <[e := env.FromSlice (os_Environ os)]>);;
      s ← fresh;
      modify (with_shells
                <[s := Shell.mk e false os_Stdout false wd Background]>);;
      mret (Some s, None)
  end.

(** [func NewWithContext(ctx context.Context) ( *Shell, error)] *)
Definition NewWithContext (ctx : Context) : M (option loc * option error) :=
  '(sh, err) ← New;
  match sh, err with
  | _, Some err => mret (None, Some err)
  | Some s, None =>
      v ← deref shells s;
      modify (with_shells <[s := Shell.set_ctx v ctx]>);;
      mret (Some s, None)
  | None, None => panic
  end.

(** [func (s *Shell) Getwd() string] *)
Definition Getwd (s : loc) : M string :=
  v ← deref shells s;
  mret (Shell.wd v).

(** *** [Chdir] *)

(** [func (s *Shell) Chdir(path string) error] *)
Definition Chdir (s : loc) (path : string) : M (option error) :=
  v ← deref shells s;
  let path :=
    if negb (filepath_IsAbs path)
    then filepath_Join [Shell.wd v; path]
    else path in
  Commentf s ("Changing working directory to " ++ dq ++ "%s" ++ dq)%string
           [AStr path];;
  match os_Stat os path with
  | (_, Some err) =>
      mret (Some (fmt_Errorf
                    "Failed to change working: directory does not exist" []))
  | (_, None) =>
      modify (with_shells <[s := Shell.set_wd v path]>);;
      mret None
  end.

(** *** [AbsolutePath] *)

(** [func (s *Shell) AbsolutePath(executable string) (string, error)] *)
Definition AbsolutePath (s : loc) (executable : string)
    : M (string * option error) :=
  if path_IsAbs executable then mret (executable, None)
  else
    v ← deref shells s;
    e ← deref envs (Shell.Env v);
    let '(envPath, _) := env.Get e "PATH" in
    let '(fileExtensions, _) := env.Get e "PATHEXT" in
    let '(absolutePath, err) := lookPath os executable envPath fileExtensions in
    match err with
    | Some err => mret ("", Some err)
    | None => mret (filepath_Abs absolutePath)
    end.

(** *** [LockFile] *)

(** The retry loop of [LockFile]; [err] is the (nil) error left by
    [lockfile.New]. *)
Fixpoint LockFile_loop (fuel : nat) (s : loc) (ctx : Context)
    (lock : Lockfile) (absolutePathToLock : string) (err : option error)
    : M (option Lockfile * option error) :=
  match fuel with
  | O => fun _ => OutOfFuel
  | S fuel' =>
      e ← lock_TryLock lock;
      match e with
      | Some e =>
          Commentf s ("Could not acquire lock on " ++ dq ++ "%s" ++ dq
                      ++ " (%s)")%string
                   [AStr absolutePathToLock; AErr e];;
          Commentf s "Trying again in %s..." [ADuration lockRetryDuration];;
          time_Sleep lockRetryDuration;;
          w ← get;
          match ctx_Err ctx (now w) with
          | Some e => mret (None, Some e)
          | None => LockFile_loop fuel' s ctx lock absolutePathToLock err
          end
      | None => mret (Some lock, err)
      end
  end.

(** [func (s *Shell) LockFile(path string, timeout time.Duration)
    (LockFile, error)] *)
Definition LockFile (fuel : nat) (s : loc) (path : string) (timeout : Z)
    : M (option Lockfile * option error) :=
  let '(absolutePathToLock, err) := filepath_Abs path in
  match err with
  | Some err =>
      mret (None,
            Some (fmt_Errorf ("Failed to find absolute path to lock " ++ dq
                              ++ "%s" ++ dq ++ " (%v)")%string
                             [AStr path; AErr err]))
  | None =>
      let '(lock, err) := lockfile_New absolutePathToLock in
      match err with
      | Some err =>
          mret (None,
                Some (fmt_Errorf ("Failed to create lock " ++ dq ++ "%s" ++ dq
                                  ++ " (%s)")%string
                                 [AStr absolutePathToLock; AErr err]))
      | None =>
          v ← deref shells s;
          w ← get;
          let ctx := context_WithTimeout (Shell.ctx v) timeout (now w) in
          LockFile_loop fuel s ctx lock absolutePathToLock err
      end
  end.

(** *** Building and executing commands *)

(** [func (s *Shell) buildCommand(name string, arg ...string)
    ( *exec.Cmd, error)] *)
Definition buildCommand (s : loc) (name : string) (arg : list string)
    : M (option loc * option error) :=
  '(absPath, err) ← AbsolutePath s name;
  match err with
  | Some err => mret (None, Some err)
  | None =>
      cmd ← exec_Command absPath arg;
      (* cmd.Env = s.Env.ToSlice() *)
      v ← deref shells s;
      e ← deref envs (Shell.Env v);
      sl ← fresh;
      modify (with_slices <[sl := env.ToSlice e]>);;
      c ← deref cmds cmd;
      modify (with_cmds <[cmd := Cmd.set_Env c (Some sl)]>);;
      (* cmd.Dir = s.wd *)
      v ← deref shells s;
      c ← deref cmds cmd;
      modify (with_cmds <[cmd := Cmd.set_Dir c (Shell.wd v)]>);;
      mret (Some cmd, None)
  end.

(** The test [e, ok := err.( *os.PathError); ok && e.Err == syscall.EIO] *)
Definition is_PathError_EIO (err : option error) : bool :=
  match err with
  | Some (PathError _ _ (Errno n)) => n =? EIO
  | _ => false
  end.

(** The tail of [executeCommand], from [cmd.Wait()] on. *)
Definition executeCommand_wait (s : loc) (cmd : loc) (cmdStr : fmtarg)
    : M (option error) :=
  err ← cmd_Wait cmd;
  match err with
  | Some err =>
      v ← deref shells s;
      (if Shell.Debug v
       then Printf s "Exited with error: %v" [AErr err]
       else mret tt);;
      mret (errors_Wrapf (Some err) "Error running `%s`" [cmdStr])
  | None => mret None
  end.

(** [NewLoggerStreamer(s.Logger)] *)
Definition NewLoggerStreamer (s : loc) : M loc :=
  _ ← deref shells s;
  fresh.

(** [func (s *Shell) executeCommand(cmd *exec.Cmd, w io.Writer,
    flags executeFlags) error].  The relay of signals to the child
    runs beside the call and is not part of the model. *)
Definition executeCommand (s : loc) (cmd : loc) (w : Writer)
    (flags : executeFlags.t) : M (option error) :=
  c ← deref cmds cmd;
  args ← match Cmd.Args c with
         | [] => panic            (* cmd.Args[1:] *)
         | _ :: rest => mret rest
         end;
  let cmdStr := ACommand (Cmd.Path c) args in
  if executeFlags.PTY flags then
    err ← process_StartPTY cmd;
    match err with
    | Some err => mret (Some (fmt_Errorf "Error starting PTY: %v" [AErr err]))
    | None =>
        err ← io_Copy_pty w cmd;
        (if is_PathError_EIO err
         then mret tt     (* "We can safely ignore this error" *)
         else mret tt);;
        executeCommand_wait s cmd cmdStr
    end
  else
    c ← deref cmds cmd;
    modify (with_cmds <[cmd := Cmd.set_Stdout c (Some w)]>);;
    c ← deref cmds cmd;
    modify (with_cmds <[cmd := Cmd.set_Stderr c None]>);;
    c ← deref cmds cmd;
    modify (with_cmds <[cmd := Cmd.set_Stdin c None]>);;
    v ← deref shells s;
    deferred ←
      (if Shell.Debug v then
         stdOutStreamer ← NewLoggerStreamer s;
         stdErrStreamer ← NewLoggerStreamer s;
         c ← deref cmds cmd;
         modify (with_cmds
                   <[cmd := Cmd.set_Stdout c
                              (Some (MultiWriter
                                       (WLoggerStreamer stdOutStreamer) w))]>);;
         c ← deref cmds cmd;
         modify (with_cmds
                   <[cmd := Cmd.set_Stderr c
                              (Some (WLoggerStreamer stdErrStreamer))]>);;
         mret [stdErrStreamer; stdOutStreamer]
       else mret []);
    err ← cmd_Start cmd;
    r ← match err with
        | Some err =>
            mret (errors_Wrapf (Some err) "Error starting `%s`" [cmdStr])
        | None => executeCommand_wait s cmd cmdStr
        end;
    (* the deferred Close() calls, last one first *)
    mapM (fun id => emit (EvStreamerClose id)) deferred;;
    mret r.

(** [func (s *Shell) Run(command string, arg ...string) error] *)
Definition Run (s : loc) (command : string) (arg : list string)
    : M (option error) :=
  Promptf s "%s" [ACommand command arg];;
  '(cmd, err) ← buildCommand s command arg;
  match cmd, err with
  | _, Some err =>
      Errorf s "Error building command: %v" [AErr err];;
      mret (Some err)
  | Some cmd, None =>
      v ← deref shells s;
      executeCommand s cmd (Shell.Writer v)
        (executeFlags.mk true true (Shell.PTY v))
  | None, None => panic
  end.

(** [func (s *Shell) RunAndCapture(command string, arg ...string)
    (string, error)] *)
Definition RunAndCapture (s : loc) (command : string) (arg : list string)
    : M (string * option error) :=
  v ← deref shells s;
  (if Shell.Debug v
   then Promptf s "%s" [ACommand command arg]
   else mret tt);;
  '(cmd, err) ← buildCommand s command arg;
  match cmd, err with
  | _, Some err => mret ("", Some err)
  | Some cmd, None =>
      (* var b bytes.Buffer *)
      b ← fresh;
      modify (with_buffers <[b := ""]>);;
      err ← executeCommand s cmd (WBuffer b)
              (executeFlags.mk true false false);
      match err with
      | Some err => mret ("", Some err)
      | None =>
          str ← deref buffers b;
          mret (strings_TrimSpace str, None)
      end
  | None, None => panic
  end.

End shell.

(** ** Programs over shells *)

(** The ways a caller changes a shell in place: [Chdir] and the
    mutation of the environment it points to.  Package [env] offers
    [Set] and [Remove]; a caller can also point the exported field
    [Env] to another container. *)
Inductive Mutation :=
| MChdir (path : string)
| MEnvSet (key value : string)          (* s.Env.Set(key, value) *)
| MEnvRemove (key : string)             (* s.Env.Remove(key) *)
| MEnvReplace (entries : list string).  (* s.Env = env.FromSlice(entries) *)

(** One call into the package. *)
Inductive Op :=
| OpNew
| OpNewWithContext (ctx : Context)
| OpMutate (s : loc) (m : Mutation)
| OpGetwd (s : loc)
| OpAbsolutePath (s : loc) (executable : string)
| OpLockFile (fuel : nat) (s : loc) (path : string) (timeout : Z)
| OpRun (s : loc) (command : string) (arg : list string)
| OpRunAndCapture (s : loc) (command : string) (arg : list string).

Section programs.
Variable os : OS.

Definition mutate (s : loc) (m : Mutation) : M unit :=
  match m with
  | MChdir path => _ ← Chdir os s path; mret tt
  | MEnvSet key value =>
      v ← deref shells s;
      e ← deref envs (Shell.Env v);
      modify (with_envs <[Shell.Env v := env.Set_ e key value]>)
  | MEnvRemove key =>
      v ← deref shells s;
      e ← deref envs (Shell.Env v);
      modify (with_envs <[Shell.Env v := env.Remove e key]>)
  | MEnvReplace entries =>
      v ← deref shells s;
      e ← fresh;
      modify (with_envs <[e := env.FromSlice entries]>);;
      modify (with_shells <[s := Shell.set_Env v e]>)
  end.

Definition mutate_all (ms : list (loc * Mutation)) : M unit :=
  _ ← mapM (fun sm => mutate (fst sm) (snd sm)) ms; mret tt.

Definition run_op (op : Op) : M unit :=
  match op with
  | OpNew => _ ← New os; mret tt
  | OpNewWithContext ctx => _ ← NewWithContext os ctx; mret tt
  | OpMutate s m => mutate s m
  | OpGetwd s => _ ← Getwd s; mret tt
  | OpAbsolutePath s executable => _ ← AbsolutePath os s executable; mret tt
  | OpLockFile fuel s path timeout =>
      _ ← LockFile os fuel s path timeout; mret tt
  | OpRun s command arg => _ ← Run os s command arg; mret tt
  | OpRunAndCapture s command arg =>
      _ ← RunAndCapture os s command arg; mret tt
  end.

Definition run_ops (ops : list Op) : M unit :=
  _ ← mapM run_op ops; mret tt.
End programs.

(** ** Predicates on the platform *)

(** [os.Stat(p)] succeeds. *)
Definition path_exists (os : OS) (p : string) : bool :=
  match os_Stat os p with
  | (_, None) => true
  | (_, Some _) => false
  end.

(** [os.Stat(p)] succeeds and reports a directory. *)
Definition is_directory (os : OS) (p : string) : bool :=
  match os_Stat os p with
  | (Some info, None) => IsDir info
  | _ => false
  end.

(** ** A small platform to run the model on *)

Module Example.
(** A file system: path, and whether it is a directory. *)
Definition files : list (string * bool) :=
  [ ("/", true); ("/work", true); ("/work/src", true);
    ("/work/notes.txt", false); ("/bin", true); ("/bin/echo", false);
    ("/bin/false", false) ].

Fixpoint find_file (fs : list (string * bool)) (p : string)
    : option FileInfo :=
  match fs with
  | [] => None
  | (q, d) :: rest =>
      if (q =? p)%string then Some {| IsDir := d |} else find_file rest p
  end.

(** [syscall.ENOENT] *)
Definition ENOENT : Z := 2.

Definition stat (p : string) : option FileInfo * option error :=
  match find_file files p with
  | Some info => (Some info, None)
  | None => (None, Some (PathError "stat" p (Errno ENOENT)))
  end.

(** [strings.Split(s, sep)] for a separator of one byte. *)
Fixpoint split_on (sep : ascii) (s : string) : list string :=
  match s with
  | EmptyString => [EmptyString]
  | String c rest =>
      if Ascii.eqb c sep then EmptyString :: split_on sep rest
      else match split_on sep rest with
           | e :: es => String c e :: es
           | [] => [String c EmptyString]
           end
  end.

(** An executable file: it exists and is not a directory. *)
Definition executable_file (p : string) : bool :=
  match find_file files p with
  | Some info => negb (IsDir info)
  | None => false
  end.

(** Modelled from the spec: the agent's [lookPath] is not among the
    sources.  The spec's PathResolver tests, for each directory of
    the search path and each candidate suffix (the empty one first),
    [directory/name+suffix] for existence and executability and
    returns the first match in search-then-suffix order, or fails. *)
Fixpoint first_suffix (base : string) (suffixes : list string)
    : option string :=
  match suffixes with
  | [] => None
  | x :: rest =>
      if executable_file (base ++ x)%string then Some (base ++ x)%string
      else first_suffix base rest
  end.

Fixpoint look_in (dirs : list string) (name : string)
    (suffixes : list string) : string * option error :=
  match dirs with
  | [] => ("", Some (ErrorString "executable file not found in $PATH" []))
  | d :: rest =>
      match first_suffix (d ++ "/" ++ name)%string suffixes with
      | Some found => (found, None)
      | None => look_in rest name suffixes
      end
  end.

Definition look_path (file path fileExtensions : string)
    : string * option error :=
  look_in (split_on ":" path) file
          ("" :: filter (fun x => negb (x =? "")%string)
                        (split_on ";" fileExtensions)).

(** The line feed. *)
Definition lf : string := String "010"%char EmptyString.

Definition quiet : Proc :=
  mkProc None "" None None "" "" None.

(** [/bin/echo] prints its arguments and a line feed; [/bin/false]
    exits with status 1; anything else is silent and succeeds. *)
Definition run_child (c : Cmd.t) (environment : list string) : Proc :=
  if (Cmd.Path c =? "/bin/echo")%string then
    mkProc None (String.concat " " (tl (Cmd.Args c)) ++ lf)%string None
           None (String.concat " " (tl (Cmd.Args c)) ++ lf)%string ""
           None
  else if (Cmd.Path c =? "/bin/false")%string then
    mkProc None "" None None "" ""
           (Some (ExitError (SysWaitStatus (WaitStatus.of_exit 1))))
  else quiet.

(** Another process holds every lock. *)
Definition busy (lock : string) (t : Time) : option error :=
  Some (ErrorString "Locked by other process" []).

Definition platform : OS :=
  mkOS ("/work", None) ["PATH=/bin"; "HOME=/root"] stat look_path
       run_child busy.

(** The same platform with other children. *)
Definition with_children (f : Cmd.t -> list string -> Proc) : OS :=
  mkOS ("/work", None) ["PATH=/bin"; "HOME=/root"] stat look_path f busy.

(** Every child exits with status [code]. *)
Definition exits (code : Z) : OS :=
  with_children
    (fun _ _ =>
       mkProc None "" None None "" ""
              (Some (ExitError (SysWaitStatus (WaitStatus.of_exit code))))).

(** [syscall.ENOSPC] *)
Definition ENOSPC : Z := 28.

(** The child runs and exits with status 0, but the copy from its
    terminal to the output fails half way: the disk is full. *)
Definition full_disk : OS :=
  with_children
    (fun _ _ =>
       mkProc None "hel" (Some (PathError "write" "/dev/stdout" (Errno ENOSPC)))
              None "" "" None).

(** No child can be started. *)
Definition fork_failed : error :=
  PathError "fork/exec" "/bin/echo" (Errno ENOENT).

Definition no_exec : OS :=
  with_children
    (fun _ _ => mkProc (Some fork_failed) "" None (Some fork_failed) "" "" None).

(** The store after [New()]; the shell is at address [sh]. *)
Definition booted : World :=
  match New platform World0 with
  | Done _ w => w
  | _ => World0
  end.

Definition sh : loc := 2%nat.

(** The shell [New()] makes on this platform. *)
Definition shell0 : Shell.t :=
  Shell.mk 1%nat false os_Stdout false "/work" Background.

(** The store after [buildCommand("echo", "hello")] on that shell; the
    descriptor is at address [cmd]. *)
Definition ready : World :=
  match buildCommand platform sh "echo" ["hello"] booted with
  | Done _ w => w
  | _ => booted
  end.

Definition cmd : loc := 3%nat.

(** The descriptor at [cmd] and the environment it points to. *)
Definition echo : Cmd.t :=
  Cmd.mk "/bin/echo" ["/bin/echo"; "hello"] (Some 4%nat) "/work" None None None.

Definition environment : list string := ["PATH=/bin"; "HOME=/root"].
End Example.

(** ** Specifications of computations *)

(** Total correctness: from store [w] the computation returns, and its
    value and final store satisfy [Q]. *)
Definition wp {A} (m : M A) (Q : A -> World -> Prop) (w : World) : Prop :=
  match m w with
  | Done a w' => Q a w'
  | _ => False
  end.

(** The store a write leaves. *)
Fixpoint written (wr : Writer) (p : string) (w : World) : World :=
  match wr with
  | WBuffer l =>
      with_buffers (fun b => <[l := (default "" (b !! l) ++ p)%string]> b) w
  | WLoggerStreamer id => with_trace (fun tr => (tr ++ [EvStream id p])%list) w
  | MultiWriter a b => written b p (written a p w)
  end.

Definition delivered (o : option Writer) (p : string) (w : World) : World :=
  match o with
  | Some wr => written wr p w
  | None => w
  end.

(** What a write does to the byte sinks ... *)
Fixpoint buffer_writes (wr : Writer) (p : string) (b : gmap loc string)
    : gmap loc string :=
  match wr with
  | WBuffer l => <[l := (default "" (b !! l) ++ p)%string]> b
  | WLoggerStreamer _ => b
  | MultiWriter x y => buffer_writes y p (buffer_writes x p b)
  end.

(** ... and what it sends to the logger. *)
Fixpoint stream_events (wr : Writer) (p : string) : list Event :=
  match wr with
  | WBuffer _ => []
  | WLoggerStreamer id => [EvStream id p]
  | MultiWriter x y => (stream_events x p ++ stream_events y p)%list
  end.

Definition buffer_writes' (o : option Writer) (p : string)
    (b : gmap loc string) : gmap loc string :=
  match o with
  | Some wr => buffer_writes wr p b
  | None => b
  end.

Definition stream_events' (o : option Writer) (p : string) : list Event :=
  match o with
  | Some wr => stream_events wr p
  | None => []
  end.

(** Everything but the byte sinks and the trace is the same. *)
Definition same_heap (w w' : World) : Prop :=
  shells w' = shells w /\ envs w' = envs w /\ slices w' = slices w
  /\ cmds w' = cmds w /\ next w' = next w /\ now w' = now w.

(** The environment a descriptor resolves to in a store. *)
Definition env_of (os : OS) (w : World) (c : Cmd.t) : option (list string) :=
  match Cmd.Env c with
  | Some l => slices w !! l
  | None => Some (os_Environ os)
  end.

(** The descriptor [c] with its three streams set. *)
Definition wired (c : Cmd.t) (out err : option Writer) : Cmd.t :=
  Cmd.mk (Cmd.Path c) (Cmd.Args c) (Cmd.Env c) (Cmd.Dir c) None out err.

(** Bytes written to [wr] reach [target]. *)
Fixpoint writes_to (wr target : Writer) : Prop :=
  wr = target
  \/ match wr with
     | MultiWriter a b => writes_to a target \/ writes_to b target
     | _ => False
     end.

(** The events of [executeCommand] from [cmd.Wait()] on. *)
Definition wait_events (debug : bool) (c : Cmd.t) (p : Proc) : list Event :=
  ([EvWait c] ++ stream_events' (Cmd.Stdout c) (stdout_bytes p)
   ++ stream_events' (Cmd.Stderr c) (stderr_bytes p)
   ++ match Wait_err p with
      | Some err =>
          if debug then [EvLog LPrintf "Exited with error: %v" [AErr err]]
          else []
      | None => []
      end)%list.

(** Without a PTY: what the child's streams are wired to, where [n] is
    the next free address and [w] the writer handed in. *)
Definition pipe_stdout (debug : bool) (n : loc) (w : Writer) : option Writer :=
  if debug then Some (MultiWriter (WLoggerStreamer n) w) else Some w.

Definition pipe_stderr (debug : bool) (n : loc) : option Writer :=
  if debug then Some (WLoggerStreamer (S n)) else None.

Definition pipe_closes (debug : bool) (n : loc) : list Event :=
  if debug then [EvStreamerClose (S n); EvStreamerClose n] else [].

Definition pipe_result (p : Proc) (cmdStr : fmtarg) : option error :=
  match Start_err p with
  | Some err => errors_Wrapf (Some err) "Error starting `%s`" [cmdStr]
  | None => errors_Wrapf (Wait_err p) "Error running `%s`" [cmdStr]
  end.

Definition pipe_events (debug : bool) (n : loc) (c : Cmd.t) (p : Proc)
    : list Event :=
  ([EvStart c]
   ++ match Start_err p with
      | Some _ => []
      | None => wait_events debug c p
      end
   ++ pipe_closes debug n)%list.

(** With a PTY. *)
Definition pty_result (p : Proc) (cmdStr : fmtarg) : option error :=
  match StartPTY_err p with
  | Some err => Some (fmt_Errorf "Error starting PTY: %v" [AErr err])
  | None => errors_Wrapf (Wait_err p) "Error running `%s`" [cmdStr]
  end.

Definition pty_events (debug : bool) (w : Writer) (c : Cmd.t) (p : Proc)
    : list Event :=
  ([EvStartPTY c]
   ++ match StartPTY_err p with
      | Some _ => []
      | None => stream_events w (pty_output p) ++ wait_events debug c p
      end)%list.

(** What [AbsolutePath] returns, given the environment of the shell. *)
Definition resolved (os : OS) (e : env.Environment) (executable : string)
    : string * option error :=
  if path_IsAbs executable then (executable, None)
  else
    let '(absolutePath, err) :=
      lookPath os executable (fst (env.Get e "PATH"))
               (fst (env.Get e "PATHEXT")) in
    match err with
    | Some err => ("", Some err)
    | None => filepath_Abs os absolutePath
    end.

(** The descriptor [buildCommand] makes. *)
Definition built (absPath : string) (arg : list string) (sl : loc)
    (dir : string) : Cmd.t :=
  Cmd.mk absPath (absPath :: arg) (Some sl) dir None None None.

(** The path [Chdir] tests and commits. *)
Definition chdir_target (v : Shell.t) (path : string) : string :=
  if filepath_IsAbs path then path else filepath_Join [Shell.wd v; path].

(** ** Reading outcomes *)

Definition returned {A} (o : Outcome A) : option A :=
  match o with
  | Done a _ => Some a
  | _ => None
  end.

Definition final {A} (o : Outcome A) : option World :=
  match o with
  | Done _ w => Some w
  | _ => None
  end.

(** The events a call added to the trace. *)
Definition events_since (w : World) (w' : World) : list Event :=
  drop (length (trace w)) (trace w').

(** [frame R m]: whenever [m] returns, the store it leaves is related
    by [R] to the one it started from. *)
Definition frame (R : World -> World -> Prop) {A} (m : M A) : Prop :=
  forall w a w', m w = Done a w' -> R w w'.

(** The shells are the same. *)
Definition same_shells (w w' : World) : Prop := shells w' = shells w.

(** The descriptors and the slices are the same. *)
Definition same_descriptors (w w' : World) : Prop :=
  cmds w' = cmds w /\ slices w' = slices w.

(** Every shell in the store has a working directory that is absolute
    and exists. *)
Definition wd_valid (os : OS) (w : World) : Prop :=
  forall s v, shells w !! s = Some v ->
    filepath_IsAbs (Shell.wd v) = true /\ path_exists os (Shell.wd v) = true.

(** [os.Getwd], when it succeeds, names an absolute path that exists. *)
Definition Getwd_sound (os : OS) : Prop :=
  forall d, os_Getwd os = (d, None) ->
    filepath_IsAbs d = true /\ path_exists os d = true.

Module AfterBuild.
(** A shell that changes directory and rewrites its environment after a
    descriptor was built. *)
Definition mutations : list (loc * Mutation) :=
  [ (Example.sh, MChdir "src");
    (Example.sh, MEnvSet "PATH" "/nowhere");
    (Example.sh, MEnvRemove "HOME");
    (Example.sh, MEnvReplace ["LANG=C"]) ].

Definition mutated : World :=
  match mutate_all Example.platform mutations Example.ready with
  | Done _ w => w
  | _ => Example.ready
  end.
End AfterBuild.

(** [s] begins with a white-space rune. *)
Definition leading_space (s : string) : bool :=
  match strip_any space_encodings s with
  | Some _ => true
  | None => false
  end.

(** [s] ends with a white-space rune. *)
Definition trailing_space (s : string) : bool :=
  match strip_any (map rev_string space_encodings) (rev_string s) with
  | Some _ => true
  | None => false
  end.

(** The events of [RunAndCapture] before it builds the command. *)
Definition capture_prompt (debug : bool) (command : string)
    (arg : list string) : list Event :=
  if debug then [EvLog LPrompt "%s" [ACommand command arg]] else [].

Module Interactive.
(** The booted store, with the PTY flag of the shell set. *)
Definition shell : Shell.t :=
  Shell.mk 1%nat true os_Stdout false "/work" Background.

Definition world : World :=
  with_shells <[Example.sh := shell]> Example.booted.
End Interactive.

(** The instants of the lock attempts in a run of events. *)
Fixpoint lock_attempts (evs : list Event) : list Time :=
  match evs with
  | [] => []
  | EvTryLock _ t :: rest => t :: lock_attempts rest
  | _ :: rest => lock_attempts rest
  end.

(** The sleeps in a run of events. *)
Fixpoint sleeps (evs : list Event) : list Z :=
  match evs with
  | [] => []
  | EvSleep d :: rest => d :: sleeps rest
  | _ :: rest => sleeps rest
  end.

(** The instant of the [k]-th lock attempt of a call made at [start]. *)
Definition attempt_at (start : Time) (k : nat) : Time :=
  start + Z.of_nat k * lockRetryDuration.

Module Cancelled.
(** The booted store, with a shell whose context is cancelled 1.2 s
    after the start. *)
Definition ctx : Context := WithCancel Background (Some 1200000000).

Definition shell : Shell.t :=
  Shell.mk 1%nat false os_Stdout false "/work" ctx.

Definition world : World :=
  with_shells <[Example.sh := shell]> Example.booted.
End Cancelled.

Module Nowhere.
(** A platform on which the current directory cannot be determined. *)
Definition getwd_failed : error :=
  PathError "getwd" "." (Errno Example.ENOENT).

Definition platform : OS :=
  mkOS ("", Some getwd_failed) ["PATH=/bin"] Example.stat Example.look_path
       Example.run_child Example.busy.
End Nowhere.

(** Shell [s2], its environment container at [n2] and what they hold
    are out of reach of shell [s1]. *)
Definition apart (s1 s2 : loc) (v2 : Shell.t) (n2 : loc)
    (e2 : env.Environment) (w : World) : Prop :=
  shells w !! s2 = Some v2
  /\ envs w !! n2 = Some e2
  /\ (n2 < next w)%nat
  /\ forall v1, shells w !! s1 = Some v1 -> Shell.Env v1 <> n2.

Module TwoShells.
(** Two shells made one after the other; the first one then changes
    directory and rewrites its environment. *)
Definition second : World :=
  match New Example.platform Example.booted with
  | Done _ w => w
  | _ => Example.booted
  end.

Definition changes : list Mutation :=
  [MChdir "src"; MEnvSet "PATH" "/nowhere"; MEnvReplace ["LANG=C"];
   MEnvSet "HOME" "/tmp"].

Definition after : World :=
  match mutate_all Example.platform (map (pair Example.sh) changes) second with
  | Done _ w => w
  | _ => second
  end.
End TwoShells.

(** [os.Getwd], when it succeeds, returns an absolute path. *)
Definition Getwd_absolute (os : OS) : Prop :=
  forall d, os_Getwd os = (d, None) -> filepath_IsAbs d = true.

(** A platform whose children all write to both of their streams and
    exit cleanly. *)
Module Noisy.
Definition child : Proc := mkProc None "" None None "out" "err" None.

Definition platform : OS := Example.with_children (fun _ _ => child).
End Noisy.

(** The shell of [Example] in debug mode. *)
Module Verbose.
Definition shell : Shell.t :=
  Shell.mk 1%nat false os_Stdout true "/work" Background.

Definition world : World :=
  with_shells (<[Example.sh := shell]>) Example.booted.
End Verbose.

(** A platform on which another process holds every lock until 2.5 s
    after the start and nobody holds it afterwards. *)
Module Contended.
Definition released : Time := 2500000000.

Definition held (lock : string) (t : Time) : option error :=
  if t <? released then Some (ErrorString "Locked by other process" [])
  else None.

Definition platform : OS :=
  mkOS ("/work", None) ["PATH=/bin"; "HOME=/root"] Example.stat
       Example.look_path Example.run_child held.
End Contended.

(** ** Scripts *)

(** Modelled from the spec: [Merge] of package [env] is not among the
    sources.  The spec gives it as [merge(other) -> new container
    (other wins on conflict)]: a copy of the receiver in which every
    entry of [other] is set, in the order of [other]. *)
Definition env_Merge (e other : env.Environment) : env.Environment :=
  fold_left (fun acc kv => env.Set_ acc (fst kv) (snd kv)) other e.

(** [func (s *Shell) RunScript(path string, extra *env.Environment)
    error]; [GOOS] is [runtime.GOOS], a constant of the build.  The
    path functions it reaches through [buildCommand] are those of the
    Unix builds, as everywhere in this development. *)
Definition RunScript (os : OS) (GOOS : string) (s : loc) (path : string)
    (extra : loc) : M (option error) :=
  let '(command, args) :=
    if (GOOS =? "windows")%string then (path, [])
    else ("/bin/bash", ["-c"; path]) in
  Promptf s "%s" [ACommand command args];;
  '(cmd, err) ← buildCommand os s command args;
  match cmd, err with
  | _, Some err =>
      Errorf s "Error building command: %v" [AErr err];;
      mret (Some err)
  | Some cmd, None =>
      (* currentEnv := env.FromSlice(cmd.Env) *)
      c ← deref cmds cmd;
      entries ← match Cmd.Env c with
                | Some sl => deref slices sl
                | None => mret []
                end;
      currentEnv ← fresh;
      modify (with_envs <[currentEnv := env.FromSlice entries]>);;
      (* customEnv := currentEnv.Merge(extra) *)
      current ← deref envs currentEnv;
      other ← deref envs extra;
      customEnv ← fresh;
      modify (with_envs <[customEnv := env_Merge current other]>);;
      (* cmd.Env = customEnv.ToSlice() *)
      custom ← deref envs customEnv;
      sl ← fresh;
      modify (with_slices <[sl := env.ToSlice custom]>);;
      c ← deref cmds cmd;
      modify (with_cmds <[cmd := Cmd.set_Env c (Some sl)]>);;
      v ← deref shells s;
      executeCommand os s cmd (Shell.Writer v)
        (executeFlags.mk true true (Shell.PTY v))
  | None, None => panic
  end.

(** The descriptor [RunScript] makes where scripts go through the
    interpreter, [n] being the next free address at the call. *)
Definition script_cmd (path : string) (n : loc) (dir : string) : Cmd.t :=
  Cmd.mk "/bin/bash" ["/bin/bash"; "-c"; path] (Some (4 + n)%nat) dir
         None None None.

(** The environment of the script: that of the shell, as flattened by
    [buildCommand] and read back, with the extra entries set. *)
Definition script_env (ev extra : env.Environment) : env.Environment :=
  env_Merge (env.FromSlice (env.ToSlice ev)) extra.

(** No [=] in a variable name. *)
Fixpoint plain_key (k : string) : bool :=
  match k with
  | EmptyString => true
  | String "=" _ => false
  | String _ rest => plain_key rest
  end.

(** The containers a round trip through [ToSlice] and [FromSlice]
    gives back: no name occurs twice and no name holds [=]. *)
Definition env_wf (e : env.Environment) : Prop :=
  List.NoDup (map fst e) /\ List.Forall (fun kv => plain_key (fst kv) = true) e.

(** The descriptors a run of events starts, with or without a
    terminal. *)
Definition starts (d : Cmd.t) (evs : list Event) : Prop :=
  In (EvStart d) evs \/ In (EvStartPTY d) evs.

(** A store with an extra environment for a script. *)
Module Script.
Definition extra : loc := 3%nat.

Definition overrides : env.Environment := [("HOME", "/tmp"); ("CI", "true")].

Definition world : World :=
  with_next 4%nat (with_envs <[extra := overrides]> Example.booted).

Definition path : string := "/work/my script.sh".
End Script.

(** * Properties *)

(** ** Paths *)

Example Clean_examples :
  map filepath_Clean ["/a/../.."; "a//b/./c/.."; "../../a"; "a/../.."; "/"; "";
                      "/work/./src/"; "a/b/../../../c"]
  = ["/"; "a/b"; "../../a"; ".."; "/"; "."; "/work/src"; "../c"].
Proof. reflexivity. Qed.

Example Join_examples :
  map filepath_Join [["/work"; "src"]; [""; "src"]; ["/work"; "../etc"]; [""; ""];
                     ["/work"; ""]]
  = ["/work/src"; "src"; "/etc"; ""; "/work"].
Proof. reflexivity. Qed.

Lemma filepath_IsAbs_Clean p :
  filepath_IsAbs p = true -> filepath_IsAbs (filepath_Clean p) = true.
Proof.
  intros H. unfold filepath_Clean.
  destruct p as [|c p]; [discriminate|].
  change (String c p =? "")%string with false. cbv iota.
  rewrite H. reflexivity.
Qed.

Lemma filepath_IsAbs_concat d rest :
  filepath_IsAbs d = true ->
  filepath_IsAbs (String.concat "/" (d :: rest)) = true.
Proof.
  intros H. destruct d as [|c d]; [discriminate|].
  destruct rest; simpl; [exact H|].
  simpl in H. destruct c as [[] [] [] [] [] [] [] []]; try discriminate.
  reflexivity.
Qed.

(** Joining onto an absolute directory gives an absolute path. *)
Lemma filepath_IsAbs_Join d p :
  filepath_IsAbs d = true -> filepath_IsAbs (filepath_Join [d; p]) = true.
Proof.
  intros H. unfold filepath_Join.
  destruct d as [|c d]; [discriminate|].
  change (String c d =? "")%string with false. cbv iota.
  apply filepath_IsAbs_Clean, filepath_IsAbs_concat, H.
Qed.

(** ** Reasoning about computations *)

Lemma bind_Done {A B} (m : M A) (k : A -> M B) w b w' :
  (m ≫= k) w = Done b w' ->
  exists a w1, m w = Done a w1 /\ k a w1 = Done b w'.
Proof.
  unfold mbind, M_bind, bind. destruct (m w) as [a w1| |]; try discriminate.
  eauto.
Qed.

Lemma bind_eq {A B} (m : M A) (k : A -> M B) w a w1 :
  m w = Done a w1 -> (m ≫= k) w = k a w1.
Proof. intros H. unfold mbind, M_bind, bind. rewrite H. reflexivity. Qed.

Lemma deref_eq {A} (field : World -> gmap loc A) l w a :
  field w !! l = Some a -> deref field l w = Done a w.
Proof. intros H. unfold deref. rewrite H. reflexivity. Qed.

Lemma deref_Done {A} (field : World -> gmap loc A) l w a w' :
  deref field l w = Done a w' -> field w !! l = Some a /\ w' = w.
Proof.
  unfold deref. destruct (field w !! l); [|discriminate].
  intros [= -> ->]. auto.
Qed.

(** Unfolds the monad down to functions on stores. *)
Ltac unfold_M :=
  unfold mbind, M_bind, bind, mret, M_ret, ret, modify, emit, get, fresh,
    panic in *.

Lemma wp_elim {A} (m : M A) Q w :
  wp m Q w -> exists a w', m w = Done a w' /\ Q a w'.
Proof. unfold wp. destruct (m w); [eauto | tauto | tauto]. Qed.

Lemma wp_intro {A} (m : M A) (Q : A -> World -> Prop) w a w' :
  m w = Done a w' -> Q a w' -> wp m Q w.
Proof. unfold wp. intros ->. auto. Qed.

Lemma wp_mono {A} (m : M A) (Q Q' : A -> World -> Prop) w :
  wp m Q w -> (forall a w', Q a w' -> Q' a w') -> wp m Q' w.
Proof. unfold wp. destruct (m w); auto. Qed.

Lemma wp_ret {A} (a : A) (Q : A -> World -> Prop) w : Q a w -> wp (mret a) Q w.
Proof. auto. Qed.

Lemma wp_bind {A B} (m : M A) (k : A -> M B) Q w :
  wp m (fun a w1 => wp (k a) Q w1) w -> wp (m ≫= k) Q w.
Proof. unfold wp, mbind, M_bind, bind. destruct (m w); auto. Qed.

Lemma wp_deref {A} (field : World -> gmap loc A) l a (Q : A -> World -> Prop) w :
  field w !! l = Some a -> Q a w -> wp (deref field l) Q w.
Proof. unfold wp, deref. intros ->. auto. Qed.

Lemma wp_modify f (Q : unit -> World -> Prop) w : Q tt (f w) -> wp (modify f) Q w.
Proof. auto. Qed.

Lemma wp_emit e (Q : unit -> World -> Prop) w :
  Q tt (with_trace (fun tr => (tr ++ [e])%list) w) -> wp (emit e) Q w.
Proof. auto. Qed.

Lemma wp_get (Q : World -> World -> Prop) w : Q w w -> wp get Q w.
Proof. auto. Qed.

Lemma wp_fresh (Q : loc -> World -> Prop) w :
  Q (next w) (with_next (S (next w)) w) -> wp fresh Q w.
Proof. auto. Qed.

Ltac world_simpl :=
  cbn [shells envs slices cmds buffers next now trace
       with_shells with_envs with_slices with_cmds with_buffers with_next
       with_now with_trace
       Cmd.Path Cmd.Args Cmd.Env Cmd.Dir Cmd.Stdin Cmd.Stdout Cmd.Stderr
       Cmd.set_Env Cmd.set_Dir Cmd.set_Stdin Cmd.set_Stdout Cmd.set_Stderr
       Shell.Env Shell.PTY Shell.Writer Shell.Debug Shell.wd Shell.ctx
       Shell.set_wd Shell.set_Env Shell.set_ctx
       executeFlags.PTY executeFlags.Stdout executeFlags.Stderr] in *.

Ltac solve_lookup :=
  world_simpl; rewrite ?lookup_insert_eq; first [eassumption | reflexivity].

Ltac wp_step :=
  lazymatch goal with
  | |- wp (_ ≫= _) _ _ => apply wp_bind
  | |- wp (mret _) _ _ => apply wp_ret
  | |- wp (deref _ _) _ _ => eapply wp_deref; [solve_lookup|]
  | |- wp (modify _) _ _ => apply wp_modify
  | |- wp (emit _) _ _ => apply wp_emit
  | |- wp get _ _ => apply wp_get
  | |- wp fresh _ _ => apply wp_fresh
  end.

Ltac wp_steps := repeat (wp_step; world_simpl).

(** The state a write leaves. *)

Lemma write_eq wr p w : write wr p w = Done tt (written wr p w).
Proof.
  revert w. induction wr as [l|id|a IHa b IHb]; intros w; try reflexivity.
  cbn [write written]. unfold mbind, M_bind, bind. rewrite IHa. apply IHb.
Qed.

Lemma wp_write wr p (Q : unit -> World -> Prop) w :
  Q tt (written wr p w) -> wp (write wr p) Q w.
Proof. unfold wp. rewrite write_eq. auto. Qed.

Lemma wp_deliver o p (Q : unit -> World -> Prop) w :
  Q tt (delivered o p w) -> wp (deliver o p) Q w.
Proof. destruct o; [apply wp_write | apply wp_ret]. Qed.

Lemma wp_child os cmd c e (Q : Cmd.t * Proc -> World -> Prop) w :
  cmds w !! cmd = Some c -> env_of os w c = Some e ->
  Q (c, spawn os c e) w -> wp (child os cmd) Q w.
Proof.
  intros Hc He HQ. unfold child. wp_steps.
  unfold cmd_environment, env_of in *. destruct (Cmd.Env c).
  - wp_steps. exact HQ.
  - injection He as <-. wp_steps. exact HQ.
Qed.

Lemma written_spec wr p w :
  same_heap w (written wr p w)
  /\ buffers (written wr p w) = buffer_writes wr p (buffers w)
  /\ trace (written wr p w) = (trace w ++ stream_events wr p)%list.
Proof.
  revert w. induction wr as [l|id|a IHa b IHb]; intros w.
  - cbn. rewrite app_nil_r. unfold same_heap. auto 10.
  - cbn. unfold same_heap. auto 10.
  - cbn [written buffer_writes stream_events].
    destruct (IHa w) as ((A1 & A2 & A3 & A4 & A5 & A6) & A7 & A8).
    destruct (IHb (written a p w)) as ((B1 & B2 & B3 & B4 & B5 & B6) & B7 & B8).
    unfold same_heap. rewrite B1, B2, B3, B4, B5, B6, B7, B8, A1, A2, A3, A4, A5, A6, A7, A8.
    rewrite app_assoc. auto 10.
Qed.

Lemma delivered_spec o p w :
  same_heap w (delivered o p w)
  /\ buffers (delivered o p w) = buffer_writes' o p (buffers w)
  /\ trace (delivered o p w) = (trace w ++ stream_events' o p)%list.
Proof.
  destruct o; [apply written_spec|].
  cbn. rewrite app_nil_r. unfold same_heap. auto 10.
Qed.

Lemma wp_executeCommand_wait os s cmd cmdStr c v e (Q : option error -> World -> Prop) w :
  cmds w !! cmd = Some c ->
  shells w !! s = Some v ->
  env_of os w c = Some e ->
  (forall w', 
     shells w' = shells w -> envs w' = envs w -> slices w' = slices w ->
     cmds w' = cmds w -> next w' = next w -> now w' = now w ->
     buffers w' = buffer_writes' (Cmd.Stderr c) (stderr_bytes (spawn os c e))
                    (buffer_writes' (Cmd.Stdout c) (stdout_bytes (spawn os c e)) (buffers w)) ->
     trace w' = (trace w ++ wait_events (Shell.Debug v) c (spawn os c e))%list ->
     Q (errors_Wrapf (Wait_err (spawn os c e)) "Error running `%s`" [cmdStr]) w') ->
  wp (executeCommand_wait os s cmd cmdStr) Q w.
Proof.
  intros Hc Hs He HQ. unfold executeCommand_wait, cmd_Wait.
  wp_steps. eapply wp_child; [solve_lookup | exact He |].
  wp_steps. apply wp_deliver. wp_steps. apply wp_deliver.
  set (p := spawn os c e) in *.
  set (w0 := with_trace _ w).
  destruct (delivered_spec (Cmd.Stdout c) (stdout_bytes p) w0)
    as ((A1 & A2 & A3 & A4 & A5 & A6) & A7 & A8).
  set (w1 := delivered _ _ w0) in *.
  destruct (delivered_spec (Cmd.Stderr c) (stderr_bytes p) w1)
    as ((B1 & B2 & B3 & B4 & B5 & B6) & B7 & B8).
  set (w2 := delivered _ _ w1) in *.
  subst w0. world_simpl.
  wp_steps.
  assert (Htr : trace w2 = (trace w ++ [EvWait c] ++ stream_events' (Cmd.Stdout c) (stdout_bytes p)
   ++ stream_events' (Cmd.Stderr c) (stderr_bytes p))%list).
  { rewrite B8, A8. rewrite <- ?app_assoc. reflexivity. }
  unfold wait_events in HQ.
  destruct (Wait_err p) as [err|] eqn:Hw.
  - wp_steps. eapply wp_deref. { rewrite B1, A1. exact Hs. }
    wp_steps. destruct (Shell.Debug v).
    + unfold Printf, logf. wp_steps. eapply wp_deref. { rewrite B1, A1. exact Hs. }
      wp_steps. apply HQ; world_simpl; try congruence.
      rewrite Htr; rewrite <- ?app_assoc; cbn; rewrite ?app_nil_r; reflexivity.
    + wp_steps. apply HQ; try congruence.
      rewrite Htr; rewrite <- ?app_assoc; cbn; rewrite ?app_nil_r; reflexivity.
  - wp_steps. apply HQ; try congruence.
    rewrite Htr; rewrite <- ?app_assoc; cbn; rewrite ?app_nil_r; reflexivity.
Qed.

Ltac finish :=
  world_simpl; rewrite ?insert_insert_eq; rewrite <- ?app_assoc; cbn [app];
  rewrite ?app_nil_r; try congruence; try reflexivity.

Lemma wp_executeCommand_pipe os s cmd w flags c a0 args v e
    (Q : option error -> World -> Prop) world :
  cmds world !! cmd = Some c ->
  Cmd.Args c = a0 :: args ->
  shells world !! s = Some v ->
  env_of os world c = Some e ->
  executeFlags.PTY flags = false ->
  let n := next world in
  let c' := wired c (pipe_stdout (Shell.Debug v) n w) (pipe_stderr (Shell.Debug v) n) in
  let p := spawn os c' e in
  (forall w',
     shells w' = shells world -> envs w' = envs world ->
     slices w' = slices world -> now w' = now world ->
     cmds w' = <[cmd := c']> (cmds world) ->
     buffers w' = match Start_err p with
                  | Some _ => buffers world
                  | None => buffer_writes w (stdout_bytes p) (buffers world)
                  end ->
     trace w' = (trace world ++ pipe_events (Shell.Debug v) n c' p)%list ->
     Q (pipe_result p (ACommand (Cmd.Path c) args)) w') ->
  wp (executeCommand os s cmd w flags) Q world.
Proof.
  intros Hc Ha Hs He Hf n c' p HQ.
  unfold executeCommand. wp_steps. rewrite Ha. wp_steps. rewrite Hf.
  wp_steps. unfold pipe_result, pipe_events in HQ.
  destruct (Shell.Debug v) eqn:Hd.
  - unfold NewLoggerStreamer. wp_steps.
    unfold Cmd.set_Stdout, Cmd.set_Stderr, Cmd.set_Stdin. world_simpl.
    fold n. change (Cmd.mk (Cmd.Path c) (Cmd.Args c) (Cmd.Env c) (Cmd.Dir c) None
              (Some (MultiWriter (WLoggerStreamer n) w))
              (Some (WLoggerStreamer (S n)))) with c'.
    unfold cmd_Start. wp_steps.
    eapply wp_child; [solve_lookup | exact He |]. fold p.
    wp_steps.
    destruct (Start_err p) as [err|] eqn:Hst.
    + wp_steps. apply HQ; finish.
    + eapply wp_executeCommand_wait.
      { solve_lookup. } { world_simpl. exact Hs. } { exact He. }
      fold p. world_simpl. intros w' H1 H2 H3 H4 H5 H6 H7 H8.
      wp_steps. apply HQ; finish.
      all: try (rewrite ?H4, ?H7, ?H8, ?Hd; finish).
  - wp_steps.
    unfold Cmd.set_Stdout, Cmd.set_Stderr, Cmd.set_Stdin. world_simpl.
    change (Cmd.mk (Cmd.Path c) (Cmd.Args c) (Cmd.Env c) (Cmd.Dir c) None
              (Some w) None) with c'.
    unfold cmd_Start. wp_steps.
    eapply wp_child; [solve_lookup | exact He |]. fold p.
    wp_steps.
    destruct (Start_err p) as [err|] eqn:Hst.
    + wp_steps. apply HQ; finish.
    + eapply wp_executeCommand_wait.
      { solve_lookup. } { world_simpl. exact Hs. } { exact He. }
      fold p. world_simpl. intros w' H1 H2 H3 H4 H5 H6 H7 H8.
      wp_steps. apply HQ; finish.
      all: try (rewrite ?H4, ?H7, ?H8, ?Hd; finish).
Qed.

Lemma wp_executeCommand_pty os s cmd w flags c a0 args v e
    (Q : option error -> World -> Prop) world :
  cmds world !! cmd = Some c ->
  Cmd.Args c = a0 :: args ->
  shells world !! s = Some v ->
  env_of os world c = Some e ->
  executeFlags.PTY flags = true ->
  let p := spawn os c e in
  (forall w',
     shells w' = shells world -> envs w' = envs world ->
     slices w' = slices world -> now w' = now world ->
     cmds w' = cmds world -> next w' = next world ->
     buffers w' = match StartPTY_err p with
                  | Some _ => buffers world
                  | None =>
                      buffer_writes' (Cmd.Stderr c) (stderr_bytes p)
                        (buffer_writes' (Cmd.Stdout c) (stdout_bytes p)
                           (buffer_writes w (pty_output p) (buffers world)))
                  end ->
     trace w' = (trace world ++ pty_events (Shell.Debug v) w c p)%list ->
     Q (pty_result p (ACommand (Cmd.Path c) args)) w') ->
  wp (executeCommand os s cmd w flags) Q world.
Proof.
  intros Hc Ha Hs He Hf p HQ.
  unfold executeCommand. wp_steps. rewrite Ha. wp_steps. rewrite Hf.
  unfold process_StartPTY. wp_steps.
  eapply wp_child; [solve_lookup | exact He |]. fold p.
  wp_steps. unfold pty_result, pty_events in HQ.
  destruct (StartPTY_err p) as [err|] eqn:Hst.
  - wp_steps. apply HQ; finish.
  - wp_steps. unfold io_Copy_pty. wp_steps.
    eapply wp_child; [solve_lookup | exact He |]. fold p.
    wp_steps. apply wp_write.
    destruct (written_spec w (pty_output p)
                (with_trace (fun tr => (tr ++ [EvStartPTY c])%list) world))
      as ((A1 & A2 & A3 & A4 & A5 & A6) & A7 & A8).
    set (w1 := written _ _ _) in *. world_simpl.
    wp_steps.
    assert (Hskip : forall (Q' : unit -> World -> Prop),
              Q' tt w1 ->
              wp (if is_PathError_EIO (Copy_err p) then mret tt else mret tt) Q' w1).
    { intros Q' H. destruct (is_PathError_EIO (Copy_err p)); exact H. }
    apply Hskip.
    eapply wp_executeCommand_wait.
    { rewrite A4. exact Hc. } { rewrite A1. exact Hs. }
    { unfold env_of in *. rewrite A3. exact He. }
    fold p. intros w' H1 H2 H3 H4 H5 H6 H7 H8.
    apply HQ; try congruence.
    all: rewrite ?H7, ?A7, ?H8, ?A8; finish.
Qed.

Lemma events_since_app w w' evs :
  trace w' = (trace w ++ evs)%list -> events_since w w' = evs.
Proof. intros H. unfold events_since. rewrite H. apply drop_app_length. Qed.

Lemma wp_AbsolutePath os s executable v e (Q : string * option error -> World -> Prop) w :
  shells w !! s = Some v -> envs w !! Shell.Env v = Some e ->
  Q (resolved os e executable) w ->
  wp (AbsolutePath os s executable) Q w.
Proof.
  intros Hs He HQ. unfold AbsolutePath, resolved in *.
  destruct (path_IsAbs executable); [exact HQ|].
  wp_steps.
  destruct (env.Get e "PATH") as [envPath ?].
  destruct (env.Get e "PATHEXT") as [fileExtensions ?]. cbn [fst] in HQ.
  destruct (lookPath os executable envPath fileExtensions) as [a [err|]];
    wp_steps; exact HQ.
Qed.

Lemma wp_buildCommand os s name arg v e
    (Q : option loc * option error -> World -> Prop) w :
  shells w !! s = Some v -> envs w !! Shell.Env v = Some e ->
  match resolved os e name with
  | (_, Some err) => Q (None, Some err) w
  | (absPath, None) =>
      forall w',
        shells w' = shells w -> envs w' = envs w -> buffers w' = buffers w ->
        trace w' = trace w -> now w' = now w -> next w' = S (S (next w)) ->
        cmds w' = <[next w := built absPath arg (S (next w)) (Shell.wd v)]> (cmds w) ->
        slices w' = <[S (next w) := env.ToSlice e]> (slices w) ->
        Q (Some (next w), None) w'
  end ->
  wp (buildCommand os s name arg) Q w.
Proof.
  intros Hs He HQ. unfold buildCommand. wp_steps.
  eapply wp_AbsolutePath; [exact Hs | exact He |].
  destruct (resolved os e name) as [absPath [err|]]; wp_steps; [exact HQ|].
  unfold exec_Command. wp_steps.
  apply HQ; finish.
Qed.

(** ** Exit codes *)

Lemma Exited_of_exit code : WaitStatus.Exited (WaitStatus.of_exit code) = true.
Proof.
  unfold WaitStatus.Exited, WaitStatus.of_exit, WaitStatus.mask,
    WaitStatus.exited, WaitStatus.shift.
  apply Z.eqb_eq. apply Z.bits_inj'. intros n Hn.
  rewrite Z.land_spec, Z.bits_0.
  destruct (Z.ltb_spec n 8).
  - rewrite Z.shiftl_spec_low by lia. reflexivity.
  - replace 127 with (Z.ones 7) by reflexivity.
    rewrite Z.ones_spec_high by lia. apply andb_false_r.
Qed.

Lemma ExitStatus_of_exit code :
  0 <= code < 256 -> WaitStatus.ExitStatus (WaitStatus.of_exit code) = code.
Proof.
  intros H. unfold WaitStatus.ExitStatus. rewrite Exited_of_exit. simpl negb.
  cbv iota. unfold WaitStatus.of_exit, WaitStatus.shift.
  rewrite Z.shiftl_mul_pow2, Z.shiftr_div_pow2 by (cbv; discriminate).
  rewrite Z.div_mul by (cbv; discriminate).
  replace 255 with (Z.ones 8) by reflexivity.
  rewrite !Z.land_ones by (cbv; discriminate).
  change (2 ^ 8) with 256.
  rewrite Z.mod_mod by lia. apply Z.mod_small. lia.
Qed.

(** A process killed by a signal has no exit status: -1. *)
Lemma ExitStatus_of_signal sig :
  0 < sig < 127 -> WaitStatus.ExitStatus (WaitStatus.of_signal sig) = -1.
Proof.
  intros H. unfold WaitStatus.ExitStatus, WaitStatus.Exited,
    WaitStatus.of_signal, WaitStatus.mask, WaitStatus.exited.
  rewrite <- Z.land_assoc, Z.land_diag.
  replace 127 with (Z.ones 7) by reflexivity.
  rewrite Z.land_ones by (cbv; discriminate).
  change (2 ^ 7) with 128.
  rewrite Z.mod_small by lia.
  destruct (Z.eqb_spec sig 0); [lia|]. reflexivity.
Qed.

Lemma Cause_Wrapf err format args e :
  errors_Wrapf (Some err) format args = Some e ->
  errors_Cause e = errors_Cause err.
Proof. intros [= <-]. reflexivity. Qed.

Lemma GetExitCode_Wrapf err format args :
  GetExitCode (errors_Wrapf (Some err) format args) = GetExitCode (Some err).
Proof. reflexivity. Qed.

Lemma GetExitCode_exit err w :
  errors_Cause err = ExitError (SysWaitStatus w) ->
  GetExitCode (Some err) = WaitStatus.ExitStatus w.
Proof. intros H. unfold GetExitCode. rewrite H. reflexivity. Qed.

Lemma GetExitCode_other err :
  (forall w, errors_Cause err <> ExitError (SysWaitStatus w)) ->
  GetExitCode (Some err) = 1.
Proof.
  intros H. unfold GetExitCode.
  destruct (errors_Cause err) as [| | |[w|]| | | |] eqn:E; try reflexivity.
  destruct (H w). reflexivity.
Qed.

(** ** [AbsolutePath] *)

(** C8. For every executable name that is already absolute (it begins
    with a slash), [AbsolutePath] returns the name unchanged with a nil
    error and leaves the store as it was, whatever the platform, the
    shell and its environment are: neither PATH nor the extension
    candidates are looked at. *)
Theorem AbsolutePath_of_absolute os s executable w :
  path_IsAbs executable = true ->
  AbsolutePath os s executable w = Done (executable, None) w
  /\ forall os' s', AbsolutePath os' s' executable w
                   = AbsolutePath os s executable w.
Proof.
  intros H. unfold AbsolutePath. rewrite H. split; reflexivity.
Qed.

Lemma AbsolutePath_of_absolute_witness :
  path_IsAbs "/bin/echo" = true
  /\ AbsolutePath Example.platform Example.sh "/bin/echo" World0
     = Done ("/bin/echo", None) World0.
Proof.
  split; [reflexivity|].
  apply (AbsolutePath_of_absolute Example.platform Example.sh "/bin/echo"
           World0).
  reflexivity.
Defined.

(** ** [Chdir] *)

Lemma Chdir_eq os s path w v :
  shells w !! s = Some v ->
  Chdir os s path w =
    let target := chdir_target v path in
    let w1 :=
      with_trace
        (fun tr =>
           (tr ++ [EvLog LComment
                     ("Changing working directory to " ++ dq ++ "%s" ++ dq)
                     [AStr target]])%list) w in
    if path_exists os target
    then Done None (with_shells <[s := Shell.set_wd v target]> w1)
    else Done (Some (fmt_Errorf
                       "Failed to change working: directory does not exist" []))
              w1.
Proof.
  intros Hs. unfold Chdir, Commentf, logf, deref, chdir_target, path_exists.
  unfold_M. rewrite Hs. simpl. rewrite Hs.
  destruct (filepath_IsAbs path); simpl.
  - destruct (os_Stat os path) as [i [e|]]; reflexivity.
  - destruct (os_Stat os _) as [i [e|]]; reflexivity.
Qed.

(** C5. [Chdir] resolves a relative path against the working directory
    with [filepath.Join] and takes an absolute path as it is.  When the
    resolved path does not exist it returns an error and the shell is
    unchanged; when it exists it returns nil and the working directory
    is the resolved path: the prior directory joined with a relative
    path, an absolute path unchanged. *)
Theorem Chdir_spec os s path w v :
  shells w !! s = Some v ->
  let target :=
    if filepath_IsAbs path then path
    else filepath_Join [Shell.wd v; path] in
  if path_exists os target
  then exists w', Chdir os s path w = Done None w'
                  /\ shells w' = <[s := Shell.set_wd v target]> (shells w)
                  /\ Getwd s w' = Done target w'
  else exists err w', Chdir os s path w = Done (Some err) w'
                      /\ shells w' = shells w
                      /\ Getwd s w' = Done (Shell.wd v) w'.
Proof.
  intros Hs target. rewrite (Chdir_eq os s path w v Hs).
  fold (chdir_target v path) in target. subst target. cbv zeta.
  destruct (path_exists os (chdir_target v path)).
  - eexists. split; [reflexivity|]. split; [reflexivity|].
    unfold Getwd. unfold_M. unfold deref. cbn [shells with_shells].
    rewrite lookup_insert_eq. reflexivity.
  - eexists _, _. split; [reflexivity|]. split; [reflexivity|].
    unfold Getwd. unfold_M. unfold deref. cbn [shells with_trace].
    rewrite Hs. reflexivity.
Qed.

Lemma Chdir_spec_witness :
  shells Example.booted !! Example.sh = Some Example.shell0
  /\ (exists w', Chdir Example.platform Example.sh "src" Example.booted
                 = Done None w'
                 /\ shells w' = <[Example.sh := Shell.set_wd Example.shell0 "/work/src"]>
                                  (shells Example.booted)
                 /\ Getwd Example.sh w' = Done "/work/src" w')
  /\ (exists err w', Chdir Example.platform Example.sh "nowhere" Example.booted
                     = Done (Some err) w'
                     /\ shells w' = shells Example.booted
                     /\ Getwd Example.sh w' = Done "/work" w').
Proof.
  assert (H : shells Example.booted !! Example.sh = Some Example.shell0)
    by reflexivity.
  split; [exact H|]. split.
  - exact (Chdir_spec Example.platform Example.sh "src" Example.booted _ H).
  - exact (Chdir_spec Example.platform Example.sh "nowhere" Example.booted _ H).
Defined.

(** ** [executeCommand] *)

(** Without a PTY the call returns; this is its result and what it
    leaves behind. *)
Lemma executeCommand_pipe os s cmd w flags world c a0 args v e :
  cmds world !! cmd = Some c ->
  Cmd.Args c = a0 :: args ->
  shells world !! s = Some v ->
  env_of os world c = Some e ->
  executeFlags.PTY flags = false ->
  let n := next world in
  let c' := wired c (pipe_stdout (Shell.Debug v) n w)
                  (pipe_stderr (Shell.Debug v) n) in
  let p := spawn os c' e in
  exists world',
    executeCommand os s cmd w flags world
    = Done (pipe_result p (ACommand (Cmd.Path c) args)) world'
    /\ shells world' = shells world
    /\ cmds world' = <[cmd := c']> (cmds world)
    /\ buffers world' = match Start_err p with
                        | Some _ => buffers world
                        | None => buffer_writes w (stdout_bytes p) (buffers world)
                        end
    /\ events_since world world' = pipe_events (Shell.Debug v) n c' p.
Proof.
  intros Hc Ha Hs He Hf n c' p.
  destruct (wp_elim (executeCommand os s cmd w flags)
              (fun r world' =>
                 r = pipe_result p (ACommand (Cmd.Path c) args)
                 /\ shells world' = shells world
                 /\ cmds world' = <[cmd := c']> (cmds world)
                 /\ buffers world' = match Start_err p with
                        | Some _ => buffers world
                        | None => buffer_writes w (stdout_bytes p) (buffers world)
                        end
                 /\ events_since world world' = pipe_events (Shell.Debug v) n c' p)
              world) as (r & world' & Hrun & -> & H).
  { eapply wp_executeCommand_pipe; eauto.
    intros w' H1 H2 H3 H4 H5 H6 H7. repeat split; auto.
    apply events_since_app, H7. }
  exists world'. split; [exact Hrun | exact H].
Qed.

(** With a PTY. *)
Lemma executeCommand_pty os s cmd w flags world c a0 args v e :
  cmds world !! cmd = Some c ->
  Cmd.Args c = a0 :: args ->
  shells world !! s = Some v ->
  env_of os world c = Some e ->
  executeFlags.PTY flags = true ->
  let p := spawn os c e in
  exists world',
    executeCommand os s cmd w flags world
    = Done (pty_result p (ACommand (Cmd.Path c) args)) world'
    /\ shells world' = shells world
    /\ cmds world' = cmds world
    /\ events_since world world' = pty_events (Shell.Debug v) w c p.
Proof.
  intros Hc Ha Hs He Hf p.
  destruct (wp_elim (executeCommand os s cmd w flags)
              (fun r world' =>
                 r = pty_result p (ACommand (Cmd.Path c) args)
                 /\ shells world' = shells world
                 /\ cmds world' = cmds world
                 /\ events_since world world' = pty_events (Shell.Debug v) w c p)
              world) as (r & world' & Hrun & -> & H).
  { eapply wp_executeCommand_pty; eauto.
    intros w' H1 H2 H3 H4 H5 H6 H7 H8. repeat split; auto.
    apply events_since_app, H8. }
  exists world'. split; [exact Hrun | exact H].
Qed.

(** ** [GetExitCode] *)

(** C3. [GetExitCode] is 0 for nil.  For an error whose cause is an
    [exec.ExitError] carrying a [syscall.WaitStatus] it is that
    status's [ExitStatus()], also under the wrapping [errors.Wrapf]
    adds; a child that exits with status [code] (3, say) makes
    [executeCommand] return an error whose code is exactly [code]; and
    an error with no such status yields 1. *)
Theorem GetExitCode_spec os s cmd w flags world c a0 args v e
    (err other : error) (status code : Z) :
  cmds world !! cmd = Some c ->
  Cmd.Args c = a0 :: args ->
  shells world !! s = Some v ->
  env_of os world c = Some e ->
  0 < code < 256 ->
  (forall d e', StartPTY_err (spawn os d e') = None
                /\ Start_err (spawn os d e') = None
                /\ Wait_err (spawn os d e')
                   = Some (ExitError (SysWaitStatus (WaitStatus.of_exit code)))) ->
  errors_Cause err = ExitError (SysWaitStatus status) ->
  (forall st, errors_Cause other <> ExitError (SysWaitStatus st)) ->
  GetExitCode None = 0
  /\ GetExitCode (Some err) = WaitStatus.ExitStatus status
  /\ (forall format fargs,
        GetExitCode (errors_Wrapf (Some err) format fargs)
        = WaitStatus.ExitStatus status)
  /\ WaitStatus.ExitStatus (WaitStatus.of_exit code) = code
  /\ (exists r world',
        executeCommand os s cmd w flags world = Done (Some r) world'
        /\ errors_Cause r = ExitError (SysWaitStatus (WaitStatus.of_exit code))
        /\ GetExitCode (Some r) = code)
  /\ GetExitCode (Some other) = 1.
Proof.
  intros Hc Ha Hs He Hcode Hos Herr Hother.
  split; [reflexivity|].
  split; [apply GetExitCode_exit, Herr|].
  split; [intros; rewrite GetExitCode_Wrapf; apply GetExitCode_exit, Herr|].
  split; [apply ExitStatus_of_exit; lia|].
  split; [|apply GetExitCode_other, Hother].
  destruct (executeFlags.PTY flags) eqn:Hf.
  - destruct (executeCommand_pty os s cmd w flags world c a0 args v e)
      as (world' & Hrun & _); auto.
    unfold pty_result in Hrun.
    destruct (Hos c e) as (H1 & _ & H3). rewrite H1, H3 in Hrun.
    eexists _, world'. split; [exact Hrun|]. split; [reflexivity|].
    unfold GetExitCode. cbn [errors_Cause]. apply ExitStatus_of_exit. lia.
  - destruct (executeCommand_pipe os s cmd w flags world c a0 args v e)
      as (world' & Hrun & _); auto.
    unfold pipe_result in Hrun.
    match type of Hrun with context [spawn os ?d e] =>
      destruct (Hos d e) as (_ & H2 & H3) end.
    rewrite H2, H3 in Hrun.
    eexists _, world'. split; [exact Hrun|]. split; [reflexivity|].
    unfold GetExitCode. cbn [errors_Cause]. apply ExitStatus_of_exit. lia.
Qed.

(** C10. A non-nil error whose cause is not an [exec.ExitError] carrying a
    [syscall.WaitStatus] yields 1: an error with any other cause, an
    exit error whose [Sys()] is of another type, and the error
    [executeCommand] returns when the child cannot be started, with or
    without a PTY. *)
Theorem GetExitCode_of_failure os s cmd w flags world c a0 args v e
    (err failed : error) :
  cmds world !! cmd = Some c ->
  Cmd.Args c = a0 :: args ->
  shells world !! s = Some v ->
  env_of os world c = Some e ->
  (forall d e', StartPTY_err (spawn os d e') = Some failed
                /\ Start_err (spawn os d e') = Some failed) ->
  (executeFlags.PTY flags = false ->
   forall st, errors_Cause failed <> ExitError (SysWaitStatus st)) ->
  (forall st, errors_Cause err <> ExitError (SysWaitStatus st)) ->
  GetExitCode (Some err) = 1
  /\ (forall e1, errors_Cause e1 = ExitError SysOther ->
                 GetExitCode (Some e1) = 1)
  /\ (exists r world',
        executeCommand os s cmd w flags world = Done (Some r) world'
        /\ GetExitCode (Some r) = 1).
Proof.
  intros Hc Ha Hs He Hos Hfailed Herr.
  split; [apply GetExitCode_other, Herr|].
  split.
  { intros e1 H1. apply GetExitCode_other. intros st. rewrite H1. discriminate. }
  destruct (executeFlags.PTY flags) eqn:Hf.
  - destruct (executeCommand_pty os s cmd w flags world c a0 args v e)
      as (world' & Hrun & _); auto.
    unfold pty_result in Hrun. destruct (Hos c e) as (H1 & _).
    rewrite H1 in Hrun. eexists _, world'. split; [exact Hrun|]. reflexivity.
  - destruct (executeCommand_pipe os s cmd w flags world c a0 args v e)
      as (world' & Hrun & _); auto.
    unfold pipe_result in Hrun.
    match type of Hrun with context [spawn os ?d e] =>
      destruct (Hos d e) as (_ & H2) end.
    rewrite H2 in Hrun. eexists _, world'. split; [exact Hrun|].
    apply GetExitCode_other. intros st. cbn [errors_Cause]. auto.
Qed.


Lemma GetExitCode_of_failure_witness :
  cmds Example.ready !! Example.cmd = Some Example.echo
  /\ GetExitCode (Some Example.fork_failed) = 1
  /\ exists r world',
       executeCommand Example.no_exec Example.sh Example.cmd os_Stdout
         (executeFlags.mk true true false) Example.ready = Done (Some r) world'
       /\ GetExitCode (Some r) = 1.
Proof.
  assert (Hc : cmds Example.ready !! Example.cmd = Some Example.echo)
    by reflexivity.
  split; [exact Hc|].
  destruct (GetExitCode_of_failure Example.no_exec Example.sh Example.cmd
              os_Stdout (executeFlags.mk true true false) Example.ready
              Example.echo "/bin/echo" ["hello"] Example.shell0
              Example.environment Example.fork_failed Example.fork_failed)
    as (H1 & _ & H3).
  - exact Hc.
  - reflexivity.
  - reflexivity.
  - reflexivity.
  - intros d e'. split; reflexivity.
  - intros _ st. discriminate.
  - intros st. discriminate.
  - split; [exact H1 | exact H3].
Defined.

Lemma GetExitCode_spec_witness :
  cmds Example.ready !! Example.cmd = Some Example.echo
  /\ 0 < 3 < 256
  /\ exists r world',
       executeCommand (Example.exits 3) Example.sh Example.cmd os_Stdout
         (executeFlags.mk true true false) Example.ready = Done (Some r) world'
       /\ errors_Cause r = ExitError (SysWaitStatus 768)
       /\ GetExitCode (Some r) = 3.
Proof.
  assert (Hc : cmds Example.ready !! Example.cmd = Some Example.echo)
    by reflexivity.
  split; [exact Hc|]. split; [lia|].
  destruct (GetExitCode_spec (Example.exits 3) Example.sh Example.cmd
              os_Stdout (executeFlags.mk true true false) Example.ready
              Example.echo "/bin/echo" ["hello"] Example.shell0
              Example.environment
              (ExitError (SysWaitStatus 768)) Example.fork_failed 768 3)
    as (_ & _ & _ & _ & H & _).
  - exact Hc.
  - reflexivity.
  - reflexivity.
  - reflexivity.
  - lia.
  - intros d e'. repeat split; reflexivity.
  - reflexivity.
  - intros st. discriminate.
  - exact H.
Defined.

(** Rewrites the fields of a later store to those of an earlier one. *)
Ltac heap_rewrite :=
  repeat match goal with
         | H : shells ?w = _ |- context [shells ?w] => rewrite H
         | H : envs ?w = _ |- context [envs ?w] => rewrite H
         | H : slices ?w = _ |- context [slices ?w] => rewrite H
         | H : cmds ?w = _ |- context [cmds ?w] => rewrite H
         | H : buffers ?w = _ |- context [buffers ?w] => rewrite H
         | H : next ?w = _ |- context [next ?w] => rewrite H
         | H : now ?w = _ |- context [now ?w] => rewrite H
         | H : trace ?w = _ |- context [trace ?w] => rewrite H
         end.

Ltac lookup_now :=
  world_simpl; heap_rewrite; rewrite ?lookup_insert_eq;
  first [eassumption | reflexivity].

Lemma wp_elim_eq {A} (m : M A) (r : A) (P : World -> Prop) w :
  wp m (fun a w' => a = r /\ P w') w ->
  exists w', m w = Done r w' /\ P w'.
Proof.
  intros H. apply wp_elim in H. destruct H as (a & w' & Hm & -> & HP). eauto.
Qed.

(** In PTY mode the result of [executeCommand] is that of starting the
    terminal and of waiting for the child; what the copy from the
    terminal returned is not part of it. *)
Lemma executeCommand_pty_ignores_copy os s cmd w flags world c a0 args v e :
  cmds world !! cmd = Some c ->
  Cmd.Args c = a0 :: args ->
  shells world !! s = Some v ->
  env_of os world c = Some e ->
  executeFlags.PTY flags = true ->
  StartPTY_err (spawn os c e) = None ->
  Wait_err (spawn os c e) = None ->
  returned (executeCommand os s cmd w flags world) = Some None.
Proof.
  intros Hc Ha Hs He Hf H1 H2.
  destruct (executeCommand_pty os s cmd w flags world c a0 args v e)
    as (world' & Hrun & _); auto.
  rewrite Hrun. unfold pty_result. rewrite H1, H2. reflexivity.
Qed.

(** C1 (the code departs from the claim).  In PTY mode, on a platform
    where the copy from the terminal fails with an [os.PathError] that
    wraps ENOSPC, not EIO, and the child then exits with status 0,
    [executeCommand] tests the error, finds it is not the end-of-stream
    artifact, and still returns nil: the copy error is lost. *)
Theorem executeCommand_pty_copy_error_lost :
  let pty := executeFlags.mk true true true in
  let p := spawn Example.full_disk Example.echo Example.environment in
  Copy_err p = Some (PathError "write" "/dev/stdout" (Errno Example.ENOSPC))
  /\ is_PathError_EIO (Copy_err p) = false
  /\ returned (executeCommand Example.full_disk Example.sh Example.cmd
                 os_Stdout pty Example.ready) = Some None
  /\ GetExitCode None = 0.
Proof.
  intros pty p. split; [reflexivity|]. split; [reflexivity|].
  split; [|reflexivity].
  apply (executeCommand_pty_ignores_copy Example.full_disk Example.sh
           Example.cmd os_Stdout pty Example.ready Example.echo "/bin/echo"
           ["hello"] Example.shell0 Example.environment); reflexivity.
Qed.

(** ** The capture flags *)

(** What [Run] does when the command resolves and the shell has no
    PTY. *)
Lemma Run_pipe os s command arg world v ev absPath :
  shells world !! s = Some v ->
  envs world !! Shell.Env v = Some ev ->
  resolved os ev command = (absPath, None) ->
  Shell.PTY v = false ->
  let n := S (S (next world)) in
  let c' := wired (built absPath arg (S (next world)) (Shell.wd v))
                  (pipe_stdout (Shell.Debug v) n (Shell.Writer v))
                  (pipe_stderr (Shell.Debug v) n) in
  let p := spawn os c' (env.ToSlice ev) in
  exists world',
    Run os s command arg world
    = Done (pipe_result p (ACommand absPath arg)) world'
    /\ events_since world world'
       = EvLog LPrompt "%s" [ACommand command arg]
         :: pipe_events (Shell.Debug v) n c' p.
Proof.
  intros Hs He Hres Hpty n c' p.
  apply wp_elim_eq. unfold Run, Promptf, logf. wp_steps.
  eapply wp_buildCommand; [lookup_now | lookup_now |]. rewrite Hres.
  world_simpl. intros w' H1 H2 H3 H4 H5 H6 H7 H8.
  wp_steps. eapply wp_deref; [lookup_now|]. rewrite Hpty.
  eapply wp_executeCommand_pipe.
  { lookup_now. } { reflexivity. } { lookup_now. }
  { unfold env_of, built. lookup_now. } { reflexivity. }
  rewrite H6. fold n. cbn [built Cmd.Path]. intros w2 _ _ _ _ _ _ Htr.
  split; [reflexivity|].
  apply events_since_app. rewrite Htr, H4. finish.
Qed.

Lemma stream_events_only_streams wr p ev :
  In ev (stream_events wr p) -> exists id, ev = EvStream id p.
Proof.
  induction wr as [l|id|a IHa b IHb]; cbn.
  - tauto.
  - intros [<-|[]]. eauto.
  - intros H. apply in_app_or in H. tauto.
Qed.

Lemma stream_events'_only_streams o p ev :
  In ev (stream_events' o p) -> exists id, ev = EvStream id p.
Proof. destruct o; cbn; [apply stream_events_only_streams | tauto]. Qed.

(** The events from [cmd.Wait()] on start no child. *)
Lemma wait_events_no_start debug c p ev :
  In ev (wait_events debug c p) ->
  (forall d, ev <> EvStart d) /\ (forall d, ev <> EvStartPTY d).
Proof.
  unfold wait_events. intros H.
  repeat (apply in_app_or in H; destruct H as [H|H]).
  - destruct H as [<-|[]]. split; discriminate.
  - apply stream_events'_only_streams in H as [id ->]. split; discriminate.
  - apply stream_events'_only_streams in H as [id ->]. split; discriminate.
  - destruct (Wait_err p); [|destruct H].
    destruct debug; [|destruct H]. destruct H as [<-|[]]. split; discriminate.
Qed.

(** Without a PTY exactly one child is started, with the descriptor as
    wired, and no terminal is allocated. *)
Lemma pipe_events_start debug n c p d :
  In (EvStart d) (pipe_events debug n c p) <-> d = c.
Proof.
  unfold pipe_events. split.
  - intros H. repeat (apply in_app_or in H; destruct H as [H|H]).
    + destruct H as [[= ->]|[]]. reflexivity.
    + destruct (Start_err p); [destruct H|].
      apply wait_events_no_start in H as [H _]. destruct (H d). reflexivity.
    + unfold pipe_closes in H. destruct debug; cbn in H; intuition discriminate.
  - intros ->. apply in_or_app. left. left. reflexivity.
Qed.

Lemma pipe_events_no_pty debug n c p d :
  ~ In (EvStartPTY d) (pipe_events debug n c p).
Proof.
  unfold pipe_events. intros H.
  repeat (apply in_app_or in H; destruct H as [H|H]).
  - destruct H as [[=]|[]].
  - destruct (Start_err p); [destruct H|].
    apply wait_events_no_start in H as [_ H]. destruct (H d). reflexivity.
  - unfold pipe_closes in H. destruct debug; cbn in H; intuition discriminate.
Qed.

Lemma writes_to_refl w : writes_to w w.
Proof. destruct w; left; reflexivity. Qed.

Lemma writes_to_pipe_stdout debug n w :
  exists out, pipe_stdout debug n w = Some out /\ writes_to out w.
Proof.
  unfold pipe_stdout. destruct debug; eexists; (split; [reflexivity|]).
  - right. right. apply writes_to_refl.
  - apply writes_to_refl.
Qed.

(** C9. Without a PTY the [Stdout] and [Stderr] fields of the flags
    change nothing: [executeCommand] behaves the same for all their
    values.  The one child it starts has its standard output wired to
    the writer handed in (through a [MultiWriter] in debug mode) and
    its standard input to nothing; with debug off its standard error
    is wired to nothing too.  So it is for [Run], which passes
    [Stderr: true]. *)
Theorem capture_flags_have_no_effect os s cmd w flags world c a0 args v e
    ev command arg absPath :
  cmds world !! cmd = Some c ->
  Cmd.Args c = a0 :: args ->
  shells world !! s = Some v ->
  env_of os world c = Some e ->
  envs world !! Shell.Env v = Some ev ->
  resolved os ev command = (absPath, None) ->
  executeFlags.PTY flags = false ->
  Shell.PTY v = false ->
  (forall so se,
     executeCommand os s cmd w (executeFlags.mk so se false) world
     = executeCommand os s cmd w flags world)
  /\ (exists r world',
        executeCommand os s cmd w flags world = Done r world'
        /\ (exists d, In (EvStart d) (events_since world world'))
        /\ forall d, In (EvStart d) (events_since world world') ->
             (exists out, Cmd.Stdout d = Some out /\ writes_to out w)
             /\ Cmd.Stdin d = None
             /\ (Shell.Debug v = false ->
                 Cmd.Stdout d = Some w /\ Cmd.Stderr d = None))
  /\ (exists r world',
        Run os s command arg world = Done r world'
        /\ (exists d, In (EvStart d) (events_since world world'))
        /\ forall d, In (EvStart d) (events_since world world') ->
             (exists out, Cmd.Stdout d = Some out
                          /\ writes_to out (Shell.Writer v))
             /\ Cmd.Stdin d = None
             /\ (Shell.Debug v = false ->
                 Cmd.Stdout d = Some (Shell.Writer v) /\ Cmd.Stderr d = None)).
Proof.
  intros Hc Ha Hs He Hev Hres Hf Hpty. split; [|split].
  - intros so se. unfold executeCommand. rewrite Hf. reflexivity.
  - destruct (executeCommand_pipe os s cmd w flags world c a0 args v e)
      as (world' & Hrun & _ & _ & _ & Hev'); auto.
    eexists _, world'. split; [exact Hrun|]. rewrite Hev'. split.
    + eexists. apply pipe_events_start. reflexivity.
    + intros d Hd. apply pipe_events_start in Hd. subst d. cbn.
      split; [|split; [reflexivity|]].
      * apply writes_to_pipe_stdout.
      * intros ->. split; reflexivity.
  - destruct (Run_pipe os s command arg world v ev absPath)
      as (world' & Hrun & Hev'); auto.
    eexists _, world'. split; [exact Hrun|]. rewrite Hev'. split.
    + eexists. right. apply pipe_events_start. reflexivity.
    + intros d [Hd|Hd]; [discriminate|].
      apply pipe_events_start in Hd. subst d. cbn.
      split; [|split; [reflexivity|]].
      * apply writes_to_pipe_stdout.
      * intros ->. split; reflexivity.
Qed.

Lemma capture_flags_have_no_effect_witness :
  cmds Example.ready !! Example.cmd = Some Example.echo
  /\ resolved Example.platform (env.FromSlice (os_Environ Example.platform))
              "false" = ("/bin/false", None)
  /\ executeCommand Example.platform Example.sh Example.cmd os_Stdout
       (executeFlags.mk false false false) Example.ready
     = executeCommand Example.platform Example.sh Example.cmd os_Stdout
         (executeFlags.mk true true false) Example.ready
  /\ exists r world',
       Run Example.platform Example.sh "false" [] Example.ready = Done r world'
       /\ forall d, In (EvStart d) (events_since Example.ready world') ->
                    Cmd.Stdout d = Some os_Stdout /\ Cmd.Stderr d = None.
Proof.
  assert (Hc : cmds Example.ready !! Example.cmd = Some Example.echo)
    by reflexivity.
  assert (Hr : resolved Example.platform
                 (env.FromSlice (os_Environ Example.platform)) "false"
               = ("/bin/false", None)) by reflexivity.
  split; [exact Hc|]. split; [exact Hr|].
  destruct (capture_flags_have_no_effect Example.platform Example.sh
              Example.cmd os_Stdout (executeFlags.mk true true false)
              Example.ready Example.echo "/bin/echo" ["hello"] Example.shell0
              Example.environment (env.FromSlice (os_Environ Example.platform))
              "false" [] "/bin/false")
    as (H1 & _ & r & world' & Hrun & _ & H3).
  - exact Hc.
  - reflexivity.
  - reflexivity.
  - reflexivity.
  - reflexivity.
  - exact Hr.
  - reflexivity.
  - reflexivity.
  - split; [apply H1|]. exists r, world'. split; [exact Hrun|].
    intros d Hd. destruct (H3 d Hd) as (_ & _ & H). apply H. reflexivity.
Defined.

(** ** Frames *)

Section frames.
Variable R : World -> World -> Prop.
Hypothesis R_refl : forall w, R w w.
Hypothesis R_trans : forall w1 w2 w3, R w1 w2 -> R w2 w3 -> R w1 w3.

Lemma frame_ret {A} (a : A) : frame R (mret a).
Proof. intros w a' w' H0. inversion H0. apply R_refl. Qed.

Lemma frame_bind {A B} (m : M A) (k : A -> M B) :
  frame R m -> (forall a, frame R (k a)) -> frame R (m ≫= k).
Proof.
  intros Hm Hk w b w' H. apply bind_Done in H as (a & w1 & H1 & H2).
  eapply R_trans; [eapply Hm | eapply Hk]; eassumption.
Qed.

Lemma frame_deref {A} (field : World -> gmap loc A) l : frame R (deref field l).
Proof. intros w a w' H. apply deref_Done in H as [_ ->]. apply R_refl. Qed.

Lemma frame_get : frame R get.
Proof. intros w a w' H0. inversion H0. apply R_refl. Qed.

Lemma frame_panic {A} : frame R (@panic A).
Proof. intros w a w' [=]. Qed.

Lemma frame_modify f : (forall w, R w (f w)) -> frame R (modify f).
Proof. intros H w a w' H0. inversion H0. apply H. Qed.

Lemma frame_fresh : (forall w n, R w (with_next n w)) -> frame R fresh.
Proof. intros H w a w' H0. inversion H0. apply H. Qed.

Lemma frame_mapM {A B} (f : A -> M B) (l : list A) :
  (forall a, frame R (f a)) -> frame R (mapM f l).
Proof.
  intros Hf. induction l as [|a l IH]; cbn [mapM].
  - apply frame_ret.
  - apply frame_bind; [apply Hf|]. intros b.
    apply frame_bind; [apply IH|]. intros bs. apply frame_ret.
Qed.
End frames.

Lemma same_shells_refl w : same_shells w w.
Proof. reflexivity. Qed.

Lemma same_shells_trans w1 w2 w3 :
  same_shells w1 w2 -> same_shells w2 w3 -> same_shells w1 w3.
Proof. unfold same_shells. congruence. Qed.

Lemma same_descriptors_refl w : same_descriptors w w.
Proof. split; reflexivity. Qed.

Lemma same_descriptors_trans w1 w2 w3 :
  same_descriptors w1 w2 -> same_descriptors w2 w3 -> same_descriptors w1 w3.
Proof. unfold same_descriptors. intros [] []. split; congruence. Qed.

Create HintDb frames.

#[local] Hint Resolve same_shells_refl same_shells_trans
  same_descriptors_refl same_descriptors_trans : frames.

Ltac frame_side := intros; hnf; world_simpl; repeat split; auto.

(** Decomposes a frame goal along the structure of the computation. *)
Ltac frame_step :=
  lazymatch goal with
  | |- frame _ (_ ≫= _) => eapply frame_bind; [eauto with frames .. | | intros]
  | |- frame _ (mret _) => eapply frame_ret; eauto with frames
  | |- frame _ (deref _ _) => eapply frame_deref; eauto with frames
  | |- frame _ get => eapply frame_get; eauto with frames
  | |- frame _ panic => eapply frame_panic
  | |- frame _ fresh => eapply frame_fresh; frame_side
  | |- frame _ (modify _) => eapply frame_modify; frame_side
  | |- frame _ (emit _) => eapply frame_modify; frame_side
  | |- frame _ (mapM _ _) => eapply frame_mapM; [eauto with frames .. | intros]
  | |- frame _ (match ?x with _ => _ end) => destruct x
  | |- frame _ (let '(_, _) := ?x in _) => destruct x
  | |- frame _ _ => solve [eauto with frames]
  end.

Ltac frame_auto := repeat frame_step.

Section shells_kept.
Variable os : OS.

Lemma logf_keeps level s format args :
  frame same_shells (logf level s format args).
Proof. unfold logf. frame_auto. Qed.
#[local] Hint Resolve logf_keeps : frames.

Lemma write_keeps wr p : frame same_shells (write wr p).
Proof. induction wr; cbn [write]; frame_auto. Qed.
#[local] Hint Resolve write_keeps : frames.

Lemma deliver_keeps o p : frame same_shells (deliver o p).
Proof. unfold deliver. frame_auto. Qed.
#[local] Hint Resolve deliver_keeps : frames.

Lemma child_keeps cmd : frame same_shells (child os cmd).
Proof. unfold child, cmd_environment. frame_auto. Qed.
#[local] Hint Resolve child_keeps : frames.

Lemma executeCommand_wait_keeps s cmd cmdStr :
  frame same_shells (executeCommand_wait os s cmd cmdStr).
Proof.
  unfold executeCommand_wait, cmd_Wait, Printf. frame_auto.
Qed.
#[local] Hint Resolve executeCommand_wait_keeps : frames.

Lemma executeCommand_keeps s cmd w flags :
  frame same_shells (executeCommand os s cmd w flags).
Proof.
  unfold executeCommand, process_StartPTY, io_Copy_pty, cmd_Start,
    NewLoggerStreamer.
  frame_auto.
Qed.
#[local] Hint Resolve executeCommand_keeps : frames.

Lemma AbsolutePath_keeps s executable :
  frame same_shells (AbsolutePath os s executable).
Proof. unfold AbsolutePath. frame_auto. Qed.
#[local] Hint Resolve AbsolutePath_keeps : frames.

Lemma buildCommand_keeps s name arg :
  frame same_shells (buildCommand os s name arg).
Proof. unfold buildCommand, exec_Command. frame_auto. Qed.
#[local] Hint Resolve buildCommand_keeps : frames.

Lemma Run_keeps s command arg : frame same_shells (Run os s command arg).
Proof. unfold Run, Promptf, Errorf. frame_auto. Qed.

Lemma RunAndCapture_keeps s command arg :
  frame same_shells (RunAndCapture os s command arg).
Proof. unfold RunAndCapture, Promptf. frame_auto. Qed.

Lemma LockFile_loop_keeps fuel s ctx lock absolutePathToLock err :
  frame same_shells (LockFile_loop os fuel s ctx lock absolutePathToLock err).
Proof.
  induction fuel as [|fuel IH]; cbn [LockFile_loop].
  - intros w a w' [=].
  - unfold lock_TryLock, Commentf, time_Sleep. frame_auto.
Qed.
#[local] Hint Resolve LockFile_loop_keeps : frames.

Lemma LockFile_keeps fuel s path timeout :
  frame same_shells (LockFile os fuel s path timeout).
Proof. unfold LockFile. frame_auto. Qed.

Lemma Getwd_keeps s : frame same_shells (Getwd s).
Proof. unfold Getwd. frame_auto. Qed.
End shells_kept.

(** ** The working directory *)

Section wd.
Variable os : OS.
Hypothesis Hgetwd : Getwd_sound os.

Lemma wd_valid_frame {A} (m : M A) w a w' :
  frame same_shells m -> wd_valid os w -> m w = Done a w' -> wd_valid os w'.
Proof.
  intros Hm Hw Hrun s v Hs. apply Hm in Hrun. rewrite Hrun in Hs. eauto.
Qed.

Lemma wd_valid_insert w f s v :
  wd_valid os w ->
  filepath_IsAbs (Shell.wd v) = true -> path_exists os (Shell.wd v) = true ->
  shells (f w) = <[s := v]> (shells w) ->
  wd_valid os (f w).
Proof.
  intros Hw H1 H2 Hf s' v' Hs'. rewrite Hf in Hs'.
  destruct (decide (s = s')) as [->|Hne].
  - rewrite lookup_insert_eq in Hs'. injection Hs' as <-. auto.
  - rewrite lookup_insert_ne in Hs' by exact Hne. eauto.
Qed.

Lemma chdir_target_abs v path :
  filepath_IsAbs (Shell.wd v) = true ->
  filepath_IsAbs (chdir_target v path) = true.
Proof.
  intros H. unfold chdir_target.
  destruct (filepath_IsAbs path) eqn:E; [exact E|].
  apply filepath_IsAbs_Join, H.
Qed.

Lemma Chdir_valid s path w a w' :
  wd_valid os w -> Chdir os s path w = Done a w' -> wd_valid os w'.
Proof.
  intros Hw Hrun.
  destruct (shells w !! s) as [v|] eqn:Hs.
  - rewrite (Chdir_eq os s path w v Hs) in Hrun. cbv zeta in Hrun.
    destruct (Hw s v Hs) as [Habs _].
    destruct (path_exists os (chdir_target v path)) eqn:He;
      inversion Hrun; subst.
    + eapply wd_valid_insert with (s := s) (v := Shell.set_wd v (chdir_target v path));
        [| | |reflexivity].
      * intros s' v' Hs'. apply (Hw s' v' Hs').
      * apply chdir_target_abs, Habs.
      * exact He.
    + intros s' v' Hs'. apply (Hw s' v' Hs').
  - unfold Chdir, deref in Hrun. unfold_M. rewrite Hs in Hrun. discriminate.
Qed.

Lemma New_valid w a w' :
  wd_valid os w -> New os w = Done a w' -> wd_valid os w'.
Proof.
  intros Hw Hrun. unfold New in Hrun.
  destruct (os_Getwd os) as [d [err|]] eqn:Hd.
  - inversion Hrun; subst. exact Hw.
  - destruct (Hgetwd d Hd) as [H1 H2]. unfold_M. inversion Hrun; subst.
    intros s v. world_simpl. intros Hs.
    destruct (decide (S (next w) = s)) as [<-|Hne].
    + rewrite lookup_insert_eq in Hs. injection Hs as <-. auto.
    + rewrite lookup_insert_ne in Hs by exact Hne. eauto.
Qed.

Lemma NewWithContext_valid ctx w a w' :
  wd_valid os w -> NewWithContext os ctx w = Done a w' -> wd_valid os w'.
Proof.
  intros Hw Hrun. unfold NewWithContext in Hrun.
  apply bind_Done in Hrun as ([sh err] & w1 & H1 & H2).
  apply New_valid in H1; [|exact Hw].
  destruct sh as [s|], err as [err|];
    try (inversion H2; subst; exact H1); try discriminate.
  apply bind_Done in H2 as (v & w2 & H2 & H3).
  apply deref_Done in H2 as [Hs ->]. unfold_M. inversion H3; subst.
  intros s' v'. world_simpl. intros Hs'.
  destruct (decide (s = s')) as [<-|Hne].
  - rewrite lookup_insert_eq in Hs'. injection Hs' as <-. apply (H1 s v Hs).
  - rewrite lookup_insert_ne in Hs' by exact Hne. eauto.
Qed.

Lemma mutate_valid s m w a w' :
  wd_valid os w -> mutate os s m w = Done a w' -> wd_valid os w'.
Proof.
  intros Hw Hrun. destruct m as [path|key value|key|entries]; cbn [mutate] in Hrun.
  - apply bind_Done in Hrun as (r & w1 & H1 & H2).
    inversion H2; subst. eapply Chdir_valid; eassumption.
  - eapply wd_valid_frame; [|exact Hw|exact Hrun]. frame_auto.
  - eapply wd_valid_frame; [|exact Hw|exact Hrun]. frame_auto.
  - apply bind_Done in Hrun as (v & w1 & H1 & H2).
    apply deref_Done in H1 as [Hs ->]. unfold_M. inversion H2; subst.
    intros s' v'. world_simpl. intros Hs'.
    destruct (decide (s = s')) as [<-|Hne].
    + rewrite lookup_insert_eq in Hs'. injection Hs' as <-. apply (Hw s v Hs).
    + rewrite lookup_insert_ne in Hs' by exact Hne. eauto.
Qed.

Lemma run_op_valid op w a w' :
  wd_valid os w -> run_op os op w = Done a w' -> wd_valid os w'.
Proof.
  intros Hw Hrun. destruct op; cbn [run_op] in Hrun;
    try (apply bind_Done in Hrun as (r & w1 & H1 & H2); inversion H2; subst).
  - eapply New_valid; eassumption.
  - eapply NewWithContext_valid; eassumption.
  - eapply mutate_valid; eassumption.
  - eapply wd_valid_frame; [apply Getwd_keeps|exact Hw|exact H1].
  - eapply wd_valid_frame; [apply AbsolutePath_keeps|exact Hw|exact H1].
  - eapply wd_valid_frame; [apply LockFile_keeps|exact Hw|exact H1].
  - eapply wd_valid_frame; [apply Run_keeps|exact Hw|exact H1].
  - eapply wd_valid_frame; [apply RunAndCapture_keeps|exact Hw|exact H1].
Qed.

Lemma run_ops_valid ops w a w' :
  wd_valid os w -> run_ops os ops w = Done a w' -> wd_valid os w'.
Proof.
  unfold run_ops. intros Hw Hrun.
  apply bind_Done in Hrun as (r & w1 & H1 & H2). inversion H2; subst. clear H2.
  revert w r Hw H1. induction ops as [|op ops IH]; intros w r Hw H1.
  - inversion H1; subst. exact Hw.
  - cbn [mapM] in H1.
    apply bind_Done in H1 as (x & w2 & H2 & H3).
    apply bind_Done in H3 as (xs & w3 & H3 & H4). inversion H4; subst.
    eapply IH; [|exact H3]. eapply run_op_valid; eassumption.
Qed.
End wd.

Lemma New_spec os w d :
  os_Getwd os = (d, None) ->
  exists w',
    New os w = Done (Some (S (next w)), None) w'
    /\ shells w' !! S (next w)
       = Some (Shell.mk (next w) false os_Stdout false d Background)
    /\ envs w' !! next w = Some (env.FromSlice (os_Environ os)).
Proof.
  intros Hd. unfold New. rewrite Hd. unfold_M. eexists.
  split; [reflexivity|]. world_simpl. rewrite !lookup_insert_eq. auto.
Qed.

(** What the code does keep.  Over every sequence of calls into the
    package from a fresh store, the working directory of every shell
    made on the way is an absolute path that exists ([os.Stat]
    succeeds on it): [New] takes it from [os.Getwd], and [Chdir]
    changes it only to the resolved path, and only when that path
    exists. *)
Theorem working_directory_exists os ops w s v :
  Getwd_sound os ->
  run_ops os ops World0 = Done tt w ->
  shells w !! s = Some v ->
  (filepath_IsAbs (Shell.wd v) = true /\ path_exists os (Shell.wd v) = true)
  /\ (forall w0 d, os_Getwd os = (d, None) ->
        exists s0 w1 v0, New os w0 = Done (Some s0, None) w1
                         /\ shells w1 !! s0 = Some v0 /\ Shell.wd v0 = d)
  /\ (forall w0 s0 v0 path r w1 v1,
        shells w0 !! s0 = Some v0 ->
        Chdir os s0 path w0 = Done r w1 ->
        shells w1 !! s0 = Some v1 ->
        Shell.wd v1 <> Shell.wd v0 ->
        r = None /\ Shell.wd v1 = chdir_target v0 path
        /\ path_exists os (Shell.wd v1) = true).
Proof.
  intros Hgetwd Hrun Hs. split; [|split].
  - eapply (run_ops_valid os Hgetwd ops World0 tt w); [|exact Hrun|exact Hs].
    intros s' v' H'. change (shells World0) with (∅ : gmap loc Shell.t) in H'.
    rewrite lookup_empty in H'. discriminate.
  - intros w0 d Hd. destruct (New_spec os w0 d Hd) as (w1 & H1 & H2 & _).
    eexists _, w1, _. split; [exact H1|]. split; [exact H2|]. reflexivity.
  - intros w0 s0 v0 path r w1 v1 Hs0 Hch Hs1 Hne.
    rewrite (Chdir_eq os s0 path w0 v0 Hs0) in Hch. cbv zeta in Hch.
    destruct (path_exists os (chdir_target v0 path)) eqn:He;
      inversion Hch; subst; world_simpl.
    + cbn [shells with_shells] in Hs1. rewrite lookup_insert_eq in Hs1.
      injection Hs1 as <-. cbn [Shell.wd Shell.set_wd]. auto.
    + cbn [shells with_trace] in Hs1. rewrite Hs0 in Hs1.
      injection Hs1 as <-. destruct Hne. reflexivity.
Qed.

Lemma working_directory_exists_witness :
  let ops := [OpNew; OpMutate Example.sh (MChdir "src");
              OpRun Example.sh "false" []] in
  exists w,
    Getwd_sound Example.platform
    /\ run_ops Example.platform ops World0 = Done tt w
    /\ shells w !! Example.sh = Some (Shell.set_wd Example.shell0 "/work/src")
    /\ path_exists Example.platform "/work/src" = true.
Proof.
  intros ops.
  assert (Hg : Getwd_sound Example.platform).
  { intros d [= <-]. split; reflexivity. }
  destruct (run_ops Example.platform ops World0) as [[] w| |] eqn:Hrun;
    try (vm_compute in Hrun; discriminate).
  exists w. split; [exact Hg|]. split; [reflexivity|].
  assert (Hs : shells w !! Example.sh
               = Some (Shell.set_wd Example.shell0 "/work/src")).
  { vm_compute in Hrun. injection Hrun as <-. reflexivity. }
  split; [exact Hs|].
  exact (proj2 (proj1 (working_directory_exists Example.platform ops w
                         Example.sh _ Hg Hrun Hs))).
Defined.

(** With "is a directory" for "exists" the invariant fails: [Chdir] to
    an existing regular file succeeds. *)
Lemma working_directory_not_a_directory :
  ~ (forall os ops w s v,
       (forall d, os_Getwd os = (d, None) ->
                  filepath_IsAbs d = true /\ is_directory os d = true) ->
       run_ops os ops World0 = Done tt w ->
       shells w !! s = Some v ->
       filepath_IsAbs (Shell.wd v) = true
       /\ is_directory os (Shell.wd v) = true).
Proof.
  intros H.
  pose (ops := [OpNew; OpMutate Example.sh (MChdir "notes.txt")]).
  destruct (run_ops Example.platform ops World0) as [[] w| |] eqn:Hrun;
    try (vm_compute in Hrun; discriminate).
  assert (Hs : shells w !! Example.sh
               = Some (Shell.set_wd Example.shell0 "/work/notes.txt")).
  { vm_compute in Hrun. injection Hrun as <-. reflexivity. }
  assert (Hg : forall d, os_Getwd Example.platform = (d, None) ->
                 filepath_IsAbs d = true
                 /\ is_directory Example.platform d = true).
  { intros d [= <-]. split; reflexivity. }
  destruct (H Example.platform ops w Example.sh _ Hg Hrun Hs) as [_ Hd].
  discriminate Hd.
Qed.

(** ** Descriptors are snapshots *)

#[local] Hint Resolve same_descriptors_refl same_descriptors_trans : frames.

(** The mutations of a shell write shells and environments only. *)
Lemma mutate_keeps_descriptors os s m :
  frame same_descriptors (mutate os s m).
Proof.
  destruct m; cbn [mutate]; unfold Chdir, Commentf, logf; frame_auto.
Qed.

Lemma mutate_all_keeps_descriptors os ms :
  frame same_descriptors (mutate_all os ms).
Proof.
  unfold mutate_all. frame_auto. apply mutate_keeps_descriptors.
Qed.

Lemma buildCommand_builds os s name arg world v ev absPath :
  shells world !! s = Some v ->
  envs world !! Shell.Env v = Some ev ->
  resolved os ev name = (absPath, None) ->
  exists w1,
    buildCommand os s name arg world = Done (Some (next world), None) w1
    /\ cmds w1 !! next world
       = Some (built absPath arg (S (next world)) (Shell.wd v))
    /\ slices w1 !! S (next world) = Some (env.ToSlice ev).
Proof.
  intros Hs He Hres. apply wp_elim_eq.
  eapply wp_buildCommand; [exact Hs | exact He |]. rewrite Hres.
  intros w' _ _ _ _ _ _ Hc Hsl. split; [reflexivity|].
  rewrite Hc, Hsl, !lookup_insert_eq. auto.
Qed.

(** C2 (the code departs from the claim).  [Chdir] validates the
    resolved path with [os.Stat] alone and never asks whether it names
    a directory, although the error it returns says "directory does
    not exist" and the path becomes [cmd.Dir] of every command built
    afterwards.  On the shell [New] makes in [/work], where
    [/work/notes.txt] is a regular file, [Chdir("notes.txt")] returns
    nil and commits the file as working directory: [Getwd] returns it
    and the next command is built to run in it. *)
Theorem Chdir_accepts_regular_file :
  let target := "/work/notes.txt" in
  New Example.platform World0 = Done (Some Example.sh, None) Example.booted
  /\ path_exists Example.platform target = true
  /\ is_directory Example.platform target = false
  /\ exists w w',
       Chdir Example.platform Example.sh "notes.txt" Example.booted
       = Done None w
       /\ Getwd Example.sh w = Done target w
       /\ buildCommand Example.platform Example.sh "echo" ["hello"] w
          = Done (Some (next w), None) w'
       /\ (Cmd.Dir <$> cmds w' !! next w) = Some target.
Proof.
  intros target. split; [reflexivity|]. split; [reflexivity|].
  split; [reflexivity|].
  destruct (Chdir Example.platform Example.sh "notes.txt" Example.booted)
    as [r w| |] eqn:Hch; try (vm_compute in Hch; discriminate Hch).
  assert (Hr : r = None)
    by (vm_compute in Hch; injection Hch as <- _; reflexivity).
  subst r.
  assert (Hs : shells w !! Example.sh
               = Some (Shell.set_wd Example.shell0 target))
    by (vm_compute in Hch; injection Hch as <-; reflexivity).
  assert (He : envs w !! Shell.Env (Shell.set_wd Example.shell0 target)
               = Some (env.FromSlice (os_Environ Example.platform)))
    by (vm_compute in Hch; injection Hch as <-; reflexivity).
  destruct (buildCommand_builds Example.platform Example.sh "echo" ["hello"]
              w _ _ "/bin/echo" Hs He eq_refl) as (w' & Hb & Hc & _).
  exists w, w'. split; [reflexivity|]. split.
  - unfold Getwd. rewrite (bind_eq _ _ _ _ _ (deref_eq shells _ _ _ Hs)).
    reflexivity.
  - split; [exact Hb|]. rewrite Hc. reflexivity.
Qed.

(** C7. The descriptor [buildCommand] returns has the working directory
    of the shell as [Dir] and a slice holding the flattened environment
    of the shell as [Env], both as they are when it is built.  Whatever
    sequence of [Chdir] calls and environment mutations is then applied
    to shells in the store, the descriptor and the slice it points to
    are what they were. *)
Theorem buildCommand_snapshot os s name arg world v ev absPath ms :
  shells world !! s = Some v ->
  envs world !! Shell.Env v = Some ev ->
  resolved os ev name = (absPath, None) ->
  exists cmd w1 c sl,
    buildCommand os s name arg world = Done (Some cmd, None) w1
    /\ cmds w1 !! cmd = Some c
    /\ Cmd.Dir c = Shell.wd v
    /\ Cmd.Env c = Some sl
    /\ slices w1 !! sl = Some (env.ToSlice ev)
    /\ forall w2, mutate_all os ms w1 = Done tt w2 ->
         cmds w2 !! cmd = Some c
         /\ slices w2 !! sl = Some (env.ToSlice ev).
Proof.
  intros Hs He Hres.
  destruct (buildCommand_builds os s name arg world v ev absPath Hs He Hres)
    as (w1 & Hrun & Hc & Hsl).
  eexists _, w1, _, _. split; [exact Hrun|]. split; [exact Hc|].
  split; [reflexivity|]. split; [reflexivity|]. split; [exact Hsl|].
  intros w2 Hm. apply mutate_all_keeps_descriptors in Hm as [H1 H2].
  rewrite H1, H2. auto.
Qed.

Lemma buildCommand_snapshot_witness :
  shells Example.booted !! Example.sh = Some Example.shell0
  /\ (exists cmd w1 c sl,
        buildCommand Example.platform Example.sh "echo" ["hello"]
          Example.booted = Done (Some cmd, None) w1
        /\ cmds w1 !! cmd = Some c
        /\ Cmd.Dir c = "/work"
        /\ Cmd.Env c = Some sl
        /\ slices w1 !! sl = Some ["PATH=/bin"; "HOME=/root"]
        /\ forall w2,
             mutate_all Example.platform AfterBuild.mutations w1 = Done tt w2 ->
             cmds w2 !! cmd = Some c
             /\ slices w2 !! sl = Some ["PATH=/bin"; "HOME=/root"])
  /\ mutate_all Example.platform AfterBuild.mutations Example.ready
     = Done tt AfterBuild.mutated
  /\ (Shell.wd <$> shells AfterBuild.mutated !! Example.sh) = Some "/work/src"
  /\ (Shell.Env <$> shells AfterBuild.mutated !! Example.sh) = Some 5%nat
  /\ envs AfterBuild.mutated !! 1%nat = Some [("PATH", "/nowhere")]
  /\ envs AfterBuild.mutated !! 5%nat = Some [("LANG", "C")].
Proof.
  assert (Hs : shells Example.booted !! Example.sh = Some Example.shell0)
    by reflexivity.
  split; [exact Hs|]. split.
  - exact (buildCommand_snapshot Example.platform Example.sh "echo" ["hello"]
             Example.booted Example.shell0
             (env.FromSlice (os_Environ Example.platform)) "/bin/echo"
             AfterBuild.mutations Hs eq_refl eq_refl).
  - repeat split; reflexivity.
Defined.

(** ** [strings.TrimSpace] *)

Lemma strip_prefix_Some p s rest :
  strip_prefix p s = Some rest -> s = (p ++ rest)%string.
Proof.
  revert s. induction p as [|a p IH]; intros s H; cbn in H.
  - injection H as ->. reflexivity.
  - destruct s as [|b s]; [discriminate|].
    destruct (Ascii.eqb_spec a b) as [->|]; [|discriminate].
    change (String b p ++ rest)%string with (String b (p ++ rest)).
    f_equal. apply IH, H.
Qed.

Lemma strip_prefix_app p s rest t :
  strip_prefix p s = Some rest ->
  strip_prefix p (s ++ t) = Some (rest ++ t)%string.
Proof.
  revert s. induction p as [|a p IH]; intros s H; cbn in H.
  - injection H as ->. reflexivity.
  - destruct s as [|b s]; [discriminate|].
    change (String b s ++ t)%string with (String b (s ++ t)).
    cbn [strip_prefix].
    destruct (Ascii.eqb a b); [|discriminate]. apply IH, H.
Qed.

Lemma strip_any_Some ps s rest :
  strip_any ps s = Some rest ->
  exists p, In p ps /\ s = (p ++ rest)%string.
Proof.
  induction ps as [|p ps IH]; cbn; [discriminate|].
  destruct (strip_prefix p s) as [r|] eqn:E.
  - intros [= <-]. exists p. split; [auto|]. apply strip_prefix_Some, E.
  - intros H. destruct (IH H) as (q & Hq & ->). eauto.
Qed.

Lemma strip_any_app ps s rest t :
  strip_any ps s = Some rest -> exists rest', strip_any ps (s ++ t) = Some rest'.
Proof.
  induction ps as [|p ps IH]; cbn; [discriminate|].
  destruct (strip_prefix p s) as [r|] eqn:E.
  - intros _. rewrite (strip_prefix_app _ _ _ t E). eauto.
  - intros H. destruct (strip_prefix p (s ++ t)); eauto.
Qed.

Lemma append_cons c (a b : string) :
  (String c a ++ b)%string = String c (a ++ b)%string.
Proof. reflexivity. Qed.

Lemma append_nil_l (b : string) : ("" ++ b)%string = b.
Proof. reflexivity. Qed.

Lemma length_append (a b : string) :
  String.length (a ++ b) = (String.length a + String.length b)%nat.
Proof.
  induction a as [|c a IH]; [reflexivity|].
  rewrite append_cons. cbn [String.length]. rewrite IH. reflexivity.
Qed.

Lemma append_nil_r (s : string) : (s ++ "")%string = s.
Proof.
  induction s as [|c s IH]; [reflexivity|]. rewrite append_cons, IH.
  reflexivity.
Qed.

Lemma append_assoc (a b c : string) :
  (a ++ b ++ c)%string = ((a ++ b) ++ c)%string.
Proof.
  induction a as [|x a IH]; [reflexivity|].
  rewrite !append_cons, IH. reflexivity.
Qed.

(** With enough fuel nothing in [ps] is left at the front, and what was
    dropped is a prefix. *)
Lemma trim_front_spec ps :
  Forall (fun p => p <> "") ps ->
  forall fuel s, (String.length s <= fuel)%nat ->
    strip_any ps (trim_front ps fuel s) = None
    /\ exists pre, s = (pre ++ trim_front ps fuel s)%string.
Proof.
  intros Hps fuel. induction fuel as [|fuel IH]; intros s Hlen; cbn.
  - destruct s; [|cbn in Hlen; lia]. split; [|exists ""; reflexivity].
    destruct (strip_any ps "") as [r|] eqn:E; [|reflexivity].
    apply strip_any_Some in E as (p & Hp & E).
    rewrite List.Forall_forall in Hps. destruct p; [destruct (Hps "" Hp); reflexivity|].
    discriminate.
  - destruct (strip_any ps s) as [rest|] eqn:E.
    + apply strip_any_Some in E as (p & Hp & ->).
      rewrite List.Forall_forall in Hps. specialize (Hps p Hp).
      destruct (IH rest) as (H1 & pre & H2).
      { rewrite length_append in Hlen. destruct p; [congruence|]. cbn in Hlen. lia. }
      split; [exact H1|]. exists (p ++ pre)%string.
      rewrite <- append_assoc. rewrite <- H2. reflexivity.
    + split; [exact E|]. exists "". reflexivity.
Qed.

Lemma space_encodings_nonempty : Forall (fun p => p <> "") space_encodings.
Proof. repeat constructor; discriminate. Qed.

Lemma rev_space_encodings_nonempty :
  Forall (fun p => p <> "") (map rev_string space_encodings).
Proof. repeat constructor; discriminate. Qed.

Lemma rev_string_app a b :
  rev_string (a ++ b) = (rev_string b ++ rev_string a)%string.
Proof.
  induction a as [|c a IH].
  - rewrite append_nil_l. cbn [rev_string]. rewrite append_nil_r. reflexivity.
  - rewrite append_cons. cbn [rev_string]. rewrite IH, append_assoc.
    reflexivity.
Qed.

Lemma rev_string_involutive s : rev_string (rev_string s) = s.
Proof.
  induction s as [|c s IH]; [reflexivity|]. cbn [rev_string].
  rewrite rev_string_app, IH. reflexivity.
Qed.

Lemma length_rev_string s : String.length (rev_string s) = String.length s.
Proof.
  induction s as [|c s IH]; [reflexivity|]. cbn [rev_string].
  rewrite length_append, IH. cbn. lia.
Qed.

Lemma TrimLeftSpace_spec s :
  leading_space (TrimLeftSpace s) = false
  /\ exists pre, s = (pre ++ TrimLeftSpace s)%string.
Proof.
  unfold leading_space, TrimLeftSpace.
  destruct (trim_front_spec _ space_encodings_nonempty (String.length s) s)
    as [H1 H2]; [lia|].
  rewrite H1. auto.
Qed.

Lemma TrimRightSpace_spec s :
  trailing_space (TrimRightSpace s) = false
  /\ exists post, s = (TrimRightSpace s ++ post)%string.
Proof.
  unfold trailing_space, TrimRightSpace.
  destruct (trim_front_spec _ rev_space_encodings_nonempty (String.length s)
              (rev_string s)) as [H1 [pre H2]].
  { rewrite length_rev_string. lia. }
  rewrite rev_string_involutive, H1. split; [reflexivity|].
  exists (rev_string pre).
  rewrite <- rev_string_app, <- H2. symmetry. apply rev_string_involutive.
Qed.

(** What [strings.TrimSpace] returns neither begins nor ends with a
    white-space rune, and is what is left of [s] between a dropped
    prefix and a dropped suffix. *)
Lemma TrimSpace_spec s :
  leading_space (strings_TrimSpace s) = false
  /\ trailing_space (strings_TrimSpace s) = false
  /\ exists pre post, s = (pre ++ strings_TrimSpace s ++ post)%string.
Proof.
  unfold strings_TrimSpace.
  destruct (TrimLeftSpace_spec s) as [HL [pre Hpre]].
  destruct (TrimRightSpace_spec (TrimLeftSpace s)) as [HR [post Hpost]].
  split; [|split; [exact HR|]].
  - unfold leading_space in *.
    destruct (strip_any space_encodings (TrimRightSpace (TrimLeftSpace s)))
      as [r|] eqn:E; [|reflexivity].
    destruct (strip_any_app _ _ _ post E) as [r' E'].
    rewrite <- Hpost in E'. rewrite E' in HL. discriminate.
  - exists pre, post. rewrite <- Hpost. exact Hpre.
Qed.

Example TrimSpace_examples :
  map strings_TrimSpace
      [ ("hello" ++ Example.lf)%string; "  a b  "; "";
        (bytes [226; 128; 128; 9]%nat ++ "x"
         ++ bytes [194; 160; 13; 10]%nat)%string;
        (bytes [194]%nat ++ "x" ++ bytes [128; 128]%nat)%string ]
  = [ "hello"; "a b"; ""; "x";
      (bytes [194]%nat ++ "x" ++ bytes [128; 128]%nat)%string ].
Proof. reflexivity. Qed.

(** ** [RunAndCapture] *)

Lemma pipe_result_None p cmdStr :
  pipe_result p cmdStr = None -> Start_err p = None /\ Wait_err p = None.
Proof.
  unfold pipe_result.
  destruct (Start_err p); [discriminate|].
  destruct (Wait_err p); [discriminate|]. auto.
Qed.

(** What [RunAndCapture] does when the command resolves. *)
Lemma RunAndCapture_runs os s command arg world v ev absPath :
  shells world !! s = Some v ->
  envs world !! Shell.Env v = Some ev ->
  resolved os ev command = (absPath, None) ->
  let b := S (S (next world)) in
  let n := S b in
  let c' := wired (built absPath arg (S (next world)) (Shell.wd v))
                  (pipe_stdout (Shell.Debug v) n (WBuffer b))
                  (pipe_stderr (Shell.Debug v) n) in
  let p := spawn os c' (env.ToSlice ev) in
  exists world',
    RunAndCapture os s command arg world
    = Done match pipe_result p (ACommand absPath arg) with
           | Some err => ("", Some err)
           | None => (strings_TrimSpace (stdout_bytes p), None)
           end world'
    /\ events_since world world'
       = (capture_prompt (Shell.Debug v) command arg
          ++ pipe_events (Shell.Debug v) n c' p)%list.
Proof.
  intros Hs He Hres b n c' p.
  apply wp_elim_eq. unfold RunAndCapture. wp_steps.
  apply wp_mono with
    (Q := fun _ w1 =>
            shells w1 = shells world /\ envs w1 = envs world
            /\ slices w1 = slices world /\ cmds w1 = cmds world
            /\ buffers w1 = buffers world /\ next w1 = next world
            /\ now w1 = now world
            /\ trace w1 = (trace world
                           ++ capture_prompt (Shell.Debug v) command arg)%list).
  { unfold capture_prompt. destruct (Shell.Debug v).
    - unfold Promptf, logf. wp_steps. repeat split; reflexivity.
    - wp_steps. rewrite app_nil_r. repeat split; reflexivity. }
  intros [] w1 (A1 & A2 & A3 & A4 & A5 & A6 & A7 & A8).
  wp_steps.
  eapply wp_buildCommand; [lookup_now | lookup_now |]. rewrite Hres.
  intros w2 B1 B2 B3 B4 B5 B6 B7 B8.
  wp_steps.
  eapply wp_executeCommand_pipe.
  { lookup_now. } { reflexivity. } { lookup_now. }
  { unfold env_of, built. lookup_now. } { reflexivity. }
  world_simpl. rewrite B6, A6. fold b. fold n. cbn [built Cmd.Path].
  fold c'. fold p.
  intros w3 C1 C2 C3 C4 C5 C6 C7.
  assert (Hev : events_since world w3
                = (capture_prompt (Shell.Debug v) command arg
                   ++ pipe_events (Shell.Debug v) n c' p)%list).
  { apply events_since_app. rewrite C7. world_simpl. rewrite B4, A8.
    rewrite <- app_assoc. reflexivity. }
  destruct (pipe_result p (ACommand absPath arg)) as [err|] eqn:Hr.
  - wp_steps. split; [reflexivity | exact Hev].
  - apply pipe_result_None in Hr as [Hst _]. rewrite Hst in C6.
    eapply wp_bind, wp_deref.
    { rewrite C6. world_simpl. cbn [buffer_writes].
      rewrite !lookup_insert_eq. reflexivity. }
    wp_steps. split; [reflexivity | exact Hev].
Qed.

(** C6. [RunAndCapture], whatever the PTY flag of the shell, allocates
    no terminal: the one child it starts is started with [cmd.Start()],
    its standard output wired to the capture buffer and its standard
    error to nothing (to the logger in debug mode), never to the
    buffer.  When the command fails the result is the empty string and
    the error; otherwise it is what the child wrote to its standard
    output without its leading and trailing white space, and nil. *)
Theorem RunAndCapture_spec os s command arg world v ev absPath :
  shells world !! s = Some v ->
  envs world !! Shell.Env v = Some ev ->
  resolved os ev command = (absPath, None) ->
  let b := S (S (next world)) in
  let n := S b in
  let c' := wired (built absPath arg (S (next world)) (Shell.wd v))
                  (pipe_stdout (Shell.Debug v) n (WBuffer b))
                  (pipe_stderr (Shell.Debug v) n) in
  let p := spawn os c' (env.ToSlice ev) in
  exists r world',
    RunAndCapture os s command arg world = Done r world'
    /\ (forall d, ~ In (EvStartPTY d) (events_since world world'))
    /\ (forall d, In (EvStart d) (events_since world world') <-> d = c')
    /\ (forall out, Cmd.Stderr c' = Some out -> ~ writes_to out (WBuffer b))
    /\ r = match pipe_result p (ACommand absPath arg) with
           | Some err => ("", Some err)
           | None => (strings_TrimSpace (stdout_bytes p), None)
           end
    /\ (snd r = None ->
        leading_space (fst r) = false /\ trailing_space (fst r) = false).
Proof.
  intros Hs He Hres b n c' p.
  destruct (RunAndCapture_runs os s command arg world v ev absPath Hs He Hres)
    as (world' & Hrun & Hev).
  fold b n c' p in Hrun, Hev.
  eexists _, world'. split; [exact Hrun|]. rewrite Hev.
  assert (Hprompt : forall ev0,
            In ev0 (capture_prompt (Shell.Debug v) command arg) ->
            exists f a, ev0 = EvLog LPrompt f a).
  { unfold capture_prompt. destruct (Shell.Debug v); cbn; [|tauto].
    intros ev0 [<-|[]]. eauto. }
  split; [|split; [|split; [|split; [reflexivity|]]]].
  - intros d H. apply in_app_or in H as [H|H].
    + apply Hprompt in H as (f & a & H). discriminate.
    + exact (pipe_events_no_pty _ _ _ _ _ H).
  - intros d. split.
    + intros H. apply in_app_or in H as [H|H].
      * apply Hprompt in H as (f & a & H). discriminate.
      * apply pipe_events_start in H. exact H.
    + intros ->. apply in_or_app. right. apply pipe_events_start. reflexivity.
  - subst c'. cbn [wired Cmd.Stderr]. unfold pipe_stderr.
    destruct (Shell.Debug v); [|discriminate].
    intros out [= <-] [H|[]]. discriminate.
  - destruct (pipe_result p (ACommand absPath arg)); [discriminate|].
    intros _. cbn [fst].
    destruct (TrimSpace_spec (stdout_bytes p)) as (H1 & H2 & _). auto.
Qed.

Lemma RunAndCapture_spec_witness :
  shells Interactive.world !! Example.sh = Some Interactive.shell
  /\ Shell.PTY Interactive.shell = true
  /\ exists world',
       RunAndCapture Example.platform Example.sh "echo" ["hello"]
         Interactive.world = Done ("hello", None) world'
       /\ forall d, ~ In (EvStartPTY d) (events_since Interactive.world world').
Proof.
  assert (Hs : shells Interactive.world !! Example.sh
               = Some Interactive.shell) by reflexivity.
  split; [exact Hs|]. split; [reflexivity|].
  destruct (RunAndCapture_spec Example.platform Example.sh "echo" ["hello"]
              Interactive.world Interactive.shell
              (env.FromSlice (os_Environ Example.platform)) "/bin/echo"
              Hs eq_refl eq_refl)
    as (r & world' & Hrun & Hpty & _ & _ & Hr & _).
  exists world'. split; [|exact Hpty].
  rewrite Hrun, Hr. reflexivity.
Defined.

(** ** [LockFile] *)

Lemma lockRetryDuration_pos : 0 < lockRetryDuration.
Proof. reflexivity. Qed.

Lemma first_of_Some a b t e :
  first_of a b = Some (t, e) ->
  (a = Some (t, e) \/ b = Some (t, e))
  /\ (forall ta ea, a = Some (ta, ea) -> t <= ta)
  /\ (forall tb eb, b = Some (tb, eb) -> t <= tb).
Proof.
  unfold first_of. destruct a as [[ta ea]|], b as [[tb eb]|]; intros H.
  - destruct (Z.leb_spec ta tb); injection H as <- <-;
      (split; [auto|]); split; intros ? ? [= <- <-]; lia.
  - injection H as <- <-. split; [auto|]. split; intros ? ? [=]. subst. lia.
  - injection H as <- <-. split; [auto|]. split; intros ? ? [=]. subst. lia.
  - discriminate.
Qed.

(** A context only ever reports one of the two context errors. *)
Lemma done_at_error c t e :
  done_at c = Some (t, e) -> e = Canceled \/ e = DeadlineExceeded.
Proof.
  revert t e. induction c as [|p IH ca|p IH d ca]; intros t e H;
    cbn [done_at] in H.
  - discriminate.
  - apply first_of_Some in H as ([H|H] & _); [eauto|].
    destruct ca; cbn in H; [|discriminate]. injection H as _ <-. auto.
  - apply first_of_Some in H as ([H|H] & _); [eauto|].
    apply first_of_Some in H as ([H|H] & _).
    + injection H as _ <-. auto.
    + destruct ca; cbn in H; [|discriminate]. injection H as _ <-. auto.
Qed.

Lemma ctx_Err_Some c t e :
  ctx_Err c t = Some e <-> exists t0, done_at c = Some (t0, e) /\ t0 <= t.
Proof.
  unfold ctx_Err. destruct (done_at c) as [[t0 e0]|].
  - destruct (Z.leb_spec t0 t); split.
    + intros [= <-]. eauto.
    + intros (t1 & [= <- <-] & _). reflexivity.
    + discriminate.
    + intros (t1 & [= <- <-] & ?). lia.
  - split; [discriminate|]. intros (t1 & [=] & _).
Qed.

(** Once done, a context stays done, with the same error. *)
Lemma ctx_Err_mono c t t' e :
  ctx_Err c t = Some e -> t <= t' -> ctx_Err c t' = Some e.
Proof.
  rewrite !ctx_Err_Some. intros (t0 & H & ?) ?. exists t0. split; [exact H|lia].
Qed.

(** The context of [LockFile] is done by its deadline at the latest. *)
Lemma WithTimeout_done parent timeout start :
  exists t0 e,
    done_at (context_WithTimeout parent timeout start) = Some (t0, e)
    /\ t0 <= start + timeout.
Proof.
  unfold context_WithTimeout. cbn [done_at option_map first_of].
  destruct (done_at parent) as [[tp ep]|]; cbn [first_of].
  - destruct (Z.leb_spec tp (start + timeout)); eexists _, _; split;
      try reflexivity; lia.
  - eexists _, _. split; [reflexivity|lia].
Qed.

Lemma lock_attempts_app a b :
  lock_attempts (a ++ b) = (lock_attempts a ++ lock_attempts b)%list.
Proof.
  induction a as [|[] a IH]; cbn; rewrite ?IH; reflexivity.
Qed.

Lemma sleeps_app a b : sleeps (a ++ b) = (sleeps a ++ sleeps b)%list.
Proof.
  induction a as [|[] a IH]; cbn; rewrite ?IH; reflexivity.
Qed.

Lemma attempt_at_S start k :
  attempt_at (start + lockRetryDuration) k = attempt_at start (S k).
Proof. unfold attempt_at. lia. Qed.

Lemma attempt_at_0 start : attempt_at start 0 = start.
Proof. unfold attempt_at. lia. Qed.

Lemma attempt_at_1 start : attempt_at start 1 = start + lockRetryDuration.
Proof. unfold attempt_at. lia. Qed.

Lemma attempts_shift start n :
  map (attempt_at (start + lockRetryDuration)) (seq 0 n)
  = map (attempt_at start) (seq 1 n).
Proof.
  rewrite <- seq_shift, map_map. apply map_ext. intros k.
  apply attempt_at_S.
Qed.

(** The retry loop while another process holds the lock: it gives up
    at the first check at which the context is done, after [n]
    attempts one retry interval apart. *)
Lemma LockFile_loop_gives_up os s ctx lock absolutePathToLock v :
  forall fuel w,
    shells w !! s = Some v ->
    (forall t, now w <= t -> TryLock os lock t <> None) ->
    ctx_Err ctx (attempt_at (now w) fuel) <> None ->
    (1 <= fuel)%nat ->
    wp (LockFile_loop os fuel s ctx lock absolutePathToLock None)
       (fun r w' =>
          exists (n : nat) e evs,
            (1 <= n <= fuel)%nat
            /\ r = (None, Some e)
            /\ now w' = attempt_at (now w) n
            /\ ctx_Err ctx (now w') = Some e
            /\ (forall k, (1 <= k < n)%nat ->
                          ctx_Err ctx (attempt_at (now w) k) = None)
            /\ shells w' = shells w
            /\ trace w' = (trace w ++ evs)%list
            /\ lock_attempts evs = map (attempt_at (now w)) (seq 0 n)
            /\ sleeps evs = repeat lockRetryDuration n)
       w.
Proof.
  induction fuel as [|fuel IH]; intros w Hs Hbusy Hdone Hfuel; [lia|].
  cbn [LockFile_loop]. unfold lock_TryLock. wp_steps.
  destruct (TryLock os lock (now w)) as [e0|] eqn:Htry;
    [|exfalso; apply (Hbusy (now w)); [lia|exact Htry]].
  unfold Commentf, logf, time_Sleep. wp_steps.
  rewrite Z.max_r by (pose proof lockRetryDuration_pos; lia).
  set (w1 := with_now _ _).
  assert (Hnow1 : now w1 = now w + lockRetryDuration) by reflexivity.
  assert (Htr1 : exists evs1,
             trace w1 = (trace w ++ evs1)%list
             /\ lock_attempts evs1 = [now w]
             /\ sleeps evs1 = [lockRetryDuration]).
  { eexists. subst w1. world_simpl. rewrite <- !app_assoc. cbn [app].
    split; [reflexivity|]. split; reflexivity. }
  destruct Htr1 as (evs1 & Htr1 & Hat1 & Hsl1).
  assert (Hs1 : shells w1 = shells w) by reflexivity.
  rewrite <- Hnow1. clearbody w1.
  destruct (ctx_Err ctx (now w1)) as [e|] eqn:Herr.
  - wp_steps. hnf. exists 1%nat, e, evs1.
    split; [lia|]. split; [reflexivity|].
    split; [rewrite Hnow1, attempt_at_1; reflexivity|].
    split; [exact Herr|]. split; [intros k Hk; lia|].
    split; [exact Hs1|]. split; [exact Htr1|].
    split; [rewrite Hat1; cbn [seq map]; rewrite attempt_at_0; reflexivity
           |exact Hsl1].
  - assert (Hf : (1 <= fuel)%nat).
    { destruct fuel; [|lia]. exfalso. apply Hdone.
      rewrite attempt_at_1, <- Hnow1. exact Herr. }
    eapply wp_mono.
    { apply IH; [rewrite Hs1; exact Hs | | | exact Hf].
      - intros t Ht. apply Hbusy. pose proof lockRetryDuration_pos. lia.
      - rewrite Hnow1, attempt_at_S. exact Hdone. }
    cbv beta. intros r w' (n & e & evs & Hn & -> & Hnow & Hctx & Hfirst & Hsh
                           & Htr & Hat & Hsl).
    exists (S n), e, (evs1 ++ evs)%list.
    split; [lia|]. split; [reflexivity|].
    split; [rewrite Hnow, Hnow1; apply attempt_at_S|].
    split; [exact Hctx|]. split.
    { intros k Hk. destruct k as [|k]; [lia|].
      destruct k as [|k].
      - rewrite attempt_at_1, <- Hnow1. exact Herr.
      - rewrite <- attempt_at_S, <- Hnow1. apply Hfirst. lia. }
    split; [congruence|].
    split; [rewrite Htr, Htr1, app_assoc; reflexivity|].
    split.
    + rewrite lock_attempts_app, Hat1, Hat, Hnow1, attempts_shift.
      cbn [seq map app]. rewrite attempt_at_0. reflexivity.
    + rewrite sleeps_app, Hsl1, Hsl. reflexivity.
Qed.

Lemma fuel_covers_timeout timeout fuel :
  (Z.to_nat (timeout / lockRetryDuration) + 1 <= fuel)%nat ->
  timeout <= Z.of_nat fuel * lockRetryDuration.
Proof.
  intros H. unfold lockRetryDuration in *.
  assert (H1 : timeout / 1000000000 + 1 <= Z.of_nat fuel).
  { destruct (Z.le_gt_cases 0 (timeout / 1000000000)) as [Hq|Hq].
    - rewrite <- (Z2Nat.id _ Hq). lia.
    - lia. }
  pose proof (Z.mod_pos_bound timeout 1000000000 ltac:(lia)) as Hm.
  pose proof (Z.div_mod timeout 1000000000 ltac:(lia)) as Hd.
  nia.
Qed.

(** C4. While another process holds the lock, [LockFile] tries the lock
    at the instant of the call and then once every [lockRetryDuration],
    sleeping in between, and after each sleep checks the context
    derived from the shell's context and the timeout.  At the first
    check at which that context is done it returns the context's error
    ([context.Canceled] or [context.DeadlineExceeded]) and no lock: at
    most one retry interval after the later of the call and the
    instant the context was done, and so at most one retry interval
    after the deadline.  The number of rounds is bounded by the
    timeout. *)
Theorem LockFile_gives_up os fuel s path timeout world v lock :
  shells world !! s = Some v ->
  filepath_Abs os path = (lock, None) ->
  filepath_IsAbs lock = true ->
  (forall t, now world <= t -> TryLock os lock t <> None) ->
  (Z.to_nat (timeout / lockRetryDuration) + 1 <= fuel)%nat ->
  let start := now world in
  let ctx := context_WithTimeout (Shell.ctx v) timeout start in
  exists (n : nat) e world',
    LockFile os fuel s path timeout world = Done (None, Some e) world'
    /\ (1 <= n <= Z.to_nat (timeout / lockRetryDuration) + 1)%nat
    /\ now world' = attempt_at start n
    /\ lock_attempts (events_since world world')
       = map (attempt_at start) (seq 0 n)
    /\ sleeps (events_since world world') = repeat lockRetryDuration n
    /\ ctx_Err ctx (now world') = Some e
    /\ (e = Canceled \/ e = DeadlineExceeded)
    /\ (forall k, (1 <= k < n)%nat -> ctx_Err ctx (attempt_at start k) = None)
    /\ (forall t0 e0, done_at ctx = Some (t0, e0) ->
          e = e0 /\ now world' <= Z.max t0 start + lockRetryDuration)
    /\ now world' <= Z.max (start + timeout) start + lockRetryDuration.
Proof.
  intros Hs Habs Hisabs Hbusy Hfuel start ctx.
  destruct (WithTimeout_done (Shell.ctx v) timeout start)
    as (t0 & e0 & Hdone & Ht0). fold ctx in Hdone.
  set (fuel0 := (Z.to_nat (timeout / lockRetryDuration) + 1)%nat) in *.
  assert (Hcover : forall f, (fuel0 <= f)%nat ->
                     ctx_Err ctx (attempt_at start f) = Some e0).
  { intros f Hf. apply ctx_Err_Some. exists t0. split; [exact Hdone|].
    pose proof (fuel_covers_timeout timeout f Hf).
    unfold attempt_at. lia. }
  destruct (wp_elim (LockFile os fuel s path timeout)
              (fun r w' =>
                 exists (n : nat) e evs,
                   (1 <= n <= fuel)%nat /\ r = (None, Some e)
                   /\ now w' = attempt_at start n
                   /\ ctx_Err ctx (now w') = Some e
                   /\ (forall k, (1 <= k < n)%nat ->
                                 ctx_Err ctx (attempt_at start k) = None)
                   /\ shells w' = shells world
                   /\ trace w' = (trace world ++ evs)%list
                   /\ lock_attempts evs = map (attempt_at start) (seq 0 n)
                   /\ sleeps evs = repeat lockRetryDuration n) world)
    as (r & world' & Hrun & n & e & evs & Hn & -> & Hnow & Hctx & Hfirst & _
        & Htr & Hat & Hsl).
  { unfold LockFile. rewrite Habs. unfold lockfile_New. rewrite Hisabs.
    cbn [negb]. wp_steps. fold start. fold ctx.
    apply (LockFile_loop_gives_up os s ctx lock lock v fuel world Hs Hbusy).
    - fold start. rewrite (Hcover fuel Hfuel). discriminate.
    - unfold fuel0 in Hfuel. lia. }
  apply events_since_app in Htr.
  assert (Hn0 : (n <= fuel0)%nat).
  { destruct (Nat.le_gt_cases n fuel0) as [H|H]; [exact H|].
    pose proof (Hcover fuel0 (Nat.le_refl _)) as Hc.
    rewrite Hfirst in Hc; [discriminate|]. unfold fuel0 in *. lia. }
  assert (He : e = e0 /\ now world' <= Z.max t0 start + lockRetryDuration).
  { apply ctx_Err_Some in Hctx as (t1 & Hd1 & Ht1).
    rewrite Hdone in Hd1. injection Hd1 as <- <-. split; [reflexivity|].
    destruct (Nat.eq_dec n 1%nat) as [->|Hn1].
    - rewrite Hnow, attempt_at_1. lia.
    - assert (Hprev : ctx_Err ctx (attempt_at start (n - 1)) = None)
        by (apply Hfirst; lia).
      assert (Hlt : attempt_at start (n - 1) < t0).
      { destruct (Z.lt_ge_cases (attempt_at start (n - 1)) t0) as [H|H];
          [exact H|].
        assert (E : ctx_Err ctx (attempt_at start (n - 1)) = Some e0)
          by (apply ctx_Err_Some; eauto).
        congruence. }
      rewrite Hnow. unfold attempt_at in *. lia. }
  exists n, e, world'. split; [exact Hrun|]. split; [lia|].
  split; [exact Hnow|]. split; [rewrite Htr; exact Hat|].
  split; [rewrite Htr; exact Hsl|]. split; [exact Hctx|].
  split; [destruct He as [-> _]; eapply done_at_error, Hdone|].
  split; [exact Hfirst|]. split.
  - intros t1 e1 H1. rewrite Hdone in H1. injection H1 as <- <-. exact He.
  - destruct He as [_ He]. lia.
Qed.

Lemma LockFile_gives_up_witness :
  shells Cancelled.world !! Example.sh = Some Cancelled.shell
  /\ filepath_Abs Example.platform "agent.lock" = ("/work/agent.lock", None)
  /\ (Z.to_nat (60000000000 / lockRetryDuration) + 1 <= 61)%nat
  /\ exists (n : nat) world',
       LockFile Example.platform 61 Example.sh "agent.lock" 60000000000
         Cancelled.world = Done (None, Some Canceled) world'
       /\ (1 <= n)%nat
       /\ now world' = attempt_at 0 n
       /\ now world' <= 1200000000 + lockRetryDuration.
Proof.
  assert (Hs : shells Cancelled.world !! Example.sh = Some Cancelled.shell)
    by reflexivity.
  assert (Hf : (Z.to_nat (60000000000 / lockRetryDuration) + 1 <= 61)%nat)
    by (vm_compute; lia).
  split; [exact Hs|]. split; [reflexivity|]. split; [exact Hf|].
  destruct (LockFile_gives_up Example.platform 61 Example.sh "agent.lock"
              60000000000 Cancelled.world Cancelled.shell "/work/agent.lock"
              Hs eq_refl eq_refl)
    as (n & e & world' & Hrun & Hn & Hnow & _ & _ & _ & _ & _ & Hprompt & _).
  - intros t _. discriminate.
  - exact Hf.
  - destruct (Hprompt 1200000000 Canceled eq_refl) as [-> Hle].
    exists n, world'. split; [exact Hrun|]. split; [lia|].
    split; [exact Hnow|]. exact Hle.
Defined.

Example LockFile_cancelled :
  let r := LockFile Example.platform 61 Example.sh "agent.lock" 60000000000
             Cancelled.world in
  returned r = Some (None, Some Canceled)
  /\ (now <$> final r) = Some 2000000000.
Proof. vm_compute. split; reflexivity. Qed.

Example LockFile_deadline :
  let r := LockFile Example.platform 4 Example.sh "agent.lock" 2500000000
             Example.booted in
  returned r = Some (None, Some DeadlineExceeded)
  /\ (now <$> final r) = Some 3000000000
  /\ (lock_attempts <$> (trace <$> final r))
     = Some [0; 1000000000; 2000000000].
Proof. vm_compute. repeat split; reflexivity. Qed.

(** When the lock is free at the call, [LockFile] takes it at once; the
    context is only looked at after a failed attempt. *)
Lemma LockFile_free os fuel s path timeout world v lock :
  shells world !! s = Some v ->
  filepath_Abs os path = (lock, None) ->
  filepath_IsAbs lock = true ->
  TryLock os lock (now world) = None ->
  exists world',
    LockFile os (S fuel) s path timeout world = Done (Some lock, None) world'
    /\ now world' = now world
    /\ events_since world world' = [EvTryLock lock (now world)].
Proof.
  intros Hs Habs Hisabs Hfree. apply wp_elim_eq.
  unfold LockFile. rewrite Habs. unfold lockfile_New. rewrite Hisabs.
  cbn [negb]. wp_steps. cbn [LockFile_loop]. unfold lock_TryLock. wp_steps.
  rewrite Hfree. wp_steps. split; [reflexivity|]. split; [reflexivity|].
  apply events_since_app. reflexivity.
Qed.

(** * Further properties *)

(** ** Exit codes: range and signals *)

Lemma ExitStatus_range w : -1 <= WaitStatus.ExitStatus w <= 255.
Proof.
  unfold WaitStatus.ExitStatus.
  destruct (negb (WaitStatus.Exited w)); cbv iota; [lia|].
  change 0xFF with (Z.ones 8). rewrite Z.land_ones by (cbv; discriminate).
  pose proof (Z.mod_pos_bound (Z.shiftr w WaitStatus.shift) (2 ^ 8)
                ltac:(reflexivity)) as H.
  change (2 ^ 8) with 256 in *.
  change (Z.ones 8) with 255. set (m := _ mod 256) in *. clearbody m. lia.
Qed.

(** X1. For every error of the model (an [exec.ExitError] carries a
    process state, as those [cmd.Wait] returns do), [GetExitCode]
    returns -1 or a value from 0 to 255, and which one is decided by
    the cause of the error: 0 for nil; for an exit error with a wait
    status, the second byte of the status word when the low seven bits
    say the child exited and -1 when they do not; 1 for anything
    else. *)
Theorem GetExitCode_range (err : option error) :
  -1 <= GetExitCode err <= 255
  /\ match err with
     | None => GetExitCode err = 0
     | Some e =>
         match errors_Cause e with
         | ExitError (SysWaitStatus status) =>
             if Z.land status 0x7F =? 0
             then GetExitCode err = (status / 256) mod 256
             else GetExitCode err = -1
         | _ => GetExitCode err = 1
         end
     end.
Proof.
  split.
  - destruct err as [err|]; cbn [GetExitCode]; [|lia].
    destruct (errors_Cause err) as [| | |[w|]| | | |]; try lia.
    apply ExitStatus_range.
  - destruct err as [err|]; cbn [GetExitCode]; [|reflexivity].
    destruct (errors_Cause err) as [| | |[w|]| | | |]; try reflexivity.
    unfold WaitStatus.ExitStatus, WaitStatus.Exited, WaitStatus.mask,
      WaitStatus.exited, WaitStatus.shift.
    destruct (Z.land w 127 =? 0); cbn [negb]; [|reflexivity].
    change 255 with (Z.ones 8). rewrite Z.land_ones by lia.
    rewrite Z.shiftr_div_pow2 by lia. reflexivity.
Qed.

(** X2. A child that did not exit (it was killed by a signal or dumped
    core: the low seven bits of its status word are not zero) is
    translated to -1, not to 1 and not to 128 plus the signal, however
    deep [errors.Wrapf] has wrapped the exit error. *)
Theorem GetExitCode_signalled (status : Z) (err : error) :
  Z.land status WaitStatus.mask <> 0 ->
  errors_Cause err = ExitError (SysWaitStatus status) ->
  GetExitCode (Some err) = -1
  /\ forall format args,
       GetExitCode (errors_Wrapf (Some err) format args) = -1.
Proof.
  intros Hsig Hcause.
  assert (H : GetExitCode (Some err) = -1).
  { rewrite (GetExitCode_exit err status Hcause).
    unfold WaitStatus.ExitStatus, WaitStatus.Exited, WaitStatus.exited.
    destruct (Z.eqb_spec (Z.land status WaitStatus.mask) 0); [contradiction|].
    reflexivity. }
  split; [exact H|]. intros. rewrite GetExitCode_Wrapf. exact H.
Qed.

Lemma GetExitCode_signalled_witness :
  let killed := ExitError (SysWaitStatus (WaitStatus.of_signal 9)) in
  Z.land (WaitStatus.of_signal 9) WaitStatus.mask <> 0
  /\ GetExitCode (Some killed) = -1
  /\ GetExitCode (errors_Wrapf (Some killed) "Error running `%s`" []) = -1.
Proof.
  intros killed.
  assert (Hs : Z.land (WaitStatus.of_signal 9) WaitStatus.mask <> 0)
    by discriminate.
  split; [exact Hs|].
  destruct (GetExitCode_signalled (WaitStatus.of_signal 9) killed Hs eq_refl)
    as [H1 H2].
  split; [exact H1 | apply H2].
Defined.

(** ** Construction *)



(** X4. When [os.Getwd] succeeds, [New] makes a shell at a fresh
    address with the current directory as working directory, a fresh
    environment container holding [os.Environ()], [os.Stdout] as
    writer, no PTY, no debug mode and the background context;
    [NewWithContext] makes the same shell with the given context, and
    nothing else differs. *)
Theorem NewWithContext_spec os ctx w d :
  os_Getwd os = (d, None) ->
  let e := next w in
  let s := S (next w) in
  exists w1 w2,
    New os w = Done (Some s, None) w1
    /\ NewWithContext os ctx w = Done (Some s, None) w2
    /\ shells w1 = <[s := Shell.mk e false os_Stdout false d Background]> (shells w)
    /\ shells w2 = <[s := Shell.mk e false os_Stdout false d ctx]> (shells w)
    /\ envs w1 = <[e := env.FromSlice (os_Environ os)]> (envs w)
    /\ envs w2 = envs w1
    /\ next w1 = S s /\ next w2 = S s
    /\ trace w1 = trace w /\ trace w2 = trace w.
Proof.
  intros Hd e s.
  assert (HN : New os w
               = Done (Some s, None)
                   (with_shells
                      <[s := Shell.mk e false os_Stdout false d Background]>
                      (with_next (S s)
                         (with_envs <[e := env.FromSlice (os_Environ os)]>
                            (with_next s w))))).
  { unfold New. rewrite Hd. reflexivity. }
  eexists _, _. split; [exact HN|]. split.
  - unfold NewWithContext. rewrite (bind_eq _ _ _ _ _ HN).
    cbv beta iota. unfold deref. unfold_M. world_simpl.
    rewrite lookup_insert_eq. reflexivity.
  - world_simpl. rewrite insert_insert_eq. repeat split; reflexivity.
Qed.

Lemma NewWithContext_spec_witness :
  os_Getwd Example.platform = ("/work", None)
  /\ exists w2,
       NewWithContext Example.platform Cancelled.ctx World0
       = Done (Some 2%nat, None) w2
       /\ shells w2 !! 2%nat = Some Cancelled.shell.
Proof.
  split; [reflexivity|].
  destruct (NewWithContext_spec Example.platform Cancelled.ctx World0 "/work"
              eq_refl) as (w1 & w2 & _ & H2 & _ & H4 & _).
  exists w2. split; [exact H2|]. rewrite H4. reflexivity.
Defined.

Lemma mutate_apart os s1 s2 v2 n2 e2 m w w' :
  s1 <> s2 ->
  apart s1 s2 v2 n2 e2 w ->
  mutate os s1 m w = Done tt w' ->
  apart s1 s2 v2 n2 e2 w'.
Proof.
  intros Hne (H2 & He & Hn & H1) Hrun.
  destruct m as [path|key value|key|entries]; cbn [mutate] in Hrun.
  - apply bind_Done in Hrun as (r & w1 & Hc & Hr). inversion Hr; subst.
    destruct (shells w !! s1) as [v1|] eqn:Hs1.
    + rewrite (Chdir_eq os s1 path w v1 Hs1) in Hc. cbv zeta in Hc.
      specialize (H1 v1 eq_refl).
      destruct (path_exists os (chdir_target v1 path));
        inversion Hc; subst; unfold apart; world_simpl.
      * rewrite lookup_insert_ne by exact Hne.
        split; [exact H2|]. split; [exact He|]. split; [exact Hn|].
        intros v1'. rewrite lookup_insert_eq. intros [= <-]. exact H1.
      * split; [exact H2|]. split; [exact He|]. split; [exact Hn|].
        intros v1'. rewrite Hs1. intros [= <-]. exact H1.
    + unfold Chdir, deref in Hc. unfold_M. rewrite Hs1 in Hc. discriminate.
  - apply bind_Done in Hrun as (v1 & w1 & Hd & Hrun).
    apply deref_Done in Hd as [Hs1 ->].
    apply bind_Done in Hrun as (e1 & w1 & Hd & Hrun).
    apply deref_Done in Hd as [_ ->]. unfold_M. inversion Hrun; subst.
    unfold apart. world_simpl.
    rewrite lookup_insert_ne by (apply H1, Hs1). auto.
  - apply bind_Done in Hrun as (v1 & w1 & Hd & Hrun).
    apply deref_Done in Hd as [Hs1 ->].
    apply bind_Done in Hrun as (e1 & w1 & Hd & Hrun).
    apply deref_Done in Hd as [_ ->]. unfold_M. inversion Hrun; subst.
    unfold apart. world_simpl.
    rewrite lookup_insert_ne by (apply H1, Hs1). auto.
  - apply bind_Done in Hrun as (v1 & w1 & Hd & Hrun).
    apply deref_Done in Hd as [Hs1 ->]. unfold_M. inversion Hrun; subst.
    unfold apart. world_simpl.
    rewrite lookup_insert_ne by exact Hne.
    rewrite lookup_insert_ne by lia.
    split; [exact H2|]. split; [exact He|]. split; [lia|].
    intros v1'. rewrite lookup_insert_eq. intros [= <-]. cbn. lia.
Qed.

Lemma mutate_all_apart os s1 s2 v2 n2 e2 ms w w' :
  s1 <> s2 ->
  apart s1 s2 v2 n2 e2 w ->
  mutate_all os (map (pair s1) ms) w = Done tt w' ->
  apart s1 s2 v2 n2 e2 w'.
Proof.
  intros Hne. unfold mutate_all. intros Hw Hrun.
  apply bind_Done in Hrun as (r & w1 & H1 & H2). inversion H2; subst. clear H2.
  revert w r Hw H1. induction ms as [|m ms IH]; intros w r Hw H1.
  - inversion H1; subst. exact Hw.
  - cbn [map mapM] in H1.
    apply bind_Done in H1 as ([] & w2 & H2 & H3).
    apply bind_Done in H3 as (xs & w3 & H3 & H4). inversion H4; subst.
    eapply IH; [|exact H3]. eapply mutate_apart; eassumption.
Qed.

(** What [New] allocates when [os.Getwd] succeeds. *)
Lemma New_allocates os w d :
  os_Getwd os = (d, None) ->
  let e := next w in
  let s := S (next w) in
  exists w1,
    New os w = Done (Some s, None) w1
    /\ shells w1 = <[s := Shell.mk e false os_Stdout false d Background]> (shells w)
    /\ envs w1 = <[e := env.FromSlice (os_Environ os)]> (envs w)
    /\ next w1 = S s
    /\ trace w1 = trace w.
Proof.
  intros Hd e s. unfold New. rewrite Hd. eexists. split; [reflexivity|].
  world_simpl. repeat split; reflexivity.
Qed.

(** X5. Two shells made by [New] do not share their environment: each
    has a container of its own, so no sequence of [Chdir] calls and
    environment mutations made through the first shell changes the
    second shell or what its environment holds. *)
Theorem shells_do_not_share_environment os w d ms :
  os_Getwd os = (d, None) ->
  exists s1 s2 w1 w2 v2,
    New os w = Done (Some s1, None) w1
    /\ New os w1 = Done (Some s2, None) w2
    /\ s1 <> s2
    /\ shells w2 !! s2 = Some v2
    /\ envs w2 !! Shell.Env v2 = Some (env.FromSlice (os_Environ os))
    /\ forall w3,
         mutate_all os (map (pair s1) ms) w2 = Done tt w3 ->
         shells w3 !! s2 = Some v2
         /\ envs w3 !! Shell.Env v2 = Some (env.FromSlice (os_Environ os)).
Proof.
  intros Hd.
  destruct (New_allocates os w d Hd) as (w1 & HN1 & Hs1 & He1 & Hn1 & _).
  destruct (New_allocates os w1 d Hd) as (w2 & HN2 & Hs2 & He2 & Hn2 & _).
  rewrite Hn1 in *.
  set (n := next w) in *.
  eexists (S n), (S (S (S n))), w1, w2, _.
  split; [exact HN1|]. split; [exact HN2|]. split; [lia|].
  assert (Hap : apart (S n) (S (S (S n)))
                  (Shell.mk (S (S n)) false os_Stdout false d Background)
                  (S (S n)) (env.FromSlice (os_Environ os)) w2).
  { unfold apart. rewrite Hs2, He2, Hn2, Hs1.
    rewrite !lookup_insert_eq. split; [reflexivity|]. split; [reflexivity|].
    split; [lia|]. intros v1. rewrite lookup_insert_ne by lia.
    rewrite lookup_insert_eq. intros [= <-]. cbn. lia. }
  split; [apply Hap|]. split; [apply Hap|].
  intros w3 Hrun.
  assert (Hne : S n <> S (S (S n))) by lia.
  apply (mutate_all_apart os _ _ _ _ _ ms w2 w3 Hne Hap) in Hrun.
  split; apply Hrun.
Qed.

Lemma shells_do_not_share_environment_witness :
  os_Getwd Example.platform = ("/work", None)
  /\ (exists s1 s2 w1 w2 v2,
        New Example.platform World0 = Done (Some s1, None) w1
        /\ New Example.platform w1 = Done (Some s2, None) w2
        /\ s1 <> s2
        /\ shells w2 !! s2 = Some v2
        /\ envs w2 !! Shell.Env v2 = Some [("PATH", "/bin"); ("HOME", "/root")]
        /\ forall w3,
             mutate_all Example.platform
               (map (pair s1) TwoShells.changes) w2 = Done tt w3 ->
             shells w3 !! s2 = Some v2
             /\ envs w3 !! Shell.Env v2
                = Some [("PATH", "/bin"); ("HOME", "/root")])
  /\ mutate_all Example.platform (map (pair Example.sh) TwoShells.changes)
       TwoShells.second = Done tt TwoShells.after
  /\ (Shell.wd <$> shells TwoShells.after !! Example.sh) = Some "/work/src"
  /\ envs TwoShells.after !! 1%nat
     = Some [("PATH", "/nowhere"); ("HOME", "/root")]
  /\ envs TwoShells.after !! 3%nat = Some [("PATH", "/bin"); ("HOME", "/root")].
Proof.
  split; [reflexivity|]. split.
  - exact (shells_do_not_share_environment Example.platform World0 "/work"
             TwoShells.changes eq_refl).
  - repeat split; reflexivity.
Defined.

(** ** Resolving executables *)

Lemma filepath_Abs_absolute os path p :
  Getwd_absolute os ->
  filepath_Abs os path = (p, None) -> filepath_IsAbs p = true.
Proof.
  intros Hg. unfold filepath_Abs.
  destruct (filepath_IsAbs path) eqn:Hp.
  - intros [= <-]. apply filepath_IsAbs_Clean, Hp.
  - destruct (os_Getwd os) as [d [err|]] eqn:Hd; [discriminate|].
    intros [= <-]. apply filepath_IsAbs_Join, (Hg d Hd).
Qed.

Lemma filepath_Abs_error os path p err :
  filepath_Abs os path = (p, Some err) -> p = "".
Proof.
  unfold filepath_Abs. destruct (filepath_IsAbs path); [discriminate|].
  destruct (os_Getwd os) as [d [e|]]; [|discriminate]. intros [= <- _].
  reflexivity.
Qed.

Lemma resolved_shape os e executable :
  Getwd_absolute os ->
  match resolved os e executable with
  | (p, None) => filepath_IsAbs p = true
  | (p, Some _) => p = ""
  end.
Proof.
  intros Hg. unfold resolved.
  destruct (path_IsAbs executable) eqn:Hx; [exact Hx|].
  destruct (lookPath os executable _ _) as [q [err|]]; [reflexivity|].
  destruct (filepath_Abs os q) as [p [err|]] eqn:Ha.
  - eapply filepath_Abs_error, Ha.
  - eapply filepath_Abs_absolute; eassumption.
Qed.

(** X6. [AbsolutePath] changes nothing in the store and returns either
    an absolute path with a nil error, or the empty string with the
    error of the search or of [os.Getwd]: never a relative path,
    never a path together with an error. *)
Theorem AbsolutePath_result os s executable w v e :
  shells w !! s = Some v ->
  envs w !! Shell.Env v = Some e ->
  Getwd_absolute os ->
  exists p err,
    AbsolutePath os s executable w = Done (p, err) w
    /\ match err with
       | None => filepath_IsAbs p = true
       | Some _ => p = ""
       end.
Proof.
  intros Hs He Hg.
  destruct (wp_elim (AbsolutePath os s executable)
              (fun r w' => r = resolved os e executable /\ w' = w) w)
    as (r & w' & Hrun & -> & ->).
  { eapply wp_AbsolutePath; [exact Hs | exact He |]. auto. }
  pose proof (resolved_shape os e executable Hg) as Hshape.
  destruct (resolved os e executable) as [p err].
  exists p, err. split; [exact Hrun | exact Hshape].
Qed.

Lemma AbsolutePath_result_witness :
  shells Example.booted !! Example.sh = Some Example.shell0
  /\ Getwd_absolute Example.platform
  /\ AbsolutePath Example.platform Example.sh "echo" Example.booted
     = Done ("/bin/echo", None) Example.booted
  /\ exists err,
       AbsolutePath Example.platform Example.sh "no-such-tool" Example.booted
       = Done ("", Some err) Example.booted.
Proof.
  assert (Hs : shells Example.booted !! Example.sh = Some Example.shell0)
    by reflexivity.
  assert (Hg : Getwd_absolute Example.platform).
  { intros d [= <-]. reflexivity. }
  split; [exact Hs|]. split; [exact Hg|]. split.
  - destruct (AbsolutePath_result Example.platform Example.sh "echo"
                Example.booted Example.shell0
                (env.FromSlice (os_Environ Example.platform)) Hs eq_refl Hg)
      as (p & err & Hrun & _).
    rewrite Hrun. vm_compute in Hrun. inversion Hrun. reflexivity.
  - destruct (AbsolutePath_result Example.platform Example.sh "no-such-tool"
                Example.booted Example.shell0
                (env.FromSlice (os_Environ Example.platform)) Hs eq_refl Hg)
      as (p & err & Hrun & Hshape).
    destruct err as [err|].
    + exists err. subst p. exact Hrun.
    + vm_compute in Hrun. discriminate Hrun.
Defined.

(** X7. [Chdir] changes where a command will run, not which executable
    it is: after a successful [Chdir], [buildCommand] makes a
    descriptor with the same path and arguments as before it (names
    are resolved through the environment and [os.Getwd], never through
    the shell's working directory) and with the new working directory
    as [Dir]. *)
Theorem Chdir_keeps_resolution os s path name arg w v e absPath :
  shells w !! s = Some v ->
  envs w !! Shell.Env v = Some e ->
  resolved os e name = (absPath, None) ->
  path_exists os (chdir_target v path) = true ->
  exists w0 w1 w2,
    buildCommand os s name arg w = Done (Some (next w), None) w0
    /\ cmds w0 !! next w
       = Some (built absPath arg (S (next w)) (Shell.wd v))
    /\ Chdir os s path w = Done None w1
    /\ buildCommand os s name arg w1 = Done (Some (next w), None) w2
    /\ cmds w2 !! next w
       = Some (built absPath arg (S (next w)) (chdir_target v path)).
Proof.
  intros Hs He Hres Hex.
  destruct (buildCommand_builds os s name arg w v e absPath Hs He Hres)
    as (w0 & Hb0 & Hc0 & _).
  pose proof (Chdir_eq os s path w v Hs) as Hch. cbv zeta in Hch.
  rewrite Hex in Hch.
  match type of Hch with _ = Done None ?x => set (w1 := x) in * end.
  destruct (buildCommand_builds os s name arg w1
              (Shell.set_wd v (chdir_target v path)) e absPath)
    as (w2 & Hb2 & Hc2 & _).
  { subst w1. world_simpl. apply lookup_insert_eq. }
  { exact He. }
  { exact Hres. }
  exists w0, w1, w2. repeat split; assumption.
Qed.

Lemma Chdir_keeps_resolution_witness :
  shells Example.booted !! Example.sh = Some Example.shell0
  /\ path_exists Example.platform (chdir_target Example.shell0 "src") = true
  /\ exists w1 w2,
       Chdir Example.platform Example.sh "src" Example.booted = Done None w1
       /\ buildCommand Example.platform Example.sh "echo" ["hi"] w1
          = Done (Some 3%nat, None) w2
       /\ cmds w2 !! 3%nat
          = Some (built "/bin/echo" ["hi"] 4%nat "/work/src").
Proof.
  assert (Hs : shells Example.booted !! Example.sh = Some Example.shell0)
    by reflexivity.
  split; [exact Hs|]. split; [reflexivity|].
  destruct (Chdir_keeps_resolution Example.platform Example.sh "src" "echo"
              ["hi"] Example.booted Example.shell0
              (env.FromSlice (os_Environ Example.platform)) "/bin/echo"
              Hs eq_refl eq_refl eq_refl)
    as (w0 & w1 & w2 & _ & _ & H1 & H2 & H3).
  exists w1, w2. split; [exact H1|]. split; [exact H2 | exact H3].
Defined.

(** ** [Run] and [RunAndCapture]: the other paths *)

(** X8. When the command cannot be resolved, [Run] returns the error of
    the search itself, unwrapped; it logs the prompt and then the
    error, starts no child, builds no descriptor and writes nothing. *)
Theorem Run_unresolved os s command arg world v ev p err :
  shells world !! s = Some v ->
  envs world !! Shell.Env v = Some ev ->
  resolved os ev command = (p, Some err) ->
  exists world',
    Run os s command arg world = Done (Some err) world'
    /\ events_since world world'
       = [EvLog LPrompt "%s" [ACommand command arg];
          EvLog LError "Error building command: %v" [AErr err]]
    /\ cmds world' = cmds world /\ slices world' = slices world
    /\ buffers world' = buffers world /\ next world' = next world
    /\ shells world' = shells world /\ envs world' = envs world.
Proof.
  intros Hs He Hres. apply wp_elim_eq.
  unfold Run, Promptf, Errorf, logf. wp_steps.
  eapply wp_buildCommand; [lookup_now | lookup_now |]. rewrite Hres.
  wp_steps. split; [reflexivity|].
  split; [apply events_since_app; finish|].
  repeat split; reflexivity.
Qed.

Lemma Run_unresolved_witness :
  shells Example.booted !! Example.sh = Some Example.shell0
  /\ exists err world',
       resolved Example.platform (env.FromSlice (os_Environ Example.platform))
                "no-such-tool" = ("", Some err)
       /\ Run Example.platform Example.sh "no-such-tool" [] Example.booted
          = Done (Some err) world'
       /\ GetExitCode (Some err) = 1
       /\ cmds world' = cmds Example.booted.
Proof.
  assert (Hs : shells Example.booted !! Example.sh = Some Example.shell0)
    by reflexivity.
  split; [exact Hs|].
  destruct (Run_unresolved Example.platform Example.sh "no-such-tool" []
              Example.booted Example.shell0
              (env.FromSlice (os_Environ Example.platform)) ""
              (ErrorString "executable file not found in $PATH" [])
              Hs eq_refl eq_refl)
    as (world' & Hrun & _ & Hc & _).
  eexists _, world'. split; [reflexivity|]. split; [exact Hrun|].
  split; [reflexivity | exact Hc].
Defined.



Lemma pty_events_pty debug w c p d :
  In (EvStartPTY d) (pty_events debug w c p) <-> d = c.
Proof.
  unfold pty_events. split.
  - intros H. apply in_app_or in H as [H|H].
    + destruct H as [[= ->]|[]]. reflexivity.
    + destruct (StartPTY_err p); [destruct H|].
      apply in_app_or in H as [H|H].
      * apply stream_events_only_streams in H as [id H]. discriminate.
      * apply wait_events_no_start in H as [_ H]. destruct (H d). reflexivity.
  - intros ->. left. reflexivity.
Qed.





(** What [RunAndCapture] does when the command cannot be resolved. *)
Lemma RunAndCapture_unresolved os s command arg world v ev p err :
  shells world !! s = Some v ->
  envs world !! Shell.Env v = Some ev ->
  resolved os ev command = (p, Some err) ->
  exists world',
    RunAndCapture os s command arg world = Done ("", Some err) world'
    /\ events_since world world'
       = capture_prompt (Shell.Debug v) command arg
    /\ cmds world' = cmds world /\ buffers world' = buffers world.
Proof.
  intros Hs He Hres. apply wp_elim_eq. unfold RunAndCapture. wp_steps.
  unfold capture_prompt. destruct (Shell.Debug v).
  - unfold Promptf, logf. wp_steps.
    eapply wp_buildCommand; [lookup_now | lookup_now |]. rewrite Hres.
    wp_steps. split; [reflexivity|].
    split; [apply events_since_app; reflexivity|]. split; reflexivity.
  - wp_steps.
    eapply wp_buildCommand; [lookup_now | lookup_now |]. rewrite Hres.
    wp_steps. split; [reflexivity|].
    split; [apply events_since_app; rewrite app_nil_r; reflexivity|].
    split; reflexivity.
Qed.

(** X10. [RunAndCapture] never returns output together with an error:
    when the command cannot be resolved, cannot be started or fails,
    the string it returns is empty, whatever the child had written;
    and when the command cannot be resolved the error is that of the
    resolution and no child is started at all.  (The children of the
    model exit, so the call is over; of a child that never exits
    nothing is said.) *)
Theorem RunAndCapture_error_has_no_output os s command arg world v ev :
  shells world !! s = Some v ->
  envs world !! Shell.Env v = Some ev ->
  exists out err world',
    RunAndCapture os s command arg world = Done (out, err) world'
    /\ (err <> None -> out = "")
    /\ (forall e, snd (resolved os ev command) = Some e ->
          err = Some e
          /\ forall d, ~ In (EvStart d) (events_since world world')).
Proof.
  intros Hs He.
  destruct (resolved os ev command) as [p [e|]] eqn:Hres.
  - destruct (RunAndCapture_unresolved os s command arg world v ev p e
                Hs He Hres) as (world' & Hrun & Hev & _).
    exists "", (Some e), world'. split; [exact Hrun|].
    split; [reflexivity|]. intros e' [= <-]. split; [reflexivity|].
    intros d. rewrite Hev. unfold capture_prompt.
    destruct (Shell.Debug v); cbn; intuition discriminate.
  - destruct (RunAndCapture_runs os s command arg world v ev p Hs He Hres)
      as (world' & Hrun & _).
    match type of Hrun with _ = Done ?r _ => destruct r as [out err] eqn:Hr end.
    exists out, err, world'. split; [exact Hrun|]. split.
    + intros Herr.
      match type of Hr with
        match ?x with _ => _ end = _ => destruct x
      end; inversion Hr; subst; [reflexivity | congruence].
    + intros e [=].
Qed.

Lemma RunAndCapture_error_has_no_output_witness :
  shells Example.booted !! Example.sh = Some Example.shell0
  /\ (exists err world',
        RunAndCapture (Example.exits 3) Example.sh "echo" ["hello"]
          Example.booted = Done ("", Some err) world'
        /\ GetExitCode (Some err) = 3)
  /\ exists err world',
       RunAndCapture Example.platform Example.sh "no-such-tool" []
         Example.booted = Done ("", Some err) world'.
Proof.
  assert (Hs : shells Example.booted !! Example.sh = Some Example.shell0)
    by reflexivity.
  split; [exact Hs|]. split.
  - destruct (RunAndCapture_error_has_no_output (Example.exits 3) Example.sh
                "echo" ["hello"] Example.booted Example.shell0
                (env.FromSlice (os_Environ (Example.exits 3))) Hs eq_refl)
      as (out & err & world' & Hrun & Hout & _).
    destruct err as [err|].
    + exists err, world'. rewrite (Hout ltac:(discriminate)) in Hrun.
      split; [exact Hrun|]. vm_compute in Hrun. inversion Hrun. reflexivity.
    + vm_compute in Hrun. discriminate Hrun.
  - destruct (RunAndCapture_error_has_no_output Example.platform Example.sh
                "no-such-tool" [] Example.booted Example.shell0
                (env.FromSlice (os_Environ Example.platform)) Hs eq_refl)
      as (out & err & world' & Hrun & Hout & Hres).
    destruct (Hres _ eq_refl) as [-> _].
    eexists _, world'. rewrite (Hout ltac:(discriminate)) in Hrun. exact Hrun.
Defined.

(** ** Where the child's output goes *)

Lemma Run_pipe_output os s command arg world v ev absPath :
  shells world !! s = Some v ->
  envs world !! Shell.Env v = Some ev ->
  resolved os ev command = (absPath, None) ->
  Shell.PTY v = false ->
  let n := S (S (next world)) in
  let c' := wired (built absPath arg (S (next world)) (Shell.wd v))
                  (pipe_stdout (Shell.Debug v) n (Shell.Writer v))
                  (pipe_stderr (Shell.Debug v) n) in
  let p := spawn os c' (env.ToSlice ev) in
  exists world',
    Run os s command arg world
    = Done (pipe_result p (ACommand absPath arg)) world'
    /\ events_since world world'
       = EvLog LPrompt "%s" [ACommand command arg]
         :: pipe_events (Shell.Debug v) n c' p
    /\ buffers world'
       = match Start_err p with
         | Some _ => buffers world
         | None => buffer_writes (Shell.Writer v) (stdout_bytes p)
                     (buffers world)
         end.
Proof.
  intros Hs He Hres Hpty n c' p.
  apply wp_elim_eq. unfold Run, Promptf, logf. wp_steps.
  eapply wp_buildCommand; [lookup_now | lookup_now |]. rewrite Hres.
  world_simpl. intros w' H1 H2 H3 H4 H5 H6 H7 H8.
  wp_steps. eapply wp_deref; [lookup_now|]. rewrite Hpty.
  eapply wp_executeCommand_pipe.
  { lookup_now. } { reflexivity. } { lookup_now. }
  { unfold env_of, built. lookup_now. } { reflexivity. }
  rewrite H6. fold n. cbn [built Cmd.Path]. fold c'. fold p.
  intros w2 _ _ _ _ _ Hb Htr.
  split; [reflexivity|].
  split; [apply events_since_app; rewrite Htr, H4; finish|].
  rewrite Hb, H3. reflexivity.
Qed.

(** X11. Without a PTY and without debug mode, [Run] on a shell whose
    writer is a byte sink appends the child's standard output to that
    sink and to nothing else; the child's standard error is wired to
    nothing, and no byte of either stream reaches the logger. *)
Theorem Run_drops_stderr os s command arg world v ev absPath l :
  shells world !! s = Some v ->
  envs world !! Shell.Env v = Some ev ->
  resolved os ev command = (absPath, None) ->
  Shell.PTY v = false -> Shell.Debug v = false ->
  Shell.Writer v = WBuffer l ->
  let c' := wired (built absPath arg (S (next world)) (Shell.wd v))
                  (Some (WBuffer l)) None in
  let p := spawn os c' (env.ToSlice ev) in
  exists world',
    Run os s command arg world
    = Done (pipe_result p (ACommand absPath arg)) world'
    /\ buffers world'
       = match Start_err p with
         | Some _ => buffers world
         | None => <[l := (default "" (buffers world !! l)
                           ++ stdout_bytes p)%string]> (buffers world)
         end
    /\ In (EvStart c') (events_since world world')
    /\ forall id b, ~ In (EvStream id b) (events_since world world').
Proof.
  intros Hs He Hres Hpty Hd Hw c' p.
  destruct (Run_pipe_output os s command arg world v ev absPath
              Hs He Hres Hpty) as (world' & Hrun & Hev & Hb).
  cbv zeta in Hrun, Hev, Hb. rewrite Hd, Hw in Hrun, Hev, Hb.
  cbn [pipe_stdout pipe_stderr] in Hrun, Hev, Hb.
  fold c' in Hrun, Hev, Hb. fold p in Hrun, Hev, Hb.
  exists world'. split; [exact Hrun|]. split; [exact Hb|].
  rewrite Hev. unfold pipe_events, wait_events, pipe_closes. subst c'.
  cbn [wired Cmd.Stdout Cmd.Stderr stream_events' stream_events].
  split; [right; left; reflexivity|].
  intros id b [H|H]; [discriminate|].
  destruct (Start_err p); cbn in H.
  - destruct H as [H|[]]. discriminate.
  - destruct (Wait_err p); cbn in H; intuition discriminate.
Qed.

Lemma Run_drops_stderr_witness :
  shells Example.booted !! Example.sh = Some Example.shell0
  /\ exists world',
       Run Noisy.platform Example.sh "echo" ["hello"] Example.booted
       = Done None world'
       /\ buffers world' !! 0%nat = Some "out"
       /\ forall id b,
            ~ In (EvStream id b) (events_since Example.booted world').
Proof.
  assert (Hs : shells Example.booted !! Example.sh = Some Example.shell0)
    by reflexivity.
  split; [exact Hs|].
  destruct (Run_drops_stderr Noisy.platform Example.sh "echo" ["hello"]
              Example.booted Example.shell0
              (env.FromSlice (os_Environ Noisy.platform)) "/bin/echo" 0%nat
              Hs eq_refl eq_refl eq_refl eq_refl eq_refl)
    as (world' & Hrun & Hb & _ & Hno).
  exists world'. split; [exact Hrun|].
  split; [rewrite Hb; reflexivity | exact Hno].
Defined.

Lemma wait_events_no_close debug c p id :
  ~ In (EvStreamerClose id) (wait_events debug c p).
Proof.
  unfold wait_events. intros H.
  repeat (apply in_app_or in H; destruct H as [H|H]).
  - destruct H as [H|[]]. discriminate.
  - apply stream_events'_only_streams in H as [? H]. discriminate.
  - apply stream_events'_only_streams in H as [? H]. discriminate.
  - destruct (Wait_err p); [|destruct H].
    destruct debug; [|destruct H]. destruct H as [H|[]]. discriminate.
Qed.

(** X12. In debug mode without a PTY, [Run] streams the child's
    standard output and standard error to two logger streamers, and the
    last two things it does, whether the child started or not and
    whatever its exit status, are to close the streamer of standard
    error and then that of standard output. *)
Theorem Run_debug_closes_streamers os s command arg world v ev absPath :
  shells world !! s = Some v ->
  envs world !! Shell.Env v = Some ev ->
  resolved os ev command = (absPath, None) ->
  Shell.PTY v = false -> Shell.Debug v = true ->
  let n := S (S (next world)) in
  let c' := wired (built absPath arg (S (next world)) (Shell.wd v))
                  (Some (MultiWriter (WLoggerStreamer n) (Shell.Writer v)))
                  (Some (WLoggerStreamer (S n))) in
  let p := spawn os c' (env.ToSlice ev) in
  exists world' pre,
    Run os s command arg world
    = Done (pipe_result p (ACommand absPath arg)) world'
    /\ events_since world world'
       = (pre ++ [EvStreamerClose (S n); EvStreamerClose n])%list
    /\ (forall id, ~ In (EvStreamerClose id) pre)
    /\ (Start_err p = None ->
        In (EvStream n (stdout_bytes p)) pre
        /\ In (EvStream (S n) (stderr_bytes p)) pre)
    /\ (Start_err p <> None -> forall id b, ~ In (EvStream id b) pre).
Proof.
  intros Hs He Hres Hpty Hd n c' p.
  destruct (Run_pipe_output os s command arg world v ev absPath
              Hs He Hres Hpty) as (world' & Hrun & Hev & _).
  cbv zeta in Hrun, Hev. rewrite Hd in Hrun, Hev.
  cbn [pipe_stdout pipe_stderr] in Hrun, Hev.
  fold n in Hrun, Hev. fold c' in Hrun, Hev. fold p in Hrun, Hev.
  exists world',
    (EvLog LPrompt "%s" [ACommand command arg] :: EvStart c'
     :: match Start_err p with
        | Some _ => []
        | None => wait_events true c' p
        end).
  split; [exact Hrun|]. split.
  { rewrite Hev. unfold pipe_events, pipe_closes. cbn [app].
    reflexivity. }
  split.
  { intros id [H|[H|H]]; [discriminate | discriminate |].
    destruct (Start_err p); [destruct H|].
    exact (wait_events_no_close _ _ _ _ H). }
  split.
  - intros ->. unfold wait_events. subst c'.
    cbn [wired Cmd.Stdout Cmd.Stderr stream_events' stream_events app].
    split.
    + right. right. right. left. reflexivity.
    + right. right. right. right. apply in_or_app. right.
      left. reflexivity.
  - intros Hne id b [H|[H|H]]; [discriminate | discriminate |].
    destruct (Start_err p); [destruct H | congruence].
Qed.

Lemma Run_debug_closes_streamers_witness :
  shells Verbose.world !! Example.sh = Some Verbose.shell
  /\ Shell.Debug Verbose.shell = true
  /\ exists world',
       Run Noisy.platform Example.sh "echo" ["hello"] Verbose.world
       = Done None world'
       /\ events_since Verbose.world world'
          = [EvLog LPrompt "%s" [ACommand "echo" ["hello"]];
             EvStart (wired (built "/bin/echo" ["hello"] 4%nat "/work")
                        (Some (MultiWriter (WLoggerStreamer 5%nat) os_Stdout))
                        (Some (WLoggerStreamer 6%nat)));
             EvWait (wired (built "/bin/echo" ["hello"] 4%nat "/work")
                        (Some (MultiWriter (WLoggerStreamer 5%nat) os_Stdout))
                        (Some (WLoggerStreamer 6%nat)));
             EvStream 5%nat "out"; EvStream 6%nat "err";
             EvStreamerClose 6%nat; EvStreamerClose 5%nat].
Proof.
  assert (Hs : shells Verbose.world !! Example.sh = Some Verbose.shell)
    by reflexivity.
  split; [exact Hs|]. split; [reflexivity|].
  destruct (Run_debug_closes_streamers Noisy.platform Example.sh "echo"
              ["hello"] Verbose.world Verbose.shell
              (env.FromSlice (os_Environ Noisy.platform)) "/bin/echo"
              Hs eq_refl eq_refl eq_refl eq_refl)
    as (world' & pre & Hrun & _).
  exists world'. split; [exact Hrun|].
  vm_compute in Hrun. injection Hrun as <-. reflexivity.
Defined.

(** ** [LockFile]: any behaviour of the lock *)

(** The retry loop, whatever the other holders of the lock do: it ends
    at the first attempt that succeeds or at the first check at which
    the context is done, whichever comes first. *)
Lemma LockFile_loop_total os s ctx lock absolutePathToLock v :
  forall fuel w,
    shells w !! s = Some v ->
    ctx_Err ctx (attempt_at (now w) fuel) <> None ->
    (1 <= fuel)%nat ->
    wp (LockFile_loop os fuel s ctx lock absolutePathToLock None)
       (fun r w' =>
          exists (n : nat) evs,
            now w' = attempt_at (now w) n
            /\ shells w' = shells w
            /\ trace w' = (trace w ++ evs)%list
            /\ sleeps evs = repeat lockRetryDuration n
            /\ (forall k, (k < n)%nat ->
                          TryLock os lock (attempt_at (now w) k) <> None)
            /\ (forall k, (1 <= k < n)%nat ->
                          ctx_Err ctx (attempt_at (now w) k) = None)
            /\ ((r = (Some lock, None)
                 /\ (n < fuel)%nat
                 /\ TryLock os lock (now w') = None
                 /\ (n <> 0%nat -> ctx_Err ctx (now w') = None)
                 /\ lock_attempts evs
                    = map (attempt_at (now w)) (seq 0 (S n)))
                \/ (exists e,
                      r = (None, Some e)
                      /\ (1 <= n <= fuel)%nat
                      /\ ctx_Err ctx (now w') = Some e
                      /\ lock_attempts evs
                         = map (attempt_at (now w)) (seq 0 n))))
       w.
Proof.
  induction fuel as [|fuel IH]; intros w Hs Hdone Hfuel; [lia|].
  cbn [LockFile_loop]. unfold lock_TryLock. wp_steps.
  destruct (TryLock os lock (now w)) as [e0|] eqn:Htry.
  2:{ wp_steps. hnf. exists 0%nat, [EvTryLock lock (now w)].
      world_simpl. rewrite attempt_at_0.
      split; [reflexivity|]. split; [reflexivity|]. split; [reflexivity|].
      split; [reflexivity|]. split; [intros k Hk; lia|].
      split; [intros k Hk; lia|]. left.
      split; [reflexivity|]. split; [lia|]. split; [exact Htry|].
      split; [intros H; congruence|].
      cbn [seq map lock_attempts]. rewrite attempt_at_0. reflexivity. }
  unfold Commentf, logf, time_Sleep. wp_steps.
  rewrite Z.max_r by (pose proof lockRetryDuration_pos; lia).
  set (w1 := with_now _ _).
  assert (Hnow1 : now w1 = now w + lockRetryDuration) by reflexivity.
  assert (Htr1 : exists evs1,
             trace w1 = (trace w ++ evs1)%list
             /\ lock_attempts evs1 = [now w]
             /\ sleeps evs1 = [lockRetryDuration]).
  { eexists. subst w1. world_simpl. rewrite <- !app_assoc. cbn [app].
    split; [reflexivity|]. split; reflexivity. }
  destruct Htr1 as (evs1 & Htr1 & Hat1 & Hsl1).
  assert (Hs1 : shells w1 = shells w) by reflexivity.
  assert (Hbusy0 : TryLock os lock (attempt_at (now w) 0) <> None)
    by (rewrite attempt_at_0, Htry; discriminate).
  rewrite <- Hnow1. clearbody w1.
  destruct (ctx_Err ctx (now w1)) as [e|] eqn:Herr.
  - wp_steps. hnf. exists 1%nat, evs1.
    split; [rewrite Hnow1, attempt_at_1; reflexivity|].
    split; [exact Hs1|]. split; [exact Htr1|]. split; [exact Hsl1|].
    split; [intros k Hk; replace k with 0%nat by lia; exact Hbusy0|].
    split; [intros k Hk; lia|]. right. exists e.
    split; [reflexivity|]. split; [lia|]. split; [exact Herr|].
    rewrite Hat1. cbn [seq map]. rewrite attempt_at_0. reflexivity.
  - assert (Hf : (1 <= fuel)%nat).
    { destruct fuel; [|lia]. exfalso. apply Hdone.
      rewrite attempt_at_1, <- Hnow1. exact Herr. }
    eapply wp_mono.
    { apply IH; [rewrite Hs1; exact Hs | | exact Hf].
      rewrite Hnow1, attempt_at_S. exact Hdone. }
    cbv beta. intros r w' (n & evs & Hnow & Hsh & Htr & Hsl & Hbusy & Hfirst
                           & Hres).
    exists (S n), (evs1 ++ evs)%list.
    split; [rewrite Hnow, Hnow1; apply attempt_at_S|].
    split; [congruence|].
    split; [rewrite Htr, Htr1, app_assoc; reflexivity|].
    split; [rewrite sleeps_app, Hsl1, Hsl; reflexivity|].
    split.
    { intros k Hk. destruct k as [|k]; [exact Hbusy0|].
      rewrite <- attempt_at_S, <- Hnow1. apply Hbusy. lia. }
    split.
    { intros k Hk. destruct k as [|k]; [lia|].
      destruct k as [|k].
      - rewrite attempt_at_1, <- Hnow1. exact Herr.
      - rewrite <- attempt_at_S, <- Hnow1. apply Hfirst. lia. }
    assert (Hshift : forall m,
               (lock_attempts evs = map (attempt_at (now w1)) (seq 0 m)) ->
               lock_attempts (evs1 ++ evs)
               = map (attempt_at (now w)) (seq 0 (S m))).
    { intros m Hat. rewrite lock_attempts_app, Hat1, Hat, Hnow1, attempts_shift.
      cbn [seq map app]. rewrite attempt_at_0. reflexivity. }
    destruct Hres as [(-> & Hn & Hfree & Hctx & Hat)
                     |(e & -> & Hn & Hctx & Hat)].
    + left. split; [reflexivity|]. split; [lia|]. split; [exact Hfree|].
      split; [|apply Hshift, Hat].
      intros _. destruct n as [|n]; [|apply Hctx; lia].
      rewrite Hnow, attempt_at_0. exact Herr.
    + right. exists e. split; [reflexivity|]. split; [lia|].
      split; [exact Hctx|]. apply Hshift, Hat.
Qed.

(** [LockFile] under the same reading, from the call on. *)
Lemma LockFile_total os fuel s path timeout world v lock :
  shells world !! s = Some v ->
  filepath_Abs os path = (lock, None) ->
  filepath_IsAbs lock = true ->
  (Z.to_nat (timeout / lockRetryDuration) + 1 <= fuel)%nat ->
  let start := now world in
  let ctx := context_WithTimeout (Shell.ctx v) timeout start in
  let bound := (Z.to_nat (timeout / lockRetryDuration) + 1)%nat in
  exists r (n : nat) world',
    LockFile os fuel s path timeout world = Done r world'
    /\ (n <= bound)%nat
    /\ now world' = attempt_at start n
    /\ sleeps (events_since world world') = repeat lockRetryDuration n
    /\ (forall k, (k < n)%nat -> TryLock os lock (attempt_at start k) <> None)
    /\ (forall k, (1 <= k < n)%nat -> ctx_Err ctx (attempt_at start k) = None)
    /\ ((r = (Some lock, None)
         /\ TryLock os lock (now world') = None
         /\ (n <> 0%nat -> ctx_Err ctx (now world') = None)
         /\ lock_attempts (events_since world world')
            = map (attempt_at start) (seq 0 (S n)))
        \/ (exists e,
              r = (None, Some e)
              /\ (1 <= n)%nat
              /\ ctx_Err ctx (now world') = Some e
              /\ (e = Canceled \/ e = DeadlineExceeded)
              /\ lock_attempts (events_since world world')
                 = map (attempt_at start) (seq 0 n))).
Proof.
  intros Hs Habs Hisabs Hfuel start ctx bound.
  destruct (WithTimeout_done (Shell.ctx v) timeout start)
    as (t0 & e0 & Hdone & Ht0). fold ctx in Hdone.
  assert (Hcover : forall f, (bound <= f)%nat ->
                     ctx_Err ctx (attempt_at start f) = Some e0).
  { intros f Hf. apply ctx_Err_Some. exists t0. split; [exact Hdone|].
    pose proof (fuel_covers_timeout timeout f Hf).
    unfold attempt_at. lia. }
  assert (Hearly : forall k, ctx_Err ctx (attempt_at start k) = None ->
                     (k < bound)%nat).
  { intros k Hk. destruct (Nat.lt_ge_cases k bound) as [H|H]; [exact H|].
    rewrite (Hcover k H) in Hk. discriminate. }
  destruct (wp_elim (LockFile os fuel s path timeout) _ world
              ltac:(unfold LockFile; rewrite Habs; unfold lockfile_New;
                    rewrite Hisabs; cbn [negb]; wp_steps;
                    apply (LockFile_loop_total os s ctx lock lock v fuel world
                             Hs);
                    [fold start; rewrite (Hcover fuel Hfuel); discriminate
                    |unfold bound in Hfuel; lia]))
    as (r & world' & Hrun & n & evs & Hnow & _ & Htr & Hsl & Hbusy & Hfirst
        & Hres).
  apply events_since_app in Htr. fold start in Hnow, Hbusy, Hfirst, Hres.
  exists r, n, world'. split; [exact Hrun|].
  assert (Hn : (n <= bound)%nat).
  { destruct Hres as [(_ & _ & _ & Hctx & _)|(e & _ & Hn & Hctx & _)].
    - destruct n as [|n]; [lia|]. specialize (Hctx ltac:(lia)).
      rewrite Hnow in Hctx. apply Hearly in Hctx. lia.
    - destruct (Nat.eq_dec n 1%nat) as [->|Hn1]; [unfold bound; lia|].
      assert (H : ctx_Err ctx (attempt_at start (n - 1)) = None)
        by (apply Hfirst; lia).
      apply Hearly in H. lia. }
  split; [exact Hn|]. split; [exact Hnow|].
  split; [rewrite Htr; exact Hsl|]. split; [exact Hbusy|].
  split; [exact Hfirst|].
  destruct Hres as [(-> & _ & Hfree & Hctx & Hat)|(e & -> & Hn1 & Hctx & Hat)].
  - left. rewrite Htr. auto.
  - right. exists e. rewrite Htr. split; [reflexivity|]. split; [lia|].
    split; [exact Hctx|]. split; [|exact Hat].
    apply ctx_Err_Some in Hctx as (t1 & Hd1 & _).
    eapply done_at_error, Hd1.
Qed.

(** X13. Whatever the other holders of the lock do, [LockFile] returns,
    after a number of one-second sleeps bounded by the timeout.  It
    returns either the lock and a nil error, at the first attempt that
    succeeds, or no lock and the error of the context
    ([context.Canceled] or [context.DeadlineExceeded]), at the first
    check after a failed attempt at which the context is done: never
    both, never neither. *)
Theorem LockFile_returns os fuel s path timeout world v lock :
  shells world !! s = Some v ->
  filepath_Abs os path = (lock, None) ->
  filepath_IsAbs lock = true ->
  (Z.to_nat (timeout / lockRetryDuration) + 1 <= fuel)%nat ->
  let start := now world in
  let ctx := context_WithTimeout (Shell.ctx v) timeout start in
  let bound := (Z.to_nat (timeout / lockRetryDuration) + 1)%nat in
  exists r (n : nat) world',
    LockFile os fuel s path timeout world = Done r world'
    /\ (n <= bound)%nat
    /\ now world' = attempt_at start n
    /\ sleeps (events_since world world') = repeat lockRetryDuration n
    /\ (forall k, (k < n)%nat -> TryLock os lock (attempt_at start k) <> None)
    /\ (forall k, (1 <= k < n)%nat -> ctx_Err ctx (attempt_at start k) = None)
    /\ ((r = (Some lock, None)
         /\ TryLock os lock (now world') = None
         /\ (n <> 0%nat -> ctx_Err ctx (now world') = None)
         /\ lock_attempts (events_since world world')
            = map (attempt_at start) (seq 0 (S n)))
        \/ (exists e,
              r = (None, Some e)
              /\ (1 <= n)%nat
              /\ ctx_Err ctx (now world') = Some e
              /\ (e = Canceled \/ e = DeadlineExceeded)
              /\ lock_attempts (events_since world world')
                 = map (attempt_at start) (seq 0 n))).
Proof. exact (LockFile_total os fuel s path timeout world v lock). Qed.

Lemma LockFile_returns_witness :
  shells Example.booted !! Example.sh = Some Example.shell0
  /\ filepath_Abs Contended.platform "agent.lock" = ("/work/agent.lock", None)
  /\ (exists world',
        LockFile Contended.platform 61 Example.sh "agent.lock" 60000000000
          Example.booted = Done (Some "/work/agent.lock", None) world'
        /\ now world' = 3000000000)
  /\ exists world',
       LockFile Contended.platform 3 Example.sh "agent.lock" 2000000000
         Example.booted = Done (None, Some DeadlineExceeded) world'
       /\ now world' = 2000000000.
Proof.
  assert (Hs : shells Example.booted !! Example.sh = Some Example.shell0)
    by reflexivity.
  split; [exact Hs|]. split; [reflexivity|]. split.
  - destruct (LockFile_returns Contended.platform 61 Example.sh "agent.lock"
                60000000000 Example.booted Example.shell0 "/work/agent.lock"
                Hs eq_refl eq_refl ltac:(vm_compute; lia))
      as (r & n & world' & Hrun & _).
    exists world'. vm_compute in Hrun. injection Hrun as <- <-.
    split; reflexivity.
  - destruct (LockFile_returns Contended.platform 3 Example.sh "agent.lock"
                2000000000 Example.booted Example.shell0 "/work/agent.lock"
                Hs eq_refl eq_refl ltac:(vm_compute; lia))
      as (r & n & world' & Hrun & _).
    exists world'. vm_compute in Hrun. injection Hrun as <- <-.
    split; reflexivity.
Defined.

(** X14. A lock that is held until the instant [T] and free from then
    on is acquired by [LockFile] less than one retry interval after
    [T], provided the context is not done by then: the call returns the
    lock and a nil error. *)
Theorem LockFile_acquires os fuel s path timeout world v lock T :
  shells world !! s = Some v ->
  filepath_Abs os path = (lock, None) ->
  filepath_IsAbs lock = true ->
  (Z.to_nat (timeout / lockRetryDuration) + 1 <= fuel)%nat ->
  now world <= T ->
  (forall t, now world <= t < T -> TryLock os lock t <> None) ->
  (forall t, T <= t -> TryLock os lock t = None) ->
  ctx_Err (context_WithTimeout (Shell.ctx v) timeout (now world))
          (T + lockRetryDuration) = None ->
  exists world',
    LockFile os fuel s path timeout world = Done (Some lock, None) world'
    /\ T <= now world' < T + lockRetryDuration
    /\ (exists n : nat,
          now world' = attempt_at (now world) n
          /\ lock_attempts (events_since world world')
             = map (attempt_at (now world)) (seq 0 (S n))
          /\ sleeps (events_since world world') = repeat lockRetryDuration n).
Proof.
  intros Hs Habs Hisabs Hfuel HT Hheld Hfree Hctx.
  destruct (LockFile_total os fuel s path timeout world v lock
              Hs Habs Hisabs Hfuel)
    as (r & n & world' & Hrun & _ & Hnow & Hsl & Hbusy & _ & Hres).
  pose proof lockRetryDuration_pos as Hd.
  assert (Hlast : n <> 0%nat -> attempt_at (now world) (n - 1) < T).
  { intros Hn.
    destruct (Z.lt_ge_cases (attempt_at (now world) (n - 1)) T) as [H|H];
      [exact H|].
    destruct (Hbusy (n - 1)%nat ltac:(lia)). apply Hfree. exact H. }
  assert (Hupper : now world' < T + lockRetryDuration).
  { rewrite Hnow. destruct n as [|n]; [rewrite attempt_at_0; lia|].
    specialize (Hlast ltac:(lia)).
    replace (S n - 1)%nat with n in Hlast by lia.
    unfold attempt_at in *. lia. }
  destruct Hres as [(-> & Hfree' & _ & Hat)|(e & -> & Hn & Herr & _)].
  - exists world'. split; [exact Hrun|]. split.
    + split; [|exact Hupper].
      destruct (Z.le_gt_cases T (now world')) as [H|H]; [exact H|].
      destruct (Hheld (now world')); [|exact Hfree'].
      rewrite Hnow in *. unfold attempt_at in *. lia.
    + exists n. auto.
  - exfalso.
    rewrite (ctx_Err_mono _ _ (T + lockRetryDuration) _ Herr) in Hctx;
      [discriminate | lia].
Qed.

Lemma LockFile_acquires_witness :
  shells Example.booted !! Example.sh = Some Example.shell0
  /\ ctx_Err (context_WithTimeout (Shell.ctx Example.shell0) 60000000000
                (now Example.booted))
             (Contended.released + lockRetryDuration) = None
  /\ exists world',
       LockFile Contended.platform 61 Example.sh "agent.lock" 60000000000
         Example.booted = Done (Some "/work/agent.lock", None) world'
       /\ Contended.released <= now world'
          < Contended.released + lockRetryDuration.
Proof.
  assert (Hs : shells Example.booted !! Example.sh = Some Example.shell0)
    by reflexivity.
  split; [exact Hs|]. split; [reflexivity|].
  destruct (LockFile_acquires Contended.platform 61 Example.sh "agent.lock"
              60000000000 Example.booted Example.shell0 "/work/agent.lock"
              Contended.released Hs eq_refl eq_refl)
    as (world' & Hrun & Hwhen & _).
  - vm_compute. lia.
  - vm_compute. discriminate.
  - intros t Ht. cbn. unfold Contended.held.
    destruct (Z.ltb_spec t Contended.released); [discriminate|lia].
  - intros t Ht. cbn. unfold Contended.held.
    destruct (Z.ltb_spec t Contended.released); [lia|reflexivity].
  - reflexivity.
  - exists world'. split; [exact Hrun | exact Hwhen].
Defined.

(** One round of the retry loop. *)
Lemma LockFile_loop_step os fuel s ctx lock absolutePathToLock err w v :
  shells w !! s = Some v ->
  (TryLock os lock (now w) = None
   /\ exists w',
        LockFile_loop os (S fuel) s ctx lock absolutePathToLock err w
        = Done (Some lock, err) w'
        /\ now w' = now w /\ shells w' = shells w
        /\ trace w' = (trace w ++ [EvTryLock lock (now w)])%list)
  \/ (exists e w1 evs,
        TryLock os lock (now w) = Some e
        /\ now w1 = now w + lockRetryDuration
        /\ shells w1 = shells w
        /\ trace w1 = (trace w ++ EvTryLock lock (now w) :: evs)%list
        /\ evs = [EvLog LComment
                    ("Could not acquire lock on " ++ dq ++ "%s" ++ dq
                     ++ " (%s)")%string [AStr absolutePathToLock; AErr e];
                  EvLog LComment "Trying again in %s..."
                    [ADuration lockRetryDuration];
                  EvSleep lockRetryDuration]
        /\ LockFile_loop os (S fuel) s ctx lock absolutePathToLock err w
           = match ctx_Err ctx (now w1) with
             | Some e' => Done (None, Some e') w1
             | None =>
                 LockFile_loop os fuel s ctx lock absolutePathToLock err w1
             end).
Proof.
  intros Hs. cbn [LockFile_loop].
  unfold lock_TryLock, Commentf, logf, time_Sleep. unfold_M.
  unfold modify, deref. cbn beta iota. world_simpl. destruct (TryLock os lock (now w)) as [e|].
  - right. do 4 (world_simpl; rewrite ?Hs; cbn beta iota).
    rewrite Z.max_r by (pose proof lockRetryDuration_pos; lia).
    lazymatch goal with
    | |- context [with_now ?t ?x] => exists e, (with_now t x)
    end.
    eexists. split; [reflexivity|].
    refine (conj _ (conj _ (conj _ (conj eq_refl _)))).
    + reflexivity.
    + reflexivity.
    + world_simpl. rewrite <- !app_assoc. reflexivity.
    + world_simpl. destruct (ctx_Err ctx _); reflexivity.
  - left. split; [reflexivity|]. eexists. split; [reflexivity|].
    world_simpl. auto.
Qed.

(** The retry loop reads the clock and the lock, and nothing of the
    shell. *)
Lemma LockFile_loop_sim os s ctx lock absolutePathToLock err :
  forall fuel w w2 v v2 r w',
    shells w !! s = Some v -> shells w2 !! s = Some v2 ->
    now w2 = now w ->
    LockFile_loop os fuel s ctx lock absolutePathToLock err w = Done r w' ->
    exists w2' evs,
      LockFile_loop os fuel s ctx lock absolutePathToLock err w2 = Done r w2'
      /\ now w2' = now w'
      /\ trace w' = (trace w ++ evs)%list
      /\ trace w2' = (trace w2 ++ evs)%list.
Proof.
  induction fuel as [|fuel IH]; intros w w2 v v2 r w' Hs Hs2 Hnow Hrun;
    [discriminate Hrun|].
  destruct (LockFile_loop_step os fuel s ctx lock absolutePathToLock err
              w v Hs)
    as [(Hfree & w0 & Hrun0 & Hn0 & _ & Ht0)
       |(e & w1 & evs1 & Hbusy & Hn1 & Hsh1 & Ht1 & Hevs1 & Hrun1)];
    destruct (LockFile_loop_step os fuel s ctx lock absolutePathToLock err
                w2 v2 Hs2)
      as [(Hfree2 & w0' & Hrun0' & Hn0' & _ & Ht0')
         |(e2 & w1' & evs1' & Hbusy2 & Hn1' & Hsh1' & Ht1' & Hevs & Hrun1')];
    rewrite Hnow in *; try congruence.
  - rewrite Hrun0 in Hrun. injection Hrun as <- <-.
    exists w0', [EvTryLock lock (now w)]. split; [exact Hrun0'|].
    split; [congruence|]. split; [exact Ht0 | exact Ht0'].
  - assert (e2 = e) as -> by congruence. clear Hbusy2.
    rewrite <- Hevs1 in Hevs. subst evs1'.
    rewrite Hrun1 in Hrun. rewrite Hrun1'.
    assert (Hn : now w1' = now w1) by congruence. rewrite Hn.
    destruct (ctx_Err ctx (now w1)) as [e'|].
    + injection Hrun as <- <-.
      exists w1', (EvTryLock lock (now w) :: evs1).
      split; [reflexivity|]. split; [exact Hn|]. split; [exact Ht1|exact Ht1'].
    + destruct (IH w1 w1' v v2 r w' ltac:(congruence) ltac:(congruence)
                  Hn Hrun) as (w2' & evs & Hrun2 & Hn2 & Ht & Ht2).
      exists w2', ((EvTryLock lock (now w) :: evs1) ++ evs)%list.
      split; [exact Hrun2|]. split; [exact Hn2|].
      rewrite Ht, Ht2, Ht1, Ht1', !app_assoc. split; reflexivity.
Qed.

Lemma events_since_refl w : events_since w w = [].
Proof. unfold events_since. apply drop_all. Qed.

(** X15. [LockFile] does not look at the working directory of the
    shell: a relative lock path is resolved against the working
    directory of the process.  In the store [Chdir] leaves, a call
    returns what it returns in the store before, at the same instant
    and with the same attempts and log lines. *)
Theorem LockFile_ignores_shell_wd os fuel s path timeout world v dir r world1 :
  shells world !! s = Some v ->
  LockFile os fuel s path timeout world = Done r world1 ->
  let moved := with_shells <[s := Shell.set_wd v dir]> world in
  exists world2,
    LockFile os fuel s path timeout moved = Done r world2
    /\ now world2 = now world1
    /\ events_since moved world2 = events_since world world1.
Proof.
  intros Hs Hrun moved. unfold LockFile in *.
  destruct (filepath_Abs os path) as [a [e|]].
  { injection Hrun as <- <-. exists moved. split; [reflexivity|].
    split; [reflexivity|]. rewrite !events_since_refl. reflexivity. }
  destruct (lockfile_New a) as [lock [e|]].
  { injection Hrun as <- <-. exists moved. split; [reflexivity|].
    split; [reflexivity|]. rewrite !events_since_refl. reflexivity. }
  assert (Hs2 : shells moved !! s = Some (Shell.set_wd v dir))
    by (subst moved; world_simpl; apply lookup_insert_eq).
  rewrite (bind_eq _ _ _ _ _ (deref_eq shells s world v Hs)) in Hrun.
  rewrite (bind_eq _ _ _ _ _ (deref_eq shells s moved _ Hs2)).
  unfold mbind, M_bind, bind, get in *. cbn [Shell.set_wd Shell.ctx].
  change (now moved) with (now world).
  destruct (LockFile_loop_sim os s _ lock a None fuel world moved v _ r world1
              Hs Hs2 eq_refl Hrun) as (world2 & evs & Hrun2 & Hn & Ht & Ht2).
  exists world2. split; [exact Hrun2|]. split; [exact Hn|].
  rewrite (events_since_app _ _ _ Ht), (events_since_app _ _ _ Ht2).
  reflexivity.
Qed.

Lemma LockFile_ignores_shell_wd_witness :
  shells Example.booted !! Example.sh = Some Example.shell0
  /\ exists world1 world2,
       LockFile Contended.platform 61 Example.sh "agent.lock" 60000000000
         Example.booted = Done (Some "/work/agent.lock", None) world1
       /\ LockFile Contended.platform 61 Example.sh "agent.lock" 60000000000
            (with_shells <[Example.sh := Shell.set_wd Example.shell0 "/tmp"]>
               Example.booted)
          = Done (Some "/work/agent.lock", None) world2
       /\ now world2 = now world1.
Proof.
  assert (Hs : shells Example.booted !! Example.sh = Some Example.shell0)
    by reflexivity.
  split; [exact Hs|].
  destruct (LockFile Contended.platform 61 Example.sh "agent.lock"
              60000000000 Example.booted) as [r world1| |] eqn:Hrun;
    try (vm_compute in Hrun; discriminate Hrun).
  destruct (LockFile_ignores_shell_wd Contended.platform 61 Example.sh
              "agent.lock" 60000000000 Example.booted Example.shell0 "/tmp"
              r world1 Hs Hrun) as (world2 & Hrun2 & Hn & _).
  exists world1, world2.
  assert (Hr : r = (Some "/work/agent.lock", None)).
  { vm_compute in Hrun. injection Hrun as <- _. reflexivity. }
  rewrite <- Hr. split; [reflexivity|]. split; [exact Hrun2 | exact Hn].
Defined.

(** ** [RunScript] *)

Ltac wp_go :=
  repeat (first [wp_step | eapply wp_deref; [lookup_now|]]; world_simpl).

Lemma RunScript_unix os GOOS s path extra world v ev ex :
  (GOOS =? "windows")%string = false ->
  shells world !! s = Some v ->
  envs world !! Shell.Env v = Some ev ->
  envs world !! extra = Some ex ->
  (extra < next world)%nat ->
  let n := next world in
  let c := script_cmd path n (Shell.wd v) in
  let c' := wired c (pipe_stdout (Shell.Debug v) (5 + n)%nat (Shell.Writer v))
                  (pipe_stderr (Shell.Debug v) (5 + n)%nat) in
  let E := env.ToSlice (script_env ev ex) in
  let cmdStr := ACommand "/bin/bash" ["-c"; path] in
  exists world',
    RunScript os GOOS s path extra world
    = Done (if Shell.PTY v then pty_result (spawn os c E) cmdStr
            else pipe_result (spawn os c' E) cmdStr) world'
    /\ shells world' = shells world
    /\ envs world'
       = <[(3 + n)%nat := script_env ev ex]>
           (<[(2 + n)%nat := env.FromSlice (env.ToSlice ev)]> (envs world))
    /\ slices world'
       = <[(4 + n)%nat := E]> (<[S n := env.ToSlice ev]> (slices world))
    /\ cmds world'
       = <[n := if Shell.PTY v then c else c']> (cmds world)
    /\ events_since world world'
       = EvLog LPrompt "%s" [cmdStr]
         :: (if Shell.PTY v
             then pty_events (Shell.Debug v) (Shell.Writer v) c (spawn os c E)
             else pipe_events (Shell.Debug v) (5 + n)%nat c' (spawn os c' E)).
Proof.
  intros Hgoos Hs He Hx Hlt n c c' E cmdStr.
  apply wp_elim_eq. unfold RunScript. rewrite Hgoos.
  unfold Promptf, logf. wp_steps.
  eapply wp_buildCommand; [lookup_now | lookup_now |].
  change (resolved os ev "/bin/bash") with ("/bin/bash", @None error).
  world_simpl. intros w' H1 H2 H3 H4 H5 H6 H7 H8.
  wp_go.
  eapply wp_deref.
  { world_simpl. rewrite lookup_insert_ne by lia. rewrite H2. exact Hx. }
  wp_go. rewrite H6. fold n.
  destruct (Shell.PTY v) eqn:Hpty.
  - eapply (wp_executeCommand_pty os s n (Shell.Writer v) _ c "/bin/bash"
              ["-c"; path] v E).
    { world_simpl. apply lookup_insert_eq. }
    { reflexivity. }
    { world_simpl. rewrite H1. exact Hs. }
    { unfold env_of. world_simpl. cbn [c script_cmd Cmd.Env].
      apply lookup_insert_eq. }
    { reflexivity. }
    world_simpl. intros w2 G1 G2 G3 G4 G5 G6 G7 G8.
    split; [reflexivity|]. split; [congruence|].
    split; [rewrite G2, H2; reflexivity|].
    split; [rewrite G3, H8; reflexivity|].
    split; [rewrite G5, H7; apply insert_insert_eq|].
    apply events_since_app. rewrite G8, H4. finish.
  - eapply (wp_executeCommand_pipe os s n (Shell.Writer v) _ c "/bin/bash"
              ["-c"; path] v E).
    { world_simpl. apply lookup_insert_eq. }
    { reflexivity. }
    { world_simpl. rewrite H1. exact Hs. }
    { unfold env_of. world_simpl. cbn [c script_cmd Cmd.Env].
      apply lookup_insert_eq. }
    { reflexivity. }
    world_simpl. intros w2 G1 G2 G3 G4 G5 G6 G7.
    split; [reflexivity|]. split; [congruence|].
    split; [rewrite G2, H2; reflexivity|].
    split; [rewrite G3, H8; reflexivity|].
    split; [rewrite G5, H7; unfold n; rewrite !insert_insert_eq; reflexivity|].
    apply events_since_app. rewrite G7, H4. finish.
Qed.

(** *** The environment container *)

Lemma env_Get_Set_eq e k v : env.Get (env.Set_ e k v) k = (v, true).
Proof.
  induction e as [|[k0 v0] e IH]; cbn.
  - rewrite String.eqb_refl. reflexivity.
  - destruct (k0 =? k)%string eqn:E; cbn; rewrite E; [reflexivity | exact IH].
Qed.

Lemma env_Get_Set_ne e k v k' :
  k <> k' -> env.Get (env.Set_ e k v) k' = env.Get e k'.
Proof.
  intros Hne. induction e as [|[k0 v0] e IH]; cbn.
  - rewrite (proj2 (String.eqb_neq k k') Hne). reflexivity.
  - destruct (k0 =? k)%string eqn:E; cbn.
    + apply String.eqb_eq in E. subst k0.
      rewrite (proj2 (String.eqb_neq k k') Hne). reflexivity.
    + destruct (k0 =? k')%string; [reflexivity | exact IH].
Qed.

Lemma env_Set_fresh e k v :
  ~ In k (map fst e) -> env.Set_ e k v = (e ++ [(k, v)])%list.
Proof.
  induction e as [|[k0 v0] e IH]; cbn; intros H; [reflexivity|].
  destruct (k0 =? k)%string eqn:E.
  - apply String.eqb_eq in E. tauto.
  - rewrite IH by tauto. reflexivity.
Qed.

(** Entries of [other] win; the other names keep what they had. *)
Lemma env_Get_Merge_other e other k :
  ~ In k (map fst other) -> env.Get (env_Merge e other) k = env.Get e k.
Proof.
  revert e. induction other as [|[k0 v0] other IH]; intros e H;
    [reflexivity|].
  cbn in H. unfold env_Merge in *. cbn [fold_left fst snd].
  rewrite IH by tauto. apply env_Get_Set_ne. tauto.
Qed.

Lemma env_Get_Merge_extra e other k v :
  List.NoDup (map fst other) -> In (k, v) other ->
  env.Get (env_Merge e other) k = (v, true).
Proof.
  revert e. induction other as [|[k0 v0] other IH]; intros e Hnd Hin;
    [destruct Hin|].
  cbn in Hnd. apply List.NoDup_cons_iff in Hnd as [Hfresh Hnd].
  change (env_Merge e ((k0, v0) :: other))
    with (env_Merge (env.Set_ e k0 v0) other).
  destruct Hin as [[= -> ->]|Hin].
  - rewrite env_Get_Merge_other by exact Hfresh. apply env_Get_Set_eq.
  - apply IH; assumption.
Qed.

Lemma split_entry_cons c rest :
  c <> "="%char ->
  env.split_entry (String c rest)
  = let (k, v) := env.split_entry rest in (String c k, v).
Proof.
  intros H. destruct c as [[] [] [] [] [] [] [] []];
    try reflexivity; congruence.
Qed.

Lemma plain_key_cons c rest :
  plain_key (String c rest) = true -> c <> "="%char /\ plain_key rest = true.
Proof.
  destruct c as [[] [] [] [] [] [] [] []]; cbn; intros H;
    (split; [discriminate | exact H]) || discriminate H.
Qed.

Lemma split_entry_join k v :
  plain_key k = true -> env.split_entry (k ++ "=" ++ v) = (k, v).
Proof.
  induction k as [|c k IH]; intros H; [reflexivity|].
  apply plain_key_cons in H as [Hc Hk].
  rewrite append_cons, split_entry_cons by exact Hc.
  rewrite IH by exact Hk. reflexivity.
Qed.

Lemma FromSlice_ToSlice_from acc e :
  List.NoDup (map fst (acc ++ e)) ->
  List.Forall (fun kv => plain_key (fst kv) = true) e ->
  fold_left (fun e kv => let (k, v) := env.split_entry kv in env.Set_ e k v)
            (env.ToSlice e) acc
  = (acc ++ e)%list.
Proof.
  revert acc. induction e as [|[k v] e IH]; intros acc Hnd Hp; cbn.
  - rewrite app_nil_r. reflexivity.
  - apply List.Forall_cons_iff in Hp as [Hk Hp]. cbn in Hk.
    rewrite split_entry_join by exact Hk.
    assert (Hfresh : ~ In k (map fst acc)).
    { rewrite map_app in Hnd. cbn in Hnd.
      apply List.NoDup_remove_2 in Hnd. intros H. apply Hnd.
      apply in_or_app. left. exact H. }
    rewrite env_Set_fresh by exact Hfresh.
    rewrite IH; [rewrite <- app_assoc; reflexivity | | exact Hp].
    rewrite <- app_assoc. exact Hnd.
Qed.

(** Flattening a container and reading it back gives the container. *)
Lemma FromSlice_ToSlice e : env_wf e -> env.FromSlice (env.ToSlice e) = e.
Proof.
  intros [Hnd Hp]. unfold env.FromSlice.
  apply (FromSlice_ToSlice_from [] e); assumption.
Qed.

(** *** What is run, and where *)






(** X17. The environment of the script is that of the shell with the
    extra entries set: a name of the extra environment has the value
    given there, whatever the shell had for it, and every other name
    has the value it has in the shell.  The child is handed that
    environment, flattened. *)
Theorem RunScript_environment os GOOS s path extra world v ev ex :
  (GOOS =? "windows")%string = false ->
  shells world !! s = Some v ->
  envs world !! Shell.Env v = Some ev ->
  envs world !! extra = Some ex ->
  (extra < next world)%nat ->
  env_wf ev -> List.NoDup (map fst ex) ->
  let cmdStr := ACommand "/bin/bash" ["-c"; path] in
  exists world' c0 sl merged,
    let p := spawn os c0 (env.ToSlice merged) in
    RunScript os GOOS s path extra world
    = Done (if Shell.PTY v then pty_result p cmdStr
            else pipe_result p cmdStr) world'
    /\ starts c0 (events_since world world')
    /\ Cmd.Env c0 = Some sl
    /\ slices world' !! sl = Some (env.ToSlice merged)
    /\ (forall k val, In (k, val) ex -> env.Get merged k = (val, true))
    /\ (forall k, ~ In k (map fst ex) -> env.Get merged k = env.Get ev k).
Proof.
  intros Hgoos Hs He Hx Hlt Hwf Hnd cmdStr.
  destruct (RunScript_unix os GOOS s path extra world v ev ex
              Hgoos Hs He Hx Hlt)
    as (world' & Hrun & _ & _ & Hsl & _ & Hev).
  cbv zeta in Hrun, Hsl, Hev.
  set (c := script_cmd path (next world) (Shell.wd v)) in *.
  assert (Hm : script_env ev ex = env_Merge ev ex)
    by (unfold script_env; rewrite FromSlice_ToSlice by exact Hwf;
        reflexivity).
  rewrite Hm in *.
  assert (Hslice : slices world' !! (4 + next world)%nat
                   = Some (env.ToSlice (env_Merge ev ex)))
    by (rewrite Hsl; apply lookup_insert_eq).
  assert (Hget1 : forall k val, In (k, val) ex ->
                    env.Get (env_Merge ev ex) k = (val, true))
    by (intros k val; apply env_Get_Merge_extra; exact Hnd).
  assert (Hget2 : forall k, ~ In k (map fst ex) ->
                    env.Get (env_Merge ev ex) k = env.Get ev k)
    by (intros k; apply env_Get_Merge_other).
  destruct (Shell.PTY v).
  - exists world', c, (4 + next world)%nat, (env_Merge ev ex).
    split; [exact Hrun|]. split.
    { rewrite Hev. right. right. apply pty_events_pty. reflexivity. }
    auto.
  - set (c' := wired c _ _) in *.
    exists world', c', (4 + next world)%nat, (env_Merge ev ex).
    split; [exact Hrun|]. split.
    { rewrite Hev. left. right. apply pipe_events_start. reflexivity. }
    auto.
Qed.

Lemma RunScript_environment_witness :
  shells Script.world !! Example.sh = Some Example.shell0
  /\ env_wf (env.FromSlice (os_Environ Example.platform))
  /\ exists r world' sl merged,
       RunScript Example.platform "linux" Example.sh Script.path Script.extra
         Script.world = Done r world'
       /\ slices world' !! sl = Some (env.ToSlice merged)
       /\ env.Get merged "HOME" = ("/tmp", true)
       /\ env.Get merged "CI" = ("true", true)
       /\ env.Get merged "PATH" = ("/bin", true).
Proof.
  assert (Hs : shells Script.world !! Example.sh = Some Example.shell0)
    by reflexivity.
  assert (Hwf : env_wf (env.FromSlice (os_Environ Example.platform))).
  { split; vm_compute; repeat constructor; cbn; intuition discriminate. }
  split; [exact Hs|]. split; [exact Hwf|].
  destruct (RunScript_environment Example.platform "linux" Example.sh
              Script.path Script.extra Script.world Example.shell0
              (env.FromSlice (os_Environ Example.platform)) Script.overrides
              eq_refl Hs eq_refl eq_refl ltac:(vm_compute; lia) Hwf)
    as (world' & c0 & sl & merged & Hrun & Hst & Henv & Hsl & Hex & Hev).
  { vm_compute. repeat constructor; cbn; intuition discriminate. }
  eexists _, world', sl, merged.
  split; [exact Hrun|]. split; [exact Hsl|].
  split; [apply Hex; left; reflexivity|].
  split; [apply Hex; right; left; reflexivity|].
  rewrite Hev; [reflexivity|].
  cbn. intuition discriminate.
Defined.

(** X18. The extra environment is for that script only.  [RunScript]
    leaves the shell, the environment the shell points to and the
    extra environment as they were, and a command built on the shell
    afterwards carries the environment of the shell, without the extra
    entries. *)
Theorem RunScript_extra_does_not_leak os GOOS s path extra world v ev ex :
  (GOOS =? "windows")%string = false ->
  shells world !! s = Some v ->
  envs world !! Shell.Env v = Some ev ->
  envs world !! extra = Some ex ->
  (extra < next world)%nat ->
  (Shell.Env v < next world)%nat ->
  exists r world',
    RunScript os GOOS s path extra world = Done r world'
    /\ shells world' = shells world
    /\ envs world' !! Shell.Env v = Some ev
    /\ envs world' !! extra = Some ex
    /\ forall name arg absPath,
         resolved os ev name = (absPath, None) ->
         exists w2,
           buildCommand os s name arg world'
           = Done (Some (next world'), None) w2
           /\ slices w2 !! S (next world') = Some (env.ToSlice ev).
Proof.
  intros Hgoos Hs He Hx Hlt Hlt'.
  destruct (RunScript_unix os GOOS s path extra world v ev ex
              Hgoos Hs He Hx Hlt)
    as (world' & Hrun & Hsh & Henvs & _).
  cbv zeta in Hrun, Henvs.
  eexists _, world'. split; [exact Hrun|]. split; [exact Hsh|].
  assert (He' : envs world' !! Shell.Env v = Some ev)
    by (rewrite Henvs, !lookup_insert_ne by lia; exact He).
  assert (Hx' : envs world' !! extra = Some ex)
    by (rewrite Henvs, !lookup_insert_ne by lia; exact Hx).
  split; [exact He'|]. split; [exact Hx'|].
  intros name arg absPath Hres.
  destruct (buildCommand_builds os s name arg world' v ev absPath
              ltac:(rewrite Hsh; exact Hs) He' Hres)
    as (w2 & Hb & _ & Hsl).
  exists w2. split; [exact Hb | exact Hsl].
Qed.

Lemma RunScript_extra_does_not_leak_witness :
  shells Script.world !! Example.sh = Some Example.shell0
  /\ exists world' w2,
       RunScript Example.platform "linux" Example.sh Script.path Script.extra
         Script.world = Done None world'
       /\ buildCommand Example.platform Example.sh "echo" ["hello"] world'
          = Done (Some (next world'), None) w2
       /\ slices w2 !! S (next world') = Some ["PATH=/bin"; "HOME=/root"].
Proof.
  assert (Hs : shells Script.world !! Example.sh = Some Example.shell0)
    by reflexivity.
  split; [exact Hs|].
  destruct (RunScript_extra_does_not_leak Example.platform "linux" Example.sh
              Script.path Script.extra Script.world Example.shell0
              (env.FromSlice (os_Environ Example.platform)) Script.overrides
              eq_refl Hs eq_refl eq_refl ltac:(vm_compute; lia)
              ltac:(vm_compute; lia))
    as (r & world' & Hrun & _ & _ & _ & Hbuild).
  destruct (Hbuild "echo" ["hello"] "/bin/echo" eq_refl) as (w2 & Hb & Hsl).
  exists world', w2.
  assert (Hr : r = None) by (vm_compute in Hrun; injection Hrun as <- _; reflexivity).
  subst r. split; [exact Hrun|]. split; [exact Hb | exact Hsl].
Defined.

(** ** What running a command leaves behind *)

(** [RunAndCapture] when the command resolves: the byte sinks. *)
Lemma RunAndCapture_buffers os s command arg world v ev absPath :
  shells world !! s = Some v ->
  envs world !! Shell.Env v = Some ev ->
  resolved os ev command = (absPath, None) ->
  let b := S (S (next world)) in
  exists r world',
    RunAndCapture os s command arg world = Done r world'
    /\ shells world' = shells world /\ envs world' = envs world
    /\ exists captured, buffers world' = <[b := captured]> (buffers world).
Proof.
  intros Hs He Hres b.
  apply wp_elim. unfold RunAndCapture. wp_steps.
  apply wp_mono with
    (Q := fun _ w1 =>
            shells w1 = shells world /\ envs w1 = envs world
            /\ slices w1 = slices world /\ cmds w1 = cmds world
            /\ buffers w1 = buffers world /\ next w1 = next world
            /\ now w1 = now world).
  { destruct (Shell.Debug v).
    - unfold Promptf, logf. wp_steps. repeat split; reflexivity.
    - wp_steps. repeat split; reflexivity. }
  intros [] w1 (A1 & A2 & A3 & A4 & A5 & A6 & A7).
  wp_steps.
  eapply wp_buildCommand; [lookup_now | lookup_now |]. rewrite Hres.
  intros w2 B1 B2 B3 B4 B5 B6 B7 B8.
  wp_steps.
  eapply wp_executeCommand_pipe.
  { lookup_now. } { reflexivity. } { lookup_now. }
  { unfold env_of, built. lookup_now. } { reflexivity. }
  world_simpl. rewrite B6, A6. fold b. cbn [built Cmd.Path].
  set (p := spawn os _ _).
  intros w3 C1 C2 C3 C4 C5 C6 C7.
  assert (Hb : exists captured,
             buffers w3 = <[b := captured]> (buffers world)).
  { rewrite C6. destruct (Start_err p).
    - exists "". rewrite B3, A5. reflexivity.
    - eexists. cbn [buffer_writes]. rewrite insert_insert_eq, B3, A5.
      reflexivity. }
  assert (Hsh : shells w3 = shells world) by congruence.
  assert (Hen : envs w3 = envs world) by congruence.
  destruct (pipe_result p (ACommand absPath arg)) as [err|] eqn:Hr.
  - wp_steps. hnf. split; [exact Hsh|]. split; [exact Hen | exact Hb].
  - apply pipe_result_None in Hr as [Hst _]. rewrite Hst in C6.
    eapply wp_bind, wp_deref.
    { rewrite C6. world_simpl. cbn [buffer_writes].
      rewrite !lookup_insert_eq. reflexivity. }
    wp_steps. hnf. split; [exact Hsh|]. split; [exact Hen | exact Hb].
Qed.

(** X19. [RunAndCapture] captures into a buffer of its own: whatever
    the command and however it ends, every byte sink that existed at
    the call, the writer of the shell among them, holds afterwards what
    it held before, and the shell and its environment are unchanged. *)
Theorem RunAndCapture_spares_writer os s command arg world v ev :
  shells world !! s = Some v ->
  envs world !! Shell.Env v = Some ev ->
  exists r world',
    RunAndCapture os s command arg world = Done r world'
    /\ shells world' = shells world
    /\ envs world' = envs world
    /\ forall l, (l < next world)%nat ->
                 buffers world' !! l = buffers world !! l.
Proof.
  intros Hs He.
  destruct (resolved os ev command) as [absPath [err|]] eqn:Hres.
  - destruct (wp_elim (RunAndCapture os s command arg)
                (fun r w' => shells w' = shells world
                             /\ envs w' = envs world
                             /\ buffers w' = buffers world) world)
      as (r & world' & Hrun & Hsh & Hen & Hb).
    { unfold RunAndCapture. wp_steps.
      destruct (Shell.Debug v).
      - unfold Promptf, logf. wp_steps.
        eapply wp_buildCommand; [lookup_now | lookup_now |]. rewrite Hres.
        wp_steps. auto.
      - wp_steps.
        eapply wp_buildCommand; [lookup_now | lookup_now |]. rewrite Hres.
        wp_steps. auto. }
    exists r, world'. rewrite Hb. auto.
  - destruct (RunAndCapture_buffers os s command arg world v ev absPath
                Hs He Hres)
      as (r & world' & Hrun & Hsh & Hen & captured & Hb).
    exists r, world'. split; [exact Hrun|]. split; [exact Hsh|].
    split; [exact Hen|]. intros l Hl. rewrite Hb.
    apply lookup_insert_ne. lia.
Qed.

Lemma RunAndCapture_spares_writer_witness :
  shells Example.booted !! Example.sh = Some Example.shell0
  /\ exists world',
       RunAndCapture Example.platform Example.sh "echo" ["hello"]
         Example.booted = Done ("hello", None) world'
       /\ buffers world' !! 0%nat = buffers Example.booted !! 0%nat.
Proof.
  assert (Hs : shells Example.booted !! Example.sh = Some Example.shell0)
    by reflexivity.
  split; [exact Hs|].
  destruct (RunAndCapture_spares_writer Example.platform Example.sh "echo"
              ["hello"] Example.booted Example.shell0
              (env.FromSlice (os_Environ Example.platform)) Hs eq_refl)
    as (r & world' & Hrun & _ & _ & Hb).
  exists world'. split; [|apply Hb; vm_compute; lia].
  rewrite Hrun. f_equal. vm_compute in Hrun. injection Hrun as <- _.
  reflexivity.
Defined.

(** X20. Whether or not the command resolves, starts or succeeds, with
    or without a PTY, [Run] leaves the shell (its working directory
    among the rest), every environment container and the virtual clock
    as they were.  (The children of the model exit, so the call is
    over; of a child that never exits nothing is said.) *)
Theorem Run_leaves_shell os s command arg world v ev :
  shells world !! s = Some v ->
  envs world !! Shell.Env v = Some ev ->
  exists r world',
    Run os s command arg world = Done r world'
    /\ shells world' = shells world
    /\ envs world' = envs world
    /\ now world' = now world.
Proof.
  intros Hs He.
  destruct (wp_elim (Run os s command arg)
              (fun _ w' => shells w' = shells world
                           /\ envs w' = envs world
                           /\ now w' = now world) world)
    as (r & world' & Hrun & Hsh & Hen & Hnow).
  { unfold Run, Promptf, logf. wp_steps.
    eapply wp_buildCommand; [lookup_now | lookup_now |].
    destruct (resolved os ev command) as [absPath [err|]].
    - unfold Errorf, logf. wp_steps. auto.
    - world_simpl. intros w' H1 H2 H3 H4 H5 H6 H7 H8.
      wp_steps. eapply wp_deref; [lookup_now|].
      destruct (Shell.PTY v) eqn:Hpty.
      + eapply wp_executeCommand_pty.
        { lookup_now. } { reflexivity. } { lookup_now. }
        { unfold env_of, built. lookup_now. } { reflexivity. }
        intros w2 G1 G2 G3 G4 _ _ _ _.
        split; [congruence|]. split; congruence.
      + eapply wp_executeCommand_pipe.
        { lookup_now. } { reflexivity. } { lookup_now. }
        { unfold env_of, built. lookup_now. } { reflexivity. }
        intros w2 G1 G2 G3 G4 _ _ _.
        split; [congruence|]. split; congruence. }
  exists r, world'. split; [exact Hrun|]. split; [exact Hsh|].
  split; [exact Hen | exact Hnow].
Qed.

Lemma Run_leaves_shell_witness :
  shells Example.booted !! Example.sh = Some Example.shell0
  /\ exists r world',
       Run (Example.exits 3) Example.sh "echo" ["hello"] Example.booted
       = Done r world'
       /\ shells world' = shells Example.booted
       /\ GetExitCode r = 3.
Proof.
  assert (Hs : shells Example.booted !! Example.sh = Some Example.shell0)
    by reflexivity.
  split; [exact Hs|].
  destruct (Run_leaves_shell (Example.exits 3) Example.sh "echo" ["hello"]
              Example.booted Example.shell0
              (env.FromSlice (os_Environ (Example.exits 3))) Hs eq_refl)
    as (r & world' & Hrun & Hsh & _).
  exists r, world'. split; [exact Hrun|]. split; [exact Hsh|].
  vm_compute in Hrun. injection Hrun as <- _. reflexivity.
Defined.

(** ** [LockFile]: the errors it can return *)

(** X21. Where [os.Getwd] returns absolute paths, [LockFile] returns,
    and in one of three ways: with the lock, on the absolute path of
    the file; with the error of the context; or, at once and without
    an attempt, with the error of [filepath.Abs], which a relative
    path meets when the working directory of the process cannot be
    found.  The path handed to [lockfile.New] is always absolute, so
    the error of creating the lock is never returned. *)
Theorem LockFile_errors os fuel s path timeout world v :
  Getwd_absolute os ->
  shells world !! s = Some v ->
  (Z.to_nat (timeout / lockRetryDuration) + 1 <= fuel)%nat ->
  exists r world',
    LockFile os fuel s path timeout world = Done r world'
    /\ ((exists lock,
           r = (Some lock, None)
           /\ filepath_Abs os path = (lock, None)
           /\ filepath_IsAbs lock = true)
        \/ (exists e,
              r = (None, Some e) /\ (e = Canceled \/ e = DeadlineExceeded)
              /\ now world < now world')
        \/ (exists d err,
              r = (None,
                   Some (fmt_Errorf
                           ("Failed to find absolute path to lock " ++ dq
                            ++ "%s" ++ dq ++ " (%v)")%string
                           [AStr path; AErr err]))
              /\ filepath_IsAbs path = false
              /\ os_Getwd os = (d, Some err)
              /\ world' = world)).
Proof.
  intros Hg Hs Hfuel.
  destruct (filepath_Abs os path) as [lock [err|]] eqn:Habs.
  - exists (None,
            Some (fmt_Errorf
                    ("Failed to find absolute path to lock " ++ dq
                     ++ "%s" ++ dq ++ " (%v)")%string
                    [AStr path; AErr err])), world.
    split; [unfold LockFile; rewrite Habs; reflexivity|].
    right. right. unfold filepath_Abs in Habs.
    destruct (filepath_IsAbs path); [discriminate|].
    destruct (os_Getwd os) as [d [e|]]; [|discriminate].
    injection Habs as _ <-. exists d, e. auto.
  - pose proof (filepath_Abs_absolute os path lock Hg Habs) as Hisabs.
    destruct (LockFile_total os fuel s path timeout world v lock
                Hs Habs Hisabs Hfuel)
      as (r & n & world' & Hrun & _ & Hnow & _ & _ & _ & Hres).
    exists r, world'. split; [exact Hrun|].
    destruct Hres as [(-> & _)|(e & -> & Hn & _ & He & _)].
    + left. exists lock. auto.
    + right. left. exists e. split; [reflexivity|]. split; [exact He|].
      rewrite Hnow. unfold attempt_at.
      pose proof lockRetryDuration_pos. nia.
Qed.

Lemma LockFile_errors_witness :
  Getwd_absolute Nowhere.platform
  /\ shells Example.booted !! Example.sh = Some Example.shell0
  /\ (exists err,
        LockFile Nowhere.platform 61 Example.sh "agent.lock" 60000000000
          Example.booted
        = Done (None,
                Some (fmt_Errorf
                        ("Failed to find absolute path to lock " ++ dq
                         ++ "%s" ++ dq ++ " (%v)")%string
                        [AStr "agent.lock"; AErr err])) Example.booted)
  /\ exists r world',
       LockFile Contended.platform 61 Example.sh "agent.lock" 60000000000
         Example.booted = Done r world'
       /\ r = (Some "/work/agent.lock", None).
Proof.
  assert (Hg : Getwd_absolute Nowhere.platform)
    by (intros d H; discriminate H).
  assert (Hs : shells Example.booted !! Example.sh = Some Example.shell0)
    by reflexivity.
  split; [exact Hg|]. split; [exact Hs|]. split.
  - destruct (LockFile_errors Nowhere.platform 61 Example.sh "agent.lock"
                60000000000 Example.booted Example.shell0 Hg Hs
                ltac:(vm_compute; lia))
      as (r & world' & Hrun & _).
    eexists. rewrite Hrun. vm_compute in Hrun. injection Hrun as <- <-.
    reflexivity.
  - destruct (LockFile_errors Contended.platform 61 Example.sh "agent.lock"
                60000000000 Example.booted Example.shell0
                ltac:(intros d [= <-]; reflexivity) Hs
                ltac:(vm_compute; lia))
      as (r & world' & Hrun & _).
    exists r, world'. split; [exact Hrun|].
    vm_compute in Hrun. injection Hrun as <- _. reflexivity.
Defined.
